(** * CymbalFlix: rating aggregates, rating submission and duplicate merge

    A shallow embedding of
    - [server/routes/api.js], the handlers of [POST /api/movies/:id/rate],
      [GET /api/movies], [GET /api/movies/:id] and [GET /api/stats];
    - [admin/merge_duplicates.js], function [mergeDuplicates];
    - [admin/find_duplicates.js], function [findDuplicates];
    - [public/js/movie.js], the submit handler of the rating form;
    - [server/db/import.js], [server/db/update_summaries.js] and
      [server/db/connection.js];
    together with the part of the MongoDB driver they call (collections,
    cursors, sessions, transactions).

    Conventions.
    - A JavaScript number is [NaN], an infinity or a finite IEEE 754
      double, kept as the rational it stands for, in lowest terms, so that
      two numbers are equal when they are the same term.  A decimal literal
      and the result of an addition, a multiplication or a division are
      rounded to the nearest double, a tie going to the even significand;
      a result too large for a double is an infinity.  The sign of zero is
      not modelled.
    - A collection is the list of its documents, in store order.
    - Asynchronous code is run one store operation after the other.  A
      handler runs to completion unless a statement says which other run is
      scheduled between two of its operations. *)

From Stdlib Require Import List ZArith QArith Qround Qreduction Qabs.
From Stdlib Require Import String Ascii Bool Arith Lia Permutation.
Import ListNotations.

(** ** JavaScript numbers *)

Inductive number : Type :=
| NaN
| Inf (negative : bool)
| Num (q : Q).

Definition Qneg (q : Q) : bool := (Qnum q <? 0)%Z.
Definition Qzero (q : Q) : bool := (Qnum q =? 0)%Z.

(** The integer nearest to [n / d], for [0 <= n] and [0 < d]; a tie goes to
    the even one. *)
Definition round_ties_even (n d : Z) : Z :=
  let q := (n / d)%Z in
  match (2 * (n mod d) ?= d)%Z with
  | Lt => q
  | Gt => (q + 1)%Z
  | Eq => if Z.even q then q else (q + 1)%Z
  end.

(** The largest [k] with [2 ^ k <= n / d], for [0 < n] and [0 < d]. *)
Definition log2_ratio (n d : Z) : Z :=
  let k := (Z.log2 n - Z.log2 d)%Z in
  if (n * 2 ^ Z.max 0 (- k) <? d * 2 ^ Z.max 0 k)%Z then (k - 1)%Z else k.

(** The double nearest to a rational: a significand of 53 bits, or fewer
    at the smallest exponent -1074; [None] when the rounded value does not
    fit, that is from [2 ^ 1024] on. *)
Definition binary64 (q : Q) : option Q :=
  let n := Z.abs (Qnum q) in
  let d := Zpos (Qden q) in
  if (n =? 0)%Z then Some 0%Q
  else
    let e := Z.max (log2_ratio n d - 52) (-1074) in
    let m :=
      if (0 <=? e)%Z then round_ties_even n (d * 2 ^ e)
      else round_ties_even (n * 2 ^ (- e)) d in
    let s := if Qneg q then (- m)%Z else m in
    if (0 <=? e)%Z then
      if (2 ^ 1024 <=? m * 2 ^ e)%Z then None
      else Some (inject_Z (s * 2 ^ e))
    else Some (s # Z.to_pos (2 ^ (- e))).

(** The number a real value becomes: the nearest double in lowest terms,
    or an infinity. *)
Definition num (q : Q) : number :=
  match binary64 (Qred q) with
  | Some r => Num (Qred r)
  | None => Inf (Qneg q)
  end.

Definition isNaN (x : number) : bool :=
  match x with NaN => true | _ => false end.

(** [a * b] *)
Definition num_mul (a b : number) : number :=
  match a, b with
  | NaN, _ | _, NaN => NaN
  | Inf s, Inf t => Inf (xorb s t)
  | Inf s, Num q | Num q, Inf s => if Qzero q then NaN else Inf (xorb s (Qneg q))
  | Num p, Num q => num (p * q)%Q
  end.

(** [a / b] *)
Definition num_div (a b : number) : number :=
  match a, b with
  | NaN, _ | _, NaN => NaN
  | Inf _, Inf _ => NaN
  | Inf s, Num q => Inf (xorb s (Qneg q))
  | Num _, Inf _ => Num 0%Q
  | Num p, Num q =>
      if Qzero q then (if Qzero p then NaN else Inf (Qneg p))
      else num (p / q)%Q
  end.

(** [a + b] *)
Definition num_add (a b : number) : number :=
  match a, b with
  | NaN, _ | _, NaN => NaN
  | Inf s, Inf t => if Bool.eqb s t then Inf s else NaN
  | Inf s, Num _ | Num _, Inf s => Inf s
  | Num p, Num q => num (p + q)%Q
  end.

(** [a < b]; false as soon as one side is [NaN]. *)
Definition num_lt (a b : number) : bool :=
  match a, b with
  | NaN, _ | _, NaN => false
  | Inf s, Inf t => s && negb t
  | Inf s, Num _ => s
  | Num _, Inf t => negb t
  | Num p, Num q => match (p ?= q)%Q with Lt => true | _ => false end
  end.

(** [a > b] *)
Definition num_gt (a b : number) : bool := num_lt b a.

(** [Math.round]: the nearest integer, a tie going up. *)
Definition Math_round (x : number) : number :=
  match x with
  | Num q => Num (inject_Z (Qfloor (q + (1 # 2))%Q))
  | _ => x
  end.

(** [array.length] as a number. *)
Definition of_length (n : nat) : number := Num (inject_Z (Z.of_nat n)).

(** ** Strings read as numbers: [parseInt] and [parseFloat] *)

Definition code (c : ascii) : nat := nat_of_ascii c.

(** White space that both functions skip at the start of their argument
    (the ASCII part of StrWhiteSpaceChar). *)
Definition is_space (c : ascii) : bool :=
  let n := code c in
  ((9 <=? n) && (n <=? 13) || (n =? 32))%nat.

Fixpoint skip_space (s : string) : string :=
  match s with
  | String c r => if is_space c then skip_space r else s
  | EmptyString => s
  end.

Definition digit (c : ascii) : option Z :=
  let n := code c in
  if ((48 <=? n) && (n <=? 57))%nat then Some (Z.of_nat (n - 48)) else None.

Definition hex_digit (c : ascii) : option Z :=
  let n := code c in
  if ((48 <=? n) && (n <=? 57))%nat then Some (Z.of_nat (n - 48))
  else if ((97 <=? n) && (n <=? 102))%nat then Some (Z.of_nat (n - 87))
  else if ((65 <=? n) && (n <=? 70))%nat then Some (Z.of_nat (n - 55))
  else None.

(** The longest prefix of digits, most significant first, and what follows. *)
Fixpoint take_digits (dig : ascii -> option Z) (s : string) : list Z * string :=
  match s with
  | String c r =>
      match dig c with
      | Some d => let (ds, rest) := take_digits dig r in (d :: ds, rest)
      | None => ([], s)
      end
  | EmptyString => ([], s)
  end.

Definition digits_value (radix : Z) (ds : list Z) : Z :=
  fold_left (fun acc d => acc * radix + d)%Z ds 0%Z.

(** An optional sign: [true] for a minus. *)
Definition take_sign (s : string) : bool * string :=
  match s with
  | String "-" r => (true, r)
  | String "+" r => (false, r)
  | _ => (false, s)
  end.

Definition signed (neg : bool) (z : Z) : Z := if neg then (- z)%Z else z.

(** [parseInt(s)] with no radix argument; [None] stands for [NaN]. *)
Definition parseInt_string (s : string) : option Z :=
  let (neg, s1) := take_sign (skip_space s) in
  let (radix, s2) :=
    match s1 with
    | String "0" (String "x" r) | String "0" (String "X" r) => (16%Z, r)
    | _ => (10%Z, s1)
    end in
  let dig := if (radix =? 16)%Z then hex_digit else digit in
  match fst (take_digits dig s2) with
  | [] => None
  | ds => Some (signed neg (digits_value radix ds))
  end.

(** The exponent part [e[+-]ddd] of a decimal literal, 0 when there is none. *)
Definition take_exponent (s : string) : Z :=
  match s with
  | String c r =>
      if ((code c =? 101) || (code c =? 69))%nat then
        let (neg, r1) := take_sign r in
        match fst (take_digits digit r1) with
        | [] => 0%Z
        | ds => signed neg (digits_value 10 ds)
        end
      else 0%Z
  | EmptyString => 0%Z
  end.

Definition prefix_Infinity (s : string) : bool :=
  String.eqb (substring 0 8 s) "Infinity".

(** [parseFloat(s)]: the longest prefix that is a StrDecimalLiteral. *)
Definition parseFloat_string (s : string) : number :=
  let (neg, s1) := take_sign (skip_space s) in
  if prefix_Infinity s1 then Inf neg
  else
    let (ip, s2) := take_digits digit s1 in
    let (fp, s3) :=
      match s2 with
      | String "." r => take_digits digit r
      | _ => ([], s2)
      end in
    match ip, fp with
    | [], [] => NaN
    | _, _ =>
        let mant :=
          (inject_Z (digits_value 10 (ip ++ fp))
           / inject_Z (10 ^ Z.of_nat (List.length fp)))%Q in
        let q := (mant * 10 ^ take_exponent s3)%Q in
        num (if neg then (- q)%Q else q)
    end.

(** [parseInt(x)] for a number [x] goes through its decimal rendering:
    plain digits when [1e-6 <= |x| < 1e21], so that the result is [x] cut
    towards zero; exponent notation otherwise, of which [parseInt] reads the
    leading digit only. *)
Fixpoint leading_digit (fuel : nat) (n : Z) : Z :=
  match fuel with
  | O => n
  | S f => if (n <? 10)%Z then n else leading_digit f (n / 10)%Z
  end.

Fixpoint first_significant (fuel : nat) (a : Q) : Z :=
  match fuel with
  | O => Qfloor a
  | S f => if Qle_bool 1 a then Qfloor a else first_significant f (a * 10)%Q
  end.

Definition parseInt_number (x : number) : option Z :=
  match x with
  | NaN | Inf _ => None
  | Num q =>
      let a := Qabs q in
      if Qzero q then Some 0%Z
      else if Qle_bool (inject_Z (10 ^ 21)) a then
        let n := Qfloor a in
        Some (signed (Qneg q) (leading_digit (S (Z.to_nat (Z.log2 n))) n))
      else if Qle_bool (1 # 1000000) a then
        Some (Z.quot (Qnum q) (Zpos (Qden q)))
      else
        Some (signed (Qneg q)
                (first_significant (S (Z.to_nat (Z.log2 (Zpos (Qden q))))) a))
  end.

(** ** Values of a request body

    What [express.json()] and [express.urlencoded()] put in [req.body]:
    an absent field, [null], a boolean, a number or a string.  Objects and
    arrays are left out. *)

Inductive jsval : Type :=
| JUndefined
| JNull
| JBool (b : bool)
| JNumber (x : number)
| JString (s : string).

(** ToBoolean, the test behind [!v]. *)
Definition truthy (v : jsval) : bool :=
  match v with
  | JUndefined | JNull => false
  | JBool b => b
  | JNumber NaN => false
  | JNumber (Inf _) => true
  | JNumber (Num q) => negb (Qzero q)
  | JString s => negb (String.eqb s "")
  end.

(** ToString for the values that are neither numbers nor strings. *)
Definition ToString_other (v : jsval) : string :=
  match v with
  | JUndefined => "undefined"
  | JNull => "null"
  | JBool true => "true"
  | JBool false => "false"
  | _ => ""
  end.

Definition parseInt (v : jsval) : option Z :=
  match v with
  | JNumber x => parseInt_number x
  | JString s => parseInt_string s
  | _ => parseInt_string (ToString_other v)
  end.

Definition parseFloat (v : jsval) : number :=
  match v with
  | JNumber x => x
  | JString s => parseFloat_string s
  | _ => parseFloat_string (ToString_other v)
  end.

(** ** Documents and collections *)

(** A document of [movies].  The fields the modelled code never reads or
    writes ([_id], [genres], [summary]) are left out. *)
Module Movie.
Record t : Type := mk {
  movieId : Z;
  title : string;
  year : option Z;             (* [null] when the title carries no year *)
  averageRating : number;
  ratingCount : nat
}.
End Movie.

Module Rating.
Record t : Type := mk {
  _id : N;                     (* ObjectId, given by the driver on insert *)
  userId : Z;
  movieId : Z;
  rating : number;
  timestamp : Z
}.
End Rating.

Module Tag.
Record t : Type := mk {
  userId : Z;
  movieId : Z;
  tag : string;
  timestamp : Z
}.
End Tag.

Module Link.
Record t : Type := mk {
  movieId : Z;
  imdbId : option string;
  tmdbId : option Z
}.
End Link.

(** The database: its four collections. *)
Record store : Type := mkStore {
  movies : list Movie.t;
  ratings : list Rating.t;
  tags : list Tag.t;
  links : list Link.t
}.

(** ** The driver: store round trips, sessions and transactions

    A write reaches the store in one of two ways.  Called with a session
    that has a transaction in progress ([{ session }] in the options of the
    call), it joins the transaction: it is kept in the transaction's log,
    seen by the reads of that session, applied to the store on commit and
    dropped on abort.  Called without a session, it is applied to the store
    at once, whether or not some session has a transaction in progress. *)

Inductive write : Type :=
| InsertRating (r : Rating.t)
| SetRatingMovieId (oid : N) (movieId : Z)
| SetMovieStats (movieId : Z) (averageRating : number) (ratingCount : nat)
| DeleteMovies (movieIds : list Z).

(** [updateOne]: the first document that matches is changed. *)
Fixpoint update_first {A : Type} (p : A -> bool) (f : A -> A) (l : list A)
  : list A :=
  match l with
  | [] => []
  | x :: r => if p x then f x :: r else x :: update_first p f r
  end.

(** [{ field: { $in: ids } }] *)
Definition is_in (ids : list Z) (z : Z) : bool := existsb (Z.eqb z) ids.

Definition set_movieId (m : Z) (r : Rating.t) : Rating.t :=
  Rating.mk (Rating._id r) (Rating.userId r) m (Rating.rating r)
    (Rating.timestamp r).

Definition set_stats (avg : number) (cnt : nat) (mv : Movie.t) : Movie.t :=
  Movie.mk (Movie.movieId mv) (Movie.title mv) (Movie.year mv) avg cnt.

Definition apply_write (wr : write) (s : store) : store :=
  match wr with
  | InsertRating r =>
      mkStore (movies s) (ratings s ++ [r]) (tags s) (links s)
  | SetRatingMovieId oid m =>
      mkStore (movies s)
        (update_first (fun r => N.eqb (Rating._id r) oid) (set_movieId m)
           (ratings s))
        (tags s) (links s)
  | SetMovieStats m avg cnt =>
      mkStore
        (update_first (fun mv => Z.eqb (Movie.movieId mv) m)
           (set_stats avg cnt) (movies s))
        (ratings s) (tags s) (links s)
  | DeleteMovies ids =>
      mkStore
        (filter (fun mv => negb (is_in ids (Movie.movieId mv))) (movies s))
        (ratings s) (tags s) (links s)
  end.

Definition apply_writes (log : list write) (s : store) : store :=
  fold_left (fun acc wr => apply_write wr acc) log s.

Inductive session : Type := ClientSession.

(** The state a run threads:
    - [db], the store as every client sees it;
    - [txn], the log of the transaction in progress, if any;
    - [fuse], an injected fault: [Some n] makes the store round trip after
      the next [n] throw;
    - [next_oid], the driver's ObjectId generator. *)
Record world : Type := mkWorld {
  db : store;
  txn : option (list write);
  fuse : option nat;
  next_oid : N
}.

Inductive error : Type := StoreError.

Inductive result (A : Type) : Type :=
| Ok (a : A)
| Throw (e : error).
Arguments Ok {A} a.
Arguments Throw {A} e.

Definition M (A : Type) : Type := world -> result A * world.

Definition ret {A : Type} (a : A) : M A := fun w => (Ok a, w).

Definition bind {A B : Type} (c : M A) (k : A -> M B) : M B :=
  fun w =>
    match c w with
    | (Ok a, w1) => k a w1
    | (Throw e, w1) => (Throw e, w1)
    end.

Notation "x <- c1 ;; c2" := (bind c1 (fun x => c2))
  (at level 61, c1 at next level, right associativity).
Notation "c1 ;; c2" := (bind c1 (fun _ => c2))
  (at level 61, right associativity).

(** [try { c } catch (e) { ... }]: the outcome of [c], caught. *)
Definition try_catch {A : Type} (c : M A) : M (result A) :=
  fun w => let (r, w1) := c w in (Ok r, w1).

(** One round trip to the store. *)
Definition tick : M unit :=
  fun w =>
    match fuse w with
    | Some O => (Throw StoreError, mkWorld (db w) (txn w) None (next_oid w))
    | Some (S n) => (Ok tt, mkWorld (db w) (txn w) (Some n) (next_oid w))
    | None => (Ok tt, w)
    end.

(** What a read sees. *)
Definition view (opts : option session) (w : world) : store :=
  match opts, txn w with
  | Some _, Some log => apply_writes log (db w)
  | _, _ => db w
  end.

Definition query {A : Type} (opts : option session) (f : store -> A) : M A :=
  tick ;; fun w => (Ok (f (view opts w)), w).

Definition submit (opts : option session) (wrs : list write) : M unit :=
  tick ;;
  fun w =>
    match opts, txn w with
    | Some _, Some log =>
        (Ok tt, mkWorld (db w) (Some (log ++ wrs)) (fuse w) (next_oid w))
    | _, _ =>
        (Ok tt, mkWorld (apply_writes wrs (db w)) (txn w) (fuse w) (next_oid w))
    end.

Definition startSession : M session := ret ClientSession.
Definition endSession (_ : session) : M unit := ret tt.

(** [session.withTransaction(callback)]: start a transaction, run the
    callback, commit if it returns and abort if it throws, in which case
    the error is thrown again.  (The retry of a callback that failed with
    a transient error is left out: injected faults are not transient.) *)
Definition withTransaction {A : Type} (_ : session) (callback : M A) : M A :=
  fun w =>
    match callback (mkWorld (db w) (Some []) (fuse w) (next_oid w)) with
    | (Ok a, w1) =>
        let log := match txn w1 with Some l => l | None => [] end in
        (Ok a, mkWorld (apply_writes log (db w1)) None (fuse w1) (next_oid w1))
    | (Throw e, w1) =>
        (Throw e, mkWorld (db w1) None (fuse w1) (next_oid w1))
    end.

(** *** Collection operations *)

(** [{ movieId: 1 }] ascending; documents with equal keys keep their store
    order. *)
Fixpoint insert_by_movieId (mv : Movie.t) (l : list Movie.t) : list Movie.t :=
  match l with
  | [] => [mv]
  | x :: r =>
      if (Movie.movieId mv <=? Movie.movieId x)%Z then mv :: l
      else x :: insert_by_movieId mv r
  end.

Definition sort_by_movieId (l : list Movie.t) : list Movie.t :=
  fold_right insert_by_movieId [] l.

Definition movies_find (opts : option session) (p : Movie.t -> bool)
  : M (list Movie.t) :=
  query opts (fun s => filter p (movies s)).

Definition movies_find_sorted (opts : option session) (p : Movie.t -> bool)
  : M (list Movie.t) :=
  query opts (fun s => sort_by_movieId (filter p (movies s))).

Definition movies_findOne (opts : option session) (p : Movie.t -> bool)
  : M (option Movie.t) :=
  query opts (fun s => find p (movies s)).

Definition movies_updateOne (opts : option session) (movieId : Z)
  (averageRating : number) (ratingCount : nat) : M unit :=
  submit opts [SetMovieStats movieId averageRating ratingCount].

Definition movies_deleteMany (opts : option session) (movieIds : list Z)
  : M unit :=
  submit opts [DeleteMovies movieIds].

Definition ratings_find (opts : option session) (p : Rating.t -> bool)
  : M (list Rating.t) :=
  query opts (fun s => filter p (ratings s)).

(** [insertOne(doc)]: the driver gives the document its [_id], also in the
    caller's object, and sends it. *)
Definition ratings_insertOne (opts : option session)
  (userId movieId : Z) (rating : number) (timestamp : Z) : M Rating.t :=
  fun w =>
    let doc := Rating.mk (next_oid w) userId movieId rating timestamp in
    (submit opts [InsertRating doc] ;; ret doc)
      (mkWorld (db w) (txn w) (fuse w) (N.succ (next_oid w))).

(** [bulkWrite(ops)]: the operations of one batch, in order. *)
Definition ratings_bulkWrite (opts : option session) (ops : list write)
  : M unit :=
  submit opts ops.

(** ** [server/routes/api.js]: [POST /api/movies/:id/rate] *)

Record request : Type := mkRequest {
  params_id : string;            (* [req.params.id] *)
  body_userId : jsval;           (* [req.body.userId] *)
  body_rating : jsval            (* [req.body.rating] *)
}.

Record updatedMovie : Type := mkUpdated {
  u_movieId : Z;
  u_averageRating : number;
  u_ratingCount : nat
}.

Inductive response : Type :=
| Status400 (error : string)
| Status404 (error : string)
| Status201 (rating : Rating.t) (updated : updatedMovie)
| Status500.

(** [allRatings.reduce((sum, r) => sum + r.rating, 0)] *)
Definition reduce_ratings (allRatings : list Rating.t) : number :=
  fold_left (fun sum r => num_add sum (Rating.rating r)) allRatings (Num 0%Q).

(** Lines 208-209 and 217: the statistics the handler writes. *)
Definition recalculate (allRatings : list Rating.t) : number * nat :=
  let totalRating := reduce_ratings allRatings in
  let averageRating :=
    num_div
      (Math_round
         (num_mul (num_div totalRating (of_length (List.length allRatings)))
            (Num 100%Q)))
      (Num 100%Q) in
  (averageRating, List.length allRatings).

(** The handler; [now] is what [Date.now()] returns.  The two tests on
    [movieId] and [parseInt(userId)] being [NaN] are the matches on [None]. *)
Definition rate (now : Z) (req : request) : M response :=
  r <- try_catch (
    let userId := body_userId req in
    let rating := body_rating req in
    match parseInt_string (params_id req) with
    | None => ret (Status400 "Invalid movie ID")
    | Some movieId =>
    match (if truthy userId then parseInt userId else None) with
    | None => ret (Status400 "Valid userId is required")
    | Some userId =>
    if negb (truthy rating) || isNaN (parseFloat rating) then
      ret (Status400 "Valid rating is required")
    else
    let ratingValue := parseFloat rating in
    if num_lt ratingValue (Num (1 # 2)) || num_gt ratingValue (Num 5%Q) then
      ret (Status400 "Rating must be between 0.5 and 5.0")
    else
    movie <- movies_findOne None (fun mv => Z.eqb (Movie.movieId mv) movieId) ;;
    match movie with
    | None => ret (Status404 "Movie not found")
    | Some _ =>
    newRating <-
      ratings_insertOne None userId movieId ratingValue (now / 1000)%Z ;;
    allRatings <-
      ratings_find None (fun r => Z.eqb (Rating.movieId r) movieId) ;;
    let (averageRating, ratingCount) := recalculate allRatings in
    movies_updateOne None movieId averageRating ratingCount ;;
    ret (Status201 newRating (mkUpdated movieId averageRating ratingCount))
    end end end) ;;
  match r with
  | Ok res => ret res
  | Throw _ => ret Status500          (* [next(error)] *)
  end.

(** The handler with another run scheduled between the insert of line 201
    and the read of line 204, where the handler awaits the store.  What the
    other run returns or throws is its own business. *)
Definition beside {A : Type} (other : M A) : M unit :=
  fun w => let (_, w1) := other w in (Ok tt, w1).

Definition rate_beside {A : Type} (now : Z) (req : request) (other : M A)
  : M response :=
  r <- try_catch (
    let userId := body_userId req in
    let rating := body_rating req in
    match parseInt_string (params_id req) with
    | None => ret (Status400 "Invalid movie ID")
    | Some movieId =>
    match (if truthy userId then parseInt userId else None) with
    | None => ret (Status400 "Valid userId is required")
    | Some userId =>
    if negb (truthy rating) || isNaN (parseFloat rating) then
      ret (Status400 "Valid rating is required")
    else
    let ratingValue := parseFloat rating in
    if num_lt ratingValue (Num (1 # 2)) || num_gt ratingValue (Num 5%Q) then
      ret (Status400 "Rating must be between 0.5 and 5.0")
    else
    movie <- movies_findOne None (fun mv => Z.eqb (Movie.movieId mv) movieId) ;;
    match movie with
    | None => ret (Status404 "Movie not found")
    | Some _ =>
    newRating <-
      ratings_insertOne None userId movieId ratingValue (now / 1000)%Z ;;
    beside other ;;
    allRatings <-
      ratings_find None (fun r => Z.eqb (Rating.movieId r) movieId) ;;
    let (averageRating, ratingCount) := recalculate allRatings in
    movies_updateOne None movieId averageRating ratingCount ;;
    ret (Status201 newRating (mkUpdated movieId averageRating ratingCount))
    end end end) ;;
  match r with
  | Ok res => ret res
  | Throw _ => ret Status500
  end.

(** ** [admin/merge_duplicates.js] *)

(** What a run prints: the usage line, "No duplicates found.", the figures
    of a committed merge, or "Transaction aborted". *)
Inductive merge_report : Type :=
| Usage
| NoOp
| Merged (primary : Z) (duplicates : list Z) (moved : nat)
    (averageRating : number) (ratingCount : nat)
| Aborted.

(** [{ title: searchTitle, year: parseInt(year) }]: a [NaN] matches no
    document, their [year] being an integer or [null]. *)
Definition by_title_year (searchTitle : string) (year : option Z)
  (mv : Movie.t) : bool :=
  String.eqb (Movie.title mv) searchTitle
  && match year, Movie.year mv with
     | Some y, Some y' => Z.eqb y' y
     | _, _ => false
     end.

(** [{ title: searchTitle }] *)
Definition by_title (searchTitle : string) (mv : Movie.t) : bool :=
  String.eqb (Movie.title mv) searchTitle.

Definition template (title year : string) : string :=
  title ++ " (" ++ year ++ ")".

(** Line 16: the group the merge works on. *)
Definition locate (title year : string) : M (list Movie.t) :=
  movies_find_sorted None
    (by_title_year (template title year) (parseInt_string year)).

(** Lines 52-54: the statistics the merge writes. *)
Definition merge_recalculate (allRatings : list Rating.t) : number * nat :=
  let totalRating := reduce_ratings allRatings in
  let ratingCount := List.length allRatings in
  let averageRating :=
    if (0 <? ratingCount)%nat then num_div totalRating (of_length ratingCount)
    else Num 0%Q in
  (averageRating, ratingCount).

(** The callback given to [withTransaction]; no call in it is given the
    session. *)
Definition merge_callback (primaryMovie : Movie.t) (duplicateMovieIds : list Z)
  : M (nat * number * nat) :=
  ratingsToMove <-
    ratings_find None (fun r => is_in duplicateMovieIds (Rating.movieId r)) ;;
  (if (0 <? List.length ratingsToMove)%nat then
     ratings_bulkWrite None
       (map (fun rating =>
               SetRatingMovieId (Rating._id rating)
                 (Movie.movieId primaryMovie)) ratingsToMove)
   else ret tt) ;;
  allRatings <-
    ratings_find None
      (fun r => Z.eqb (Rating.movieId r) (Movie.movieId primaryMovie)) ;;
  let (averageRating, ratingCount) := merge_recalculate allRatings in
  movies_updateOne None (Movie.movieId primaryMovie) averageRating ratingCount ;;
  movies_deleteMany None duplicateMovieIds ;;
  ret (List.length ratingsToMove, averageRating, ratingCount).

(** [title] and [year] are [process.argv[2]] and [process.argv[3]], [None]
    when the command line is too short. *)
Definition mergeDuplicates (title year : option string) : M merge_report :=
  match title, year with
  | Some title, Some year =>
      if String.eqb title "" || String.eqb year "" then ret Usage
      else
        movies <- locate title year ;;
        if (List.length movies <? 2)%nat then ret NoOp
        else
          match movies with
          | [] => ret NoOp
          | primaryMovie :: duplicateMovies =>
              let duplicateMovieIds := map Movie.movieId duplicateMovies in
              session <- startSession ;;
              r <- try_catch
                     (withTransaction session
                        (merge_callback primaryMovie duplicateMovieIds)) ;;
              endSession session ;;
              match r with
              | Ok (moved, averageRating, ratingCount) =>
                  ret (Merged (Movie.movieId primaryMovie) duplicateMovieIds
                         moved averageRating ratingCount)
              | Throw _ => ret Aborted
              end
          end
  | _, _ => ret Usage
  end.

(** ** [admin/find_duplicates.js] *)

(** What a run prints: nothing when Node rejects the file, else the usage
    line, "No movies found with that title and year.", or the records
    found. *)
Inductive find_report : Type :=
| NotLoaded
| FindUsage
| FindNone
| Found (movies : list Movie.t).

(** The names that the body of [findDuplicates] declares with [const], in
    the order of lines 9 to 16: [movies] is declared on line 15 and again
    on line 16. *)
Definition declared_names : list string :=
  ["db"; "moviesCollection"; "searchTitle"; "movies"; "movies"]%string.

(** An early error of the language: a body that declares a name twice with
    [const] is rejected when the file is loaded (SyntaxError: Identifier has
    already been declared), and no statement of the file is run. *)
Fixpoint declared_twice (names : list string) : bool :=
  match names with
  | [] => false
  | name :: rest => existsb (String.eqb name) rest || declared_twice rest
  end.

(** A run of the script.  The statements of the body are those of lines 4
    to 25, the query on title and year first, then the query on the title
    alone, whose result the report would print. *)
Definition findDuplicates (title year : option string) : M find_report :=
  if declared_twice declared_names then ret NotLoaded
  else
    match title, year with
    | Some title, Some year =>
        if String.eqb title "" || String.eqb year "" then ret FindUsage
        else
          let searchTitle := template title year in
          movies <-
            movies_find None (by_title_year searchTitle (parseInt_string year)) ;;
          movies <- movies_find None (by_title searchTitle) ;;
          if (List.length movies =? 0)%nat then ret FindNone
          else ret (Found movies)
    | _, _ => ret FindUsage
    end.

(** ** The aggregate of the specification (section 4.1), in its words

    [count] is the number of values, [average] their arithmetic mean
    rounded to two decimal places, a tie going away from zero, and 0 when
    there is no value. *)

Definition Qsum (values : list Q) : Q := fold_right Qplus 0%Q values.

Definition round_half_away (q : Q) : Q :=
  let r := (inject_Z (Qfloor (Qabs q * 100 + (1 # 2))%Q) / 100)%Q in
  if Qneg q then (- r)%Q else r.

Definition computeAggregate (values : list Q) : number * nat :=
  match values with
  | [] => (Num 0%Q, O)
  | _ =>
      (num (round_half_away
              (Qsum values / inject_Z (Z.of_nat (List.length values)))%Q),
       List.length values)
  end.

(** ** Reading the store *)

(** The rating events bound to identity key [m]. *)
Definition bound (s : store) (m : Z) : list Rating.t :=
  filter (fun r => Z.eqb (Rating.movieId r) m) (ratings s).

(** The entity record of identity key [m]. *)
Definition entity (s : store) (m : Z) : option Movie.t :=
  find (fun mv => Z.eqb (Movie.movieId mv) m) (movies s).

Definition stats (mv : Movie.t) : number * nat :=
  (Movie.averageRating mv, Movie.ratingCount mv).

(** Invariant I1 at [m]: the record holds the aggregate of the values of
    the events bound to it. *)
Definition I1 (s : store) (m : Z) : Prop :=
  exists mv values,
    entity s m = Some mv
    /\ map Rating.rating (bound s m) = map Num values
    /\ stats mv = computeAggregate values.

(** ** Notions used in the statements *)

(** Two worlds that differ in the state of the fault injector at most. *)
Definition same_data (w w' : world) : Prop :=
  db w' = db w /\ txn w' = txn w /\ next_oid w' = next_oid w
  /\ (fuse w = None -> fuse w' = None).

(** The record of [m] holds what the handler computes from exactly the
    rating events bound to [m]. *)
Definition up_to_date (s : store) (m : Z) : Prop :=
  exists mv, entity s m = Some mv /\ stats mv = recalculate (bound s m).

(** The identity key a call is against, if its path names one. *)
Definition target (req : request) : option Z := parseInt_string (params_id req).

(** Calls handled one after the other; each comes with the time of its
    arrival. *)
Fixpoint rate_all (calls : list (Z * request)) : M (list response) :=
  match calls with
  | [] => ret []
  | (now, req) :: rest =>
      res <- rate now req ;;
      others <- rate_all rest ;;
      ret (res :: others)
  end.

(** The call was answered 201. *)
Definition created (res : response) : Prop :=
  match res with Status201 _ _ => True | _ => False end.

(** A value off the closed interval from 0.5 to 5.0, or no number at all. *)
Definition outside (x : number) : Prop :=
  match x with
  | Num q => (q < 1 # 2)%Q \/ (5 < q)%Q
  | _ => True
  end.

(** The group of a title and year: what line 16 finds. *)
Definition group (s : store) (title year : string) : list Movie.t :=
  sort_by_movieId
    (filter (by_title_year (template title year) (parseInt_string year))
       (movies s)).

(** The rating events bound to one of [dups]. *)
Definition to_move (s : store) (dups : list Z) : list Rating.t :=
  filter (fun r => is_in dups (Rating.movieId r)) (ratings s).

(** The store after the batch of lines 38-49. *)
Definition reassigned (s : store) (p : Z) (dups : list Z) : store :=
  if (0 <? List.length (to_move s dups))%nat then
    apply_writes
      (map (fun rating => SetRatingMovieId (Rating._id rating) p)
         (to_move s dups)) s
  else s.

(** The store after the two writes of lines 59-65. *)
Definition merged (s : store) (p : Z) (dups : list Z) : store :=
  let s1 := reassigned s p dups in
  let (averageRating, ratingCount) := merge_recalculate (bound s1 p) in
  apply_write (DeleteMovies dups)
    (apply_write (SetMovieStats p averageRating ratingCount) s1).

(** A computation that leaves [tags] and [links] as they are, whatever its
    outcome. *)
Definition keeps_tags_links {A : Type} (c : M A) : Prop :=
  forall w r w', c w = (r, w') ->
    tags (db w') = tags (db w) /\ links (db w') = links (db w).

(** A rating event of the scenarios below. *)
Definition event (oid : N) (rater movieId : Z) (value : Q) : Rating.t :=
  Rating.mk oid rater movieId (Num value) 1700000000.

(** Scenario A: entity 1 with the ratings 4.0, 5.0 and 3.0. *)
Definition store_A : store :=
  mkStore
    [Movie.mk 1 "Heat (1995)" (Some 1995%Z) (Num 4%Q) 3]
    [event 1 2 1 4; event 2 3 1 5; event 3 4 1 3]
    [] [].

Definition world_A : world := mkWorld store_A None None 100.

(** Scenario B: entities 10 and 11 share "Alpha (1999)"; 10 has the rating
    5.0, 11 the ratings 3.0 and 3.0, a tag and a link. *)
Definition store_B : store :=
  mkStore
    [Movie.mk 11 "Alpha (1999)" (Some 1999%Z) (Num 3%Q) 2;
     Movie.mk 10 "Alpha (1999)" (Some 1999%Z) (Num 5%Q) 1]
    [event 1 7 10 5; event 2 8 11 3; event 3 9 11 3]
    [Tag.mk 8 11 "noir" 1700000000]
    [Link.mk 10 (Some "0111111"%string) (Some 111%Z);
     Link.mk 11 (Some "0111111"%string) (Some 111%Z)].

Definition world_B : world := mkWorld store_B None None 100.

(** The three rating events of scenario B, once all bound to entity 10. *)
Definition union_B : list Rating.t :=
  [event 1 7 10 5; event 2 8 10 3; event 3 9 10 3].

(** Two records of a title whose year part is a range: the import gave
    them no [year]. *)
Definition store_E : store :=
  mkStore
    [Movie.mk 20 "Serial (2006-2007)" None (Num 4%Q) 1;
     Movie.mk 21 "Serial (2006-2007)" None (Num 0%Q) 0]
    [event 1 7 20 4]
    [] [].

Definition world_E : world := mkWorld store_E None None 100.

(** A rating event after the batch: bound to [p] if it was bound to one of
    [dups], untouched otherwise. *)
Definition rebound (p : Z) (dups : list Z) (r : Rating.t) : Rating.t :=
  if is_in dups (Rating.movieId r) then set_movieId p r else r.

(** Scenario F: entity 30 with seventeen ratings of 0.5 and two of 1.0;
    its record holds their aggregate, 0.55 and 19. *)
Definition values_F : list Q := repeat (1 # 2)%Q 17 ++ [1; 1]%Q.

Definition store_F : store :=
  mkStore
    [Movie.mk 30 "Tie (2001)" (Some 2001%Z) (num (55 # 100)) 19]
    (map (fun i => event (N.of_nat i) (Z.of_nat i) 30 (nth (i - 1) values_F 0%Q))
       (seq 1 19))
    [] [].

Definition world_F : world := mkWorld store_F None None 100.

(** A third rating of 1.0 for entity 30. *)
Definition call_F : Z * request :=
  (1700000000123%Z, mkRequest "30" (JNumber (Num 9%Q)) (JNumber (Num 1%Q))).

(** ** Notions used in the further statements *)

(** What identifies a record: its identity key and its natural key. *)
Definition identity (mv : Movie.t) : Z * string * option Z :=
  (Movie.movieId mv, Movie.title mv, Movie.year mv).

(** Every rating event carries a value of the closed interval from 0.5 to
    5.0. *)
Definition values_in_range (s : store) : Prop :=
  Forall (fun r => exists q,
            Rating.rating r = Num q /\ ((1 # 2) <= q)%Q /\ (q <= 5)%Q)
    (ratings s).

Fixpoint ascending (l : list Z) : Prop :=
  match l with
  | [] => True
  | x :: r => Forall (fun y => (x <= y)%Z) r /\ ascending r
  end.

(** ** [server/routes/api.js]: the reading handlers *)

(** A field of [req.query]: a string, or nothing. *)
Definition with_default (v : option string) (d : jsval) : jsval :=
  match v with Some s => JString s | None => d end.

Definition query_value (v : option string) : jsval := with_default v JUndefined.

(** [n || d] for a number read by [parseInt]: [d] for [NaN] and for 0. *)
Definition or_default (v : option Z) (d : Z) : Z :=
  match v with
  | Some z => if (z =? 0)%Z then d else z
  | None => d
  end.

(** [cursor.limit(n)]: no limit for 0, and a negative [n] stands for its
    absolute value. *)
Definition cursor_limit {A : Type} (n : Z) (l : list A) : list A :=
  if (n =? 0)%Z then l else firstn (Z.to_nat (Z.abs n)) l.

(** [{ timestamp: -1 }], descending; events of one timestamp keep their
    store order. *)
Fixpoint insert_by_timestamp (r : Rating.t) (l : list Rating.t) : list Rating.t :=
  match l with
  | [] => [r]
  | x :: t =>
      if (Rating.timestamp x <=? Rating.timestamp r)%Z then r :: l
      else x :: insert_by_timestamp r t
  end.

Definition sort_by_timestamp_desc (l : list Rating.t) : list Rating.t :=
  fold_right insert_by_timestamp [] l.

(** An integer in a template literal: its decimal digits (below 1e21). *)
Fixpoint digits_of (fuel : nat) (n : Z) (acc : string) : string :=
  match fuel with
  | O => acc
  | S f =>
      let acc' := String (ascii_of_nat (48 + Z.to_nat (n mod 10))) acc in
      if (n <? 10)%Z then acc' else digits_of f (n / 10)%Z acc'
  end.

Definition string_of_Z (z : Z) : string :=
  let fuel := S (Z.to_nat (Z.log2 (Z.abs z))) in
  if (z <? 0)%Z then String "-" (digits_of fuel (- z) "")
  else digits_of fuel z "".

(** *** [GET /api/movies/:id] *)

Record external_links : Type := mkExternal {
  imdb : option string;
  tmdb : option string
}.

Record details : Type := mkDetails {
  d_movie : Movie.t;
  d_recentRatings : list Rating.t;
  d_tags : list string;
  d_links : option external_links
}.

Inductive details_response : Type :=
| Details400 (error : string)
| Details404 (error : string)
| Details200 (body : details)
| Details500.

(** Lines 139-142. *)
Definition links_view (links : option Link.t) : option external_links :=
  match links with
  | None => None
  | Some l =>
      Some (mkExternal
              (match Link.imdbId l with
               | Some i =>
                   if String.eqb i "" then None
                   else Some ("https://www.imdb.com/title/tt" ++ i ++ "/")%string
               | None => None
               end)
              (match Link.tmdbId l with
               | Some i =>
                   if (i =? 0)%Z then None
                   else Some ("https://www.themoviedb.org/movie/"
                              ++ string_of_Z i)%string
               | None => None
               end))
  end.

(** Line 106. *)
Definition ratingsLimit_of (q : option string) : Z :=
  Z.min (or_default (parseInt (query_value q)) 10) 100.

Definition movie_details (id : string) (q_ratingsLimit : option string)
  : M details_response :=
  r <- try_catch (
    let ratingsLimit := ratingsLimit_of q_ratingsLimit in
    match parseInt_string id with
    | None => ret (Details400 "Invalid movie ID")
    | Some movieId =>
    movie <- movies_findOne None (fun mv => Z.eqb (Movie.movieId mv) movieId) ;;
    match movie with
    | None => ret (Details404 "Movie not found")
    | Some movie =>
    recentRatings <-
      query None (fun s =>
        cursor_limit ratingsLimit
          (sort_by_timestamp_desc
             (filter (fun r => Z.eqb (Rating.movieId r) movieId) (ratings s)))) ;;
    tags <-
      query None (fun s =>
        cursor_limit 20
          (filter (fun t => Z.eqb (Tag.movieId t) movieId) (tags s))) ;;
    links <-
      query None (fun s =>
        find (fun l => Z.eqb (Link.movieId l) movieId) (links s)) ;;
    ret (Details200
           (mkDetails movie recentRatings (map Tag.tag tags) (links_view links)))
    end end) ;;
  match r with
  | Ok res => ret res
  | Throw _ => ret Details500
  end.

(** *** [GET /api/stats] *)

Record counts : Type := mkCounts {
  c_movies : nat;
  c_ratings : nat;
  c_tags : nat;
  c_users : nat
}.

Inductive stats_response : Type :=
| Stats200 (body : counts)
| Stats500.

(** [distinct('userId')] *)
Definition distinct_users (rs : list Rating.t) : list Z :=
  nodup Z.eq_dec (map Rating.userId rs).

(** The four reads of [Promise.all], one after the other. *)
Definition database_stats : M stats_response :=
  r <- try_catch (
    movieCount <- query None (fun s => List.length (movies s)) ;;
    ratingCount <- query None (fun s => List.length (ratings s)) ;;
    tagCount <- query None (fun s => List.length (tags s)) ;;
    userCount <-
      query None (fun s => List.length (distinct_users (ratings s))) ;;
    ret (Stats200 (mkCounts movieCount ratingCount tagCount userCount))) ;;
  match r with
  | Ok res => ret res
  | Throw _ => ret Stats500
  end.

(** Newest first. *)
Fixpoint newest_first (l : list Rating.t) : Prop :=
  match l with
  | [] => True
  | x :: r =>
      Forall (fun y => (Rating.timestamp y <= Rating.timestamp x)%Z) r
      /\ newest_first r
  end.

(** *** [GET /api/movies] *)

(** [s.trim()], on the ASCII white space. *)
Fixpoint trim_end (s : string) : string :=
  match s with
  | EmptyString => EmptyString
  | String c r =>
      match trim_end r with
      | EmptyString => if is_space c then EmptyString else String c EmptyString
      | r' => String c r'
      end
  end.

Definition trim (s : string) : string := trim_end (skip_space s).

(** A read that the server may reject. *)
Definition query_or_reject {A : Type} (f : store -> option A) : M A :=
  a <- query None f ;;
  match a with
  | Some x => ret x
  | None => fun w => (Throw StoreError, w)
  end.

(** [cursor.skip(n)]: the server rejects a negative [n]. *)
Definition cursor_skip {A : Type} (n : Z) (l : list A) : option (list A) :=
  if (n <? 0)%Z then None else Some (skipn (Z.to_nat n) l).

(** [{ averageRating: { $gte: x } }]: in the order of the store [NaN] is
    below every number. *)
Definition gte (a x : number) : bool :=
  match a with
  | NaN => false
  | _ => negb (num_lt a x)
  end.

Inductive sort_field : Type :=
| ByAverageRating
| ByRatingCount
| ByTitle
| ByYear.

(** Lines 58-59. *)
Definition sortField_of (sort : option string) : sort_field :=
  match sort with
  | None => ByAverageRating
  | Some s =>
      if String.eqb s "averageRating" then ByAverageRating
      else if String.eqb s "ratingCount" then ByRatingCount
      else if String.eqb s "title" then ByTitle
      else if String.eqb s "year" then ByYear
      else ByAverageRating
  end.

(** Line 60: [true] for 1, [false] for -1. *)
Definition ascending_order (order : option string) : bool :=
  match order with
  | Some s => String.eqb s "asc"
  | None => false
  end.

(** The order of the store on the values of a field: [NaN] below the
    numbers, [null] below the numbers, strings by their bytes. *)
Definition number_le (a b : number) : bool :=
  match a, b with
  | NaN, _ => true
  | _, NaN => false
  | _, _ => negb (num_lt b a)
  end.

Definition year_le (a b : option Z) : bool :=
  match a, b with
  | None, _ => true
  | Some _, None => false
  | Some x, Some y => (x <=? y)%Z
  end.

Definition field_le (f : sort_field) (a b : Movie.t) : bool :=
  match f with
  | ByAverageRating => number_le (Movie.averageRating a) (Movie.averageRating b)
  | ByRatingCount => (Movie.ratingCount a <=? Movie.ratingCount b)%nat
  | ByTitle => String.leb (Movie.title a) (Movie.title b)
  | ByYear => year_le (Movie.year a) (Movie.year b)
  end.

(** [.sort({ [field]: 1 or -1 })]; records of one value keep their store
    order. *)
Fixpoint insert_sorted (le : Movie.t -> Movie.t -> bool) (mv : Movie.t)
  (l : list Movie.t) : list Movie.t :=
  match l with
  | [] => [mv]
  | x :: t => if le mv x then mv :: l else x :: insert_sorted le mv t
  end.

Definition sort_movies (f : sort_field) (asc : bool) (l : list Movie.t)
  : list Movie.t :=
  fold_right
    (insert_sorted (if asc then field_le f else fun a b => field_le f b a)) [] l.

(** [req.query], each field a string or absent. *)
Record list_query : Type := mkListQuery {
  q_search : option string;
  q_genre : option string;
  q_minRating : option string;
  q_limit : option string;
  q_offset : option string;
  q_sort : option string;
  q_order : option string
}.

Record pagination : Type := mkPagination {
  p_total : nat;
  p_limit : Z;
  p_offset : Z;
  p_hasMore : bool
}.

Inductive list_response : Type :=
| List200 (movies : list Movie.t) (page : pagination)
| List500.

(** Line 36. *)
Definition limitNum_of (q : list_query) : Z :=
  Z.min (or_default (parseInt (with_default (q_limit q) (JNumber (Num 20%Q)))) 20)
    100.

(** Line 37. *)
Definition offsetNum_of (q : list_query) : Z :=
  or_default (parseInt (with_default (q_offset q) (JNumber (Num 0%Q)))) 0.

Section Listing.

(** What the document type leaves to the store: whether a title matches
    [{ $regex: pattern, $options: 'i' }], and whether the [genres] of a
    record hold a genre. *)
Variable regex_i : string -> string -> bool.
Variable has_genre : string -> Movie.t -> bool.

(** Lines 41-54: the filter, as the predicate it stands for. *)
Definition list_filter (q : list_query) (mv : Movie.t) : bool :=
  let minRatingNum := parseFloat (query_value (q_minRating q)) in
  match q_search q with
  | Some search =>
      if negb (String.eqb search "") && negb (String.eqb (trim search) "")
      then regex_i (trim search) (Movie.title mv)
      else true
  | None => true
  end
  && match q_genre q with
     | Some genre => if String.eqb genre "" then true else has_genre genre mv
     | None => true
     end
  && (if negb (isNaN minRatingNum) then gte (Movie.averageRating mv) minRatingNum
      else true).

Definition list_movies (q : list_query) : M list_response :=
  r <- try_catch (
    let limitNum := limitNum_of q in
    let offsetNum := offsetNum_of q in
    let filter_ := list_filter q in
    let sortField := sortField_of (q_sort q) in
    let asc := ascending_order (q_order q) in
    found <-
      query_or_reject (fun s =>
        option_map (cursor_limit limitNum)
          (cursor_skip offsetNum
             (sort_movies sortField asc (filter filter_ (movies s))))) ;;
    totalCount <- query None (fun s => List.length (filter filter_ (movies s))) ;;
    ret (List200 found
           (mkPagination totalCount limitNum offsetNum
              (offsetNum + limitNum <? Z.of_nat totalCount)%Z))) ;;
  match r with
  | Ok res => ret res
  | Throw _ => ret List500
  end.

End Listing.



(** ** [public/js/movie.js]: the rating form *)

(** [JSON.stringify] on a number, read back by [express.json()]: [NaN] and
    the infinities become [null]. *)
Definition json_number (x : number) : jsval :=
  match x with
  | Num q => JNumber (Num q)
  | _ => JNull
  end.

(** What [parseInt] returns as a number: the double nearest to the integer
    read, an infinity when it is too large for a double. *)
Definition number_of_int (z : option Z) : number :=
  match z with
  | Some n => num (inject_Z n)
  | None => NaN
  end.

(** The submit handler of the form: the request it sends, or nothing when
    it alerts 'Please fill in all fields'. *)
Definition form_submit (movieId userId_value rating_value : string)
  : option request :=
  let userId := number_of_int (parseInt (JString userId_value)) in
  let rating := parseFloat (JString rating_value) in
  if negb (truthy (JNumber userId)) || negb (truthy (JNumber rating)) then None
  else Some (mkRequest movieId (json_number userId) (json_number rating)).

(** ** [server/db/import.js] *)

Definition quote_char : ascii := ascii_of_nat 34.
Definition newline : ascii := ascii_of_nat 10.

(** [s.split(sep)] for a separator of one character. *)
Fixpoint split (sep : ascii) (s : string) : list string :=
  match s with
  | EmptyString => [EmptyString]
  | String c r =>
      if Ascii.eqb c sep then EmptyString :: split sep r
      else
        match split sep r with
        | h :: t => String c h :: t
        | [] => [String c EmptyString]
        end
  end.

(** The loop over the characters of a line, lines 36-47. *)
Fixpoint scan (line : string) (current : string) (inQuotes : bool)
  (values : list string) : list string :=
  match line with
  | EmptyString => values ++ [trim current]
  | String char r =>
      if Ascii.eqb char quote_char then scan r current (negb inQuotes) values
      else if Ascii.eqb char "," && negb inQuotes then
        scan r EmptyString inQuotes (values ++ [trim current])
      else scan r (current ++ String char EmptyString)%string inQuotes values
  end.

Definition parse_line (line : string) : list string :=
  scan line EmptyString false [].

(** An object with string keys, in the order of their first assignment. *)
Definition object : Type := list (string * string).

Fixpoint obj_put (k v : string) (o : object) : object :=
  match o with
  | [] => [(k, v)]
  | (k', v') :: t =>
      if String.eqb k' k then (k', v) :: t else (k', v') :: obj_put k v t
  end.

(** [obj[k] = v] for a string [v].  The key [__proto__] names the setter
    that every object inherits, and that setter ignores a string: nothing
    is stored under it. *)
Definition obj_set (k v : string) (o : object) : object :=
  if String.eqb k "__proto__" then o else obj_put k v o.

(** [obj[k]] for a key that the object holds itself, [None] for
    [undefined].  The keys that the import reads ([movieId], [title],
    [genres], [userId], [rating], [timestamp], [tag], [imdbId], [tmdbId])
    are found nowhere else; [__proto__] and the names of the methods that
    every object inherits are not read through this function. *)
Fixpoint obj_get (k : string) (o : object) : option string :=
  match o with
  | [] => None
  | (k', v) :: t => if String.eqb k' k then Some v else obj_get k t
  end.

(** Lines 50-53; [values[index] || ''] is [nth index values ''], the empty
    string being the only falsy string. *)
Fixpoint fill (headers : list string) (index : nat) (values : list string)
  (obj : object) : object :=
  match headers with
  | [] => obj
  | header :: r =>
      fill r (S index) values (obj_set header (nth index values EmptyString) obj)
  end.

Definition parseCSV (content : string) : list object :=
  let lines := split newline (trim content) in
  let headers := map trim (split "," (hd EmptyString lines)) in
  map (fun line => fill headers 0 (parse_line line) []) (tl lines).

(** A field of a row, as a value: [undefined] when the file has no such
    column. *)
Definition field (row : object) (k : string) : jsval :=
  query_value (obj_get k row).

(** Documents as the import builds them, before they are stored: an id is
    what [parseInt] gave, [None] for [NaN]. *)
Module ParsedMovie.
Record t : Type := mk {
  movieId : option Z;
  title : string;
  year : option Z;
  genres : list string;
  averageRating : number;
  ratingCount : nat
}.
End ParsedMovie.

Module ParsedRating.
Record t : Type := mk {
  userId : option Z;
  movieId : option Z;
  rating : number;
  timestamp : option Z
}.
End ParsedRating.

Definition is_digit (c : ascii) : bool :=
  match digit c with Some _ => true | None => false end.

(** [title.match(/\((\d{4})\)$/)] and [parseInt(yearMatch[1])]: the title
    ends with four digits in brackets. *)
Definition year_of_title (title : string) : option Z :=
  match rev (list_ascii_of_string title) with
  | ")"%char :: d4 :: d3 :: d2 :: d1 :: "("%char :: _ =>
      if is_digit d1 && is_digit d2 && is_digit d3 && is_digit d4 then
        parseInt_string (string_of_list_ascii [d1; d2; d3; d4])
      else None
  | _ => None
  end.

(** Line 74. *)
Definition genres_of (row : object) : list string :=
  match obj_get "genres" row with
  | Some g =>
      if String.eqb g "" then []
      else filter (fun g => negb (String.eqb g "(no genres listed)"))
             (split "|" g)
  | None => []
  end.

(** [parseMovies]; [None] is the [TypeError] of [row.title.match] when the
    file has no column [title]. *)
Fixpoint parseMovies (data : list object) : option (list ParsedMovie.t) :=
  match data with
  | [] => Some []
  | row :: r =>
      match obj_get "title" row with
      | None => None
      | Some title =>
          match parseMovies r with
          | None => None
          | Some movies =>
              Some (ParsedMovie.mk (parseInt (field row "movieId")) title
                      (year_of_title title) (genres_of row) (Num 0%Q) 0
                    :: movies)
          end
      end
  end.

Definition parseRatings (data : list object) : list ParsedRating.t :=
  map (fun row =>
         ParsedRating.mk (parseInt (field row "userId"))
           (parseInt (field row "movieId")) (parseFloat (field row "rating"))
           (parseInt (field row "timestamp")))
    data.

(** Keys of a [Map] are compared by SameValueZero: [NaN] is equal to
    itself. *)
Definition same_key (a b : option Z) : bool :=
  match a, b with
  | Some x, Some y => (x =? y)%Z
  | None, None => true
  | _, _ => false
  end.

(** [statsMap]: the sum and the count of each key, in the order in which
    the keys were set. *)
Definition stats_map : Type := list (option Z * (number * nat)).

Fixpoint stats_get (k : option Z) (m : stats_map) : option (number * nat) :=
  match m with
  | [] => None
  | (k', s) :: t => if same_key k' k then Some s else stats_get k t
  end.

(** Lines 160-167, one rating: the entry of its key is created at (0, 0)
    if it is missing, then updated in place. *)
Fixpoint stats_add (k : option Z) (x : number) (m : stats_map) : stats_map :=
  match m with
  | [] => [(k, (num_add (Num 0%Q) x, 1%nat))]
  | (k', (sum, count)) :: t =>
      if same_key k' k then (k', (num_add sum x, S count)) :: t
      else (k', (sum, count)) :: stats_add k x t
  end.

Definition statsMap_of (ratings : list ParsedRating.t) : stats_map :=
  fold_left
    (fun m r => stats_add (ParsedRating.movieId r) (ParsedRating.rating r) m)
    ratings [].

(** [calculateMovieStats]: the movies as the function leaves them. *)
Definition calculateMovieStats (movies : list ParsedMovie.t)
  (ratings : list ParsedRating.t) : list ParsedMovie.t :=
  let statsMap := statsMap_of ratings in
  map (fun movie =>
         match stats_get (ParsedMovie.movieId movie) statsMap with
         | Some (sum, count) =>
             ParsedMovie.mk (ParsedMovie.movieId movie) (ParsedMovie.title movie)
               (ParsedMovie.year movie) (ParsedMovie.genres movie)
               (num_div
                  (Math_round
                     (num_mul (num_div sum (of_length count)) (Num 100%Q)))
                  (Num 100%Q))
               count
         | None => movie
         end)
    movies.

(** [array.slice(start, end)] with [start] an integer and [end] a number,
    [None] for [NaN]. *)
Definition relative (n : nat) (k : Z) : nat :=
  if (k <? 0)%Z then Z.to_nat (Z.max (Z.of_nat n + k) 0)
  else Nat.min (Z.to_nat k) n.

Definition slice {A : Type} (l : list A) (start : Z) (end_ : option Z) : list A :=
  let n := List.length l in
  let from := relative n start in
  let to := match end_ with Some e => relative n e | None => O end in
  firstn (to - from) (skipn from l).

Definition add_opt (a b : option Z) : option Z :=
  match a, b with
  | Some x, Some y => Some (x + y)%Z
  | _, _ => None
  end.

(** How a loop of inserts ends: it ran to its end, an insert was rejected,
    or it was still running when the fuel ran out. *)
Inductive loop_end : Type :=
| Completed
| Rejected
| Unfinished.

(** Lines 218-223 and 233-238: the batches handed to [insertMany], which
    rejects an empty one.  [BATCH_SIZE] is what [parseInt] gave. *)
Fixpoint insert_in_batches {A : Type} (fuel : nat) (BATCH_SIZE : option Z)
  (data : list A) (i : option Z) : list (list A) * loop_end :=
  match fuel with
  | O => ([], Unfinished)
  | S f =>
      match i with
      | None => ([], Completed)
      | Some i =>
          if (i <? Z.of_nat (List.length data))%Z then
            match slice data i (add_opt (Some i) BATCH_SIZE) with
            | [] => ([], Rejected)
            | batch =>
                let (rest, e) :=
                  insert_in_batches f BATCH_SIZE data (add_opt (Some i) BATCH_SIZE)
                in (batch :: rest, e)
            end
          else ([], Completed)
      end
  end.

(** ** [server/db/update_summaries.js] *)

Definition BATCH_SIZE : nat := 500.

(** Lines 31-46: the batches handed to [bulkWrite]; [rest] is what is left
    of [summaries] from index [i] on. *)
Fixpoint update_in_batches {A : Type} (rest : list A) (batch : list A)
  : list (list A) :=
  match rest with
  | [] => []
  | summary :: r =>
      let batch := batch ++ [summary] in
      if (List.length batch =? BATCH_SIZE)%nat
         || match r with [] => true | _ => false end
      then batch :: update_in_batches r []
      else update_in_batches r batch
  end.

(** ** Notions used in the statements on the import *)

(** The document of [movies] that a movie of the import becomes, its id
    being the integer [m]. *)
Definition document (movie : ParsedMovie.t) (m : Z) : Movie.t :=
  Movie.mk m (ParsedMovie.title movie) (ParsedMovie.year movie)
    (ParsedMovie.averageRating movie) (ParsedMovie.ratingCount movie).

(** A year as the scripts are given it: four digits. *)
Definition is_year (year : string) : bool :=
  match list_ascii_of_string year with
  | [d1; d2; d3; d4] => is_digit d1 && is_digit d2 && is_digit d3 && is_digit d4
  | _ => false
  end.

Definition chars (s : string) : list ascii := list_ascii_of_string s.

(** A value as [parseCSV] gives it: no double quote in it, no white space
    around it. *)
Definition clean (v : string) : Prop :=
  ~ In quote_char (chars v) /\ trim v = v.


(** ** [server/db/connection.js] *)

Module Connection.

(** The two variables of the environment that the module reads. *)
Record environment : Type := mkEnvironment {
  FIRESTORE_HOST : option string;
  FIRESTORE_DATABASE : option string
}.

(** A [MongoClient], told from the others by the number of clients made
    before it, and a database handle of a client. *)
Record MongoClient : Type := mkClient {
  c_id : nat;
  c_uri : string
}.

Record Db : Type := mkDb {
  d_client : nat;
  d_name : string
}.

(** The state of the module: [client], [db], and how many clients were
    made so far. *)
Record state : Type := mkState {
  client : option MongoClient;
  db : option Db;
  made : nat
}.

Definition initial : state := mkState None None 0.

(** [v || d] on a variable of the environment. *)
Definition or_else (v : option string) (d : string) : string :=
  match v with
  | Some s => if String.eqb s "" then d else s
  | None => d
  end.

(** [getUri]; [None] when it throws. *)
Definition getUri (e : environment) : option string :=
  let database := or_else (FIRESTORE_DATABASE e) "cymbalflix-db" in
  match FIRESTORE_HOST e with
  | Some host =>
      if String.eqb host "" then None
      else
        Some ("mongodb://" ++ host ++ ":443/" ++ database
              ++ "?loadBalanced=true&tls=true&retryWrites=false"
              ++ "&authMechanism=MONGODB-OIDC"
              ++ "&authMechanismProperties=TOKEN_RESOURCE:FIRESTORE")%string
  | None => None
  end.

(** [connect]; [makes] and [connects] say whether [makeClient] gets its
    credentials and whether [client.connect()] succeeds.  [None] is a
    rejection. *)
Definition connect (e : environment) (makes connects : bool) (st : state)
  : option (MongoClient * Db) * state :=
  match client st, db st with
  | Some c, Some d => (Some (c, d), st)
  | _, _ =>
      match getUri e with
      | None => (None, st)
      | Some uri =>
          if negb makes then (None, st)
          else
            let c := mkClient (made st) uri in
            let st1 := mkState (Some c) (db st) (S (made st)) in
            if negb connects then (None, st1)
            else
              let d :=
                mkDb (c_id c) (or_else (FIRESTORE_DATABASE e) "cymbalflix-db") in
              (Some (c, d), mkState (Some c) (Some d) (S (made st)))
      end
  end.

(** [getDb]; [None] when it throws. *)
Definition getDb (st : state) : option Db := db st.

(** [close]; [closes] says whether [client.close()] succeeds, and the
    result whether the call did. *)
Definition close (closes : bool) (st : state) : bool * state :=
  match client st with
  | Some _ =>
      if closes then (true, mkState None None (made st)) else (false, st)
  | None => (true, st)
  end.

(** The calls a program makes on the module, with what happens outside. *)
Inductive call : Type :=
| Connect (makes connects : bool)
| GetDb
| Close (closes : bool).

Definition step (e : environment) (st : state) (c : call) : state :=
  match c with
  | Connect makes connects => snd (connect e makes connects st)
  | GetDb => st
  | Close closes => snd (close closes st)
  end.

Definition run (e : environment) (calls : list call) : state :=
  fold_left (step e) calls initial.

(** The database handle, if any, is one of the current client. *)
Definition consistent (st : state) : Prop :=
  match db st with
  | Some d =>
      exists c, client st = Some c /\ d_client d = c_id c
  | None => True
  end
  /\ match client st with
     | Some c => (c_id c < made st)%nat
     | None => True
     end.

End Connection.

(** * Properties *)

(** ** Rationals *)

Lemma Qneg_comp (p q : Q) : (p == q)%Q -> Qneg p = Qneg q.
Proof.
  unfold Qneg, Qeq. intros H.
  destruct (Z.ltb_spec (Qnum p) 0), (Z.ltb_spec (Qnum q) 0); trivial; nia.
Qed.

Lemma Qzero_length (n : nat) :
  Qzero (inject_Z (Z.of_nat n)) = false <-> n <> O.
Proof.
  unfold Qzero. simpl. rewrite Z.eqb_neq. lia.
Qed.

Lemma num_eq (p q : Q) : (p == q)%Q -> num p = num q.
Proof.
  intros H. unfold num.
  now rewrite (Qred_complete _ _ H), (Qneg_comp _ _ H).
Qed.

Lemma round_half_away_comp (p q : Q) :
  (p == q)%Q -> (round_half_away p == round_half_away q)%Q.
Proof.
  intros H. unfold round_half_away. rewrite (Qneg_comp _ _ H).
  assert (E : Qfloor (Qabs p * 100 + (1 # 2)) = Qfloor (Qabs q * 100 + (1 # 2))).
  { apply Qfloor_comp. now rewrite H. }
  rewrite E. reflexivity.
Qed.

Lemma Qsum_perm (l l' : list Q) : Permutation l l' -> (Qsum l == Qsum l')%Q.
Proof.
  induction 1; simpl.
  - reflexivity.
  - now rewrite IHPermutation.
  - ring.
  - now rewrite IHPermutation1.
Qed.

(** P1 of the specification: the aggregate depends on the multiset only. *)
Lemma computeAggregate_perm (l l' : list Q) :
  Permutation l l' -> computeAggregate l = computeAggregate l'.
Proof.
  intros H. pose proof (Permutation_length H) as L.
  pose proof (Qsum_perm _ _ H) as S.
  destruct l as [|a l], l' as [|a' l']; try discriminate; trivial.
  unfold computeAggregate. rewrite <- L. f_equal.
  apply num_eq, round_half_away_comp. now rewrite S.
Qed.

(** ** The recalculation of the handler *)

Lemma reduce_ratings_values (rs : list Rating.t) :
  reduce_ratings rs = fold_left num_add (map Rating.rating rs) (Num 0%Q).
Proof.
  unfold reduce_ratings. generalize (Num 0%Q).
  induction rs as [|r rs IH]; intros acc; simpl; [reflexivity | apply IH].
Qed.

(** It reads the values of the events, in their order, and nothing else. *)
Lemma recalculate_values (rs rs' : list Rating.t) :
  map Rating.rating rs = map Rating.rating rs' ->
  recalculate rs = recalculate rs'.
Proof.
  intros E. unfold recalculate. rewrite !reduce_ratings_values, E.
  rewrite <- (length_map Rating.rating rs), E, length_map. reflexivity.
Qed.

Lemma Permutation_three {A : Type} (a b c : A) (l : list A) :
  Permutation l [a; b; c] ->
  l = [a; b; c] \/ l = [a; c; b] \/ l = [b; a; c]
  \/ l = [b; c; a] \/ l = [c; a; b] \/ l = [c; b; a].
Proof.
  intros P. pose proof (Permutation_length P) as L.
  destruct l as [|x [|y [|z [|]]]]; try discriminate.
  assert (Hx : In x [a; b; c]) by (apply (Permutation_in _ P); now left).
  destruct Hx as [<-|[<-|[<-|[]]]].
  - apply Permutation_cons_inv, Permutation_sym, Permutation_length_2_inv in P.
    destruct P as [E|E]; injection E as <- <-; tauto.
  - assert (P' : Permutation (b :: [y; z]) (b :: [a; c]))
      by (apply (perm_trans P), perm_swap).
    apply Permutation_cons_inv, Permutation_sym, Permutation_length_2_inv in P'.
    destruct P' as [E|E]; injection E as <- <-; tauto.
  - assert (P' : Permutation (c :: [y; z]) (c :: [a; b]))
      by (apply (perm_trans P), Permutation_sym,
          (Permutation_cons_append [a; b] c)).
    apply Permutation_cons_inv, Permutation_sym, Permutation_length_2_inv in P'.
    destruct P' as [E|E]; injection E as <- <-; tauto.
Qed.

(** ** Runs of the driver *)

Lemma same_data_refl (w : world) : same_data w w.
Proof. repeat split; trivial. Qed.

Lemma bind_Ok {A B : Type} (c : M A) (k : A -> M B) w b w' :
  (x <- c ;; k x) w = (Ok b, w') ->
  exists a w1, c w = (Ok a, w1) /\ k a w1 = (Ok b, w').
Proof.
  unfold bind. destruct (c w) as [[a|e] w1]; intros H.
  - now exists a, w1.
  - discriminate.
Qed.

Lemma ret_Ok {A : Type} (a b : A) w w' :
  ret a w = (Ok b, w') -> a = b /\ w = w'.
Proof. unfold ret. intros H. now inversion H. Qed.

(** A branch that ends in another answer than the one at hand. *)
Ltac other_answer H :=
  let E := fresh "E" in apply ret_Ok in H as (E & _); discriminate.

Lemma tick_Ok w w' : tick w = (Ok tt, w') -> same_data w w'.
Proof.
  unfold tick, same_data. destruct w as [d t [[|n]|] o]; simpl; intros H;
    inversion H; subst; simpl; repeat split; trivial; discriminate.
Qed.

Lemma tick_nofault w : fuse w = None -> tick w = (Ok tt, w).
Proof. unfold tick. now intros ->. Qed.

Lemma query_Ok {A : Type} (f : store -> A) w a w' :
  query None f w = (Ok a, w') ->
  a = f (db w)
  /\ db w' = db w /\ txn w' = txn w /\ next_oid w' = next_oid w
  /\ (fuse w = None -> fuse w' = None).
Proof.
  unfold query. intros H. apply bind_Ok in H as ([] & w1 & Ht & H).
  apply tick_Ok in Ht. inversion H; subst. unfold view.
  destruct Ht as (Hd & Ht). split; [now rewrite Hd|].
  split; [exact Hd | exact Ht].
Qed.

Lemma submit_Ok (wrs : list write) w u w' :
  submit None wrs w = (Ok u, w') ->
  db w' = apply_writes wrs (db w) /\ txn w' = txn w
  /\ next_oid w' = next_oid w /\ (fuse w = None -> fuse w' = None).
Proof.
  unfold submit. intros H. apply bind_Ok in H as ([] & w1 & Ht & H).
  apply tick_Ok in Ht. destruct Ht as (Hd & Htx & Ho & Hf).
  inversion H; subst. simpl. rewrite Hd. tauto.
Qed.

Lemma insertOne_Ok (userId movieId : Z) (rating : number) (ts : Z) w r w' :
  ratings_insertOne None userId movieId rating ts w = (Ok r, w') ->
  r = Rating.mk (next_oid w) userId movieId rating ts
  /\ db w' = apply_write (InsertRating r) (db w) /\ txn w' = txn w
  /\ next_oid w' = N.succ (next_oid w)
  /\ (fuse w = None -> fuse w' = None).
Proof.
  unfold ratings_insertOne. intros H.
  apply bind_Ok in H as ([] & w1 & Hs & H). apply ret_Ok in H as (<- & <-).
  apply submit_Ok in Hs. simpl in Hs. tauto.
Qed.

Lemma try_catch_run {A : Type} (c : M A) w r w' :
  try_catch c w = (r, w') -> exists r0, r = Ok r0 /\ c w = (r0, w').
Proof.
  unfold try_catch. destruct (c w) as [r0 w1]. intros H. inversion H; subst.
  now exists r0.
Qed.

(** ** Rating submission *)

(** The values the handler accepts. *)
Lemma in_range (x : number) :
  isNaN x = false ->
  num_lt x (Num (1 # 2)) || num_gt x (Num 5%Q) = false ->
  exists q, x = Num q /\ ((1 # 2) <= q)%Q /\ (q <= 5)%Q.
Proof.
  destruct x as [|[]|q]; simpl; try discriminate.
  intros _ H. apply orb_false_elim in H as (H1 & H2).
  exists q. split; [reflexivity|]. unfold num_gt, num_lt in *.
  split.
  - destruct (q ?= 1 # 2)%Q eqn:C; try discriminate;
      [apply Qeq_alt in C; rewrite C; apply Qle_refl
      | apply Qgt_alt in C; now apply Qlt_le_weak].
  - destruct (5 ?= q)%Q eqn:C; try discriminate;
      [apply Qeq_alt in C; rewrite <- C; apply Qle_refl
      | apply Qgt_alt in C; now apply Qlt_le_weak].
Qed.

(** What a successful submission did. *)
Lemma rate_201 (now : Z) (req : request) w r u w' :
  rate now req w = (Ok (Status201 r u), w') ->
  exists m uid q,
    parseInt_string (params_id req) = Some m
    /\ parseInt (body_userId req) = Some uid
    /\ parseFloat (body_rating req) = Num q
    /\ ((1 # 2) <= q)%Q /\ (q <= 5)%Q
    /\ entity (db w) m <> None
    /\ r = Rating.mk (next_oid w) uid m (Num q) (now / 1000)%Z
    /\ ratings (db w') = ratings (db w) ++ [r]
    /\ (u_averageRating u, u_ratingCount u) = recalculate (bound (db w') m)
    /\ u_movieId u = m
    /\ movies (db w')
       = update_first (fun mv => Z.eqb (Movie.movieId mv) m)
           (set_stats (u_averageRating u) (u_ratingCount u)) (movies (db w))
    /\ tags (db w') = tags (db w) /\ links (db w') = links (db w).
Proof.
  unfold rate. intros H.
  apply bind_Ok in H as (r0 & w1 & Hb & H).
  apply try_catch_run in Hb as (r1 & E & Hb). injection E as <-.
  destruct r0 as [res|e]; apply ret_Ok in H as (E & <-); [subst res | discriminate].
  destruct (parseInt_string (params_id req)) as [m|] eqn:Hm;
    [| other_answer Hb].
  destruct (truthy (body_userId req)) eqn:Htu;
    [| other_answer Hb].
  destruct (parseInt (body_userId req)) as [uid|] eqn:Hu;
    [| other_answer Hb].
  destruct (negb (truthy (body_rating req)) || isNaN (parseFloat (body_rating req))) eqn:Hv;
    [other_answer Hb |].
  destruct (num_lt (parseFloat (body_rating req)) (Num (1 # 2))
            || num_gt (parseFloat (body_rating req)) (Num 5)) eqn:Hr;
    [other_answer Hb |].
  apply orb_false_elim in Hv as (_ & Hnan).
  destruct (in_range _ Hnan Hr) as (q & Hq & Hlo & Hhi).
  apply bind_Ok in Hb as (movie & w2 & Hfind & Hb).
  apply query_Ok in Hfind as (Hmovie & S2).
  destruct movie as [mv|]; [| other_answer Hb].
  apply bind_Ok in Hb as (newRating & w3 & Hins & Hb).
  apply insertOne_Ok in Hins as (Hnew & D3 & T3 & O3 & F3).
  apply bind_Ok in Hb as (allRatings & w4 & Hall & Hb).
  apply query_Ok in Hall as (Hall & S4).
  destruct (recalculate allRatings) as [avg cnt] eqn:Hrec.
  apply bind_Ok in Hb as ([] & w5 & Hupd & Hb).
  apply submit_Ok in Hupd as (D5 & T5 & O5 & F5).
  apply ret_Ok in Hb as (E & <-). injection E as <- <-.
  destruct S2 as (D2 & T2 & O2 & F2), S4 as (D4 & T4 & O4 & F4).
  assert (Dw : db w5
               = mkStore
                   (update_first (fun mv => Z.eqb (Movie.movieId mv) m)
                      (set_stats avg cnt) (movies (db w)))
                   (ratings (db w) ++ [newRating]) (tags (db w)) (links (db w))).
  { rewrite D5, D4, D3, D2. reflexivity. }
  exists m, uid, q. rewrite Hq in Hnew. rewrite O2 in Hnew.
  unfold entity, bound. rewrite <- Hmovie, Dw. simpl.
  rewrite Hall, D3, D2 in Hrec. simpl in Hrec. rewrite Hrec.
  repeat split; trivial; discriminate.
Qed.

Lemma find_update_first_same {A : Type} (p : A -> bool) (f : A -> A) l :
  (forall x, p (f x) = p x) ->
  find p (update_first p f l) = option_map f (find p l).
Proof.
  intros Hf. induction l as [|x l IH]; simpl; [reflexivity|].
  destruct (p x) eqn:E; simpl.
  - now rewrite Hf, E.
  - now rewrite E.
Qed.

Lemma find_update_first_other {A : Type} (p p' : A -> bool) (f : A -> A) l :
  (forall x, p (f x) = p x) ->
  (forall x, p' x = true -> p x = false) ->
  find p (update_first p' f l) = find p l.
Proof.
  intros Hf Hd. induction l as [|x l IH]; simpl; [reflexivity|].
  destruct (p' x) eqn:E; simpl.
  - now rewrite Hf, (Hd x E).
  - now rewrite IH.
Qed.

Lemma map_Num_inj (l l' : list Q) : map Num l = map Num l' -> l = l'.
Proof.
  revert l'. induction l as [|q l IH]; intros [|q' l'] E; try discriminate.
  - reflexivity.
  - simpl in E. injection E as -> E. f_equal. now apply IH.
Qed.

(** A successful submission against [m] leaves the record of [m] up to
    date. *)
Lemma rate_updates (now : Z) (req : request) w r u w' :
  rate now req w = (Ok (Status201 r u), w') ->
  forall m, target req = Some m -> up_to_date (db w') m.
Proof.
  intros H m Hm.
  apply rate_201 in H
    as (m0 & uid & q & Hm0 & _ & _ & _ & _ & He & _ & _ & Hst & _ & Hmv & _).
  unfold target in Hm. rewrite Hm in Hm0. injection Hm0 as <-.
  destruct (entity (db w) m) as [mv|] eqn:Hent; [|contradiction].
  exists (set_stats (u_averageRating u) (u_ratingCount u) mv). split.
  - unfold entity in *. rewrite Hmv, find_update_first_same, Hent; trivial.
  - unfold stats. simpl. exact Hst.
Qed.

(** A successful submission against another entity leaves the events and
    the record of [m] as they are. *)
Lemma rate_preserves (now : Z) (req : request) w r u w' :
  rate now req w = (Ok (Status201 r u), w') ->
  forall m, target req <> Some m ->
  bound (db w') m = bound (db w) m /\ entity (db w') m = entity (db w) m.
Proof.
  intros H m Hm.
  apply rate_201 in H
    as (m0 & uid & q & Hm0 & _ & _ & _ & _ & _ & Hr & Hrs & _ & _ & Hmv & _).
  assert (Hne : Z.eqb m0 m = false).
  { apply Z.eqb_neq. intros ->. now apply Hm. }
  split.
  - unfold bound. rewrite Hrs, filter_app. simpl. rewrite Hr at 1. simpl.
    rewrite Hne. apply app_nil_r.
  - unfold entity. rewrite Hmv. apply find_update_first_other; trivial.
    intros x Hx. apply Z.eqb_eq in Hx. now rewrite Hx.
Qed.

(** After calls handled one after the other, all of them successful, the
    record of an entity is up to date as soon as it was before the calls or
    one of the calls was against that entity: it is never stale and never
    partially updated. *)
Lemma sequential_submissions_keep_up_to_date (m : Z)
  (calls : list (Z * request)) :
  forall w responses w',
    rate_all calls w = (Ok responses, w') ->
    Forall created responses ->
    up_to_date (db w) m
    \/ Exists (fun call => target (snd call) = Some m) calls ->
    up_to_date (db w') m.
Proof.
  induction calls as [|[now req] calls IH]; intros w responses w' Hrun Hok Hi.
  - apply ret_Ok in Hrun as (_ & <-).
    destruct Hi as [Hi|Hi]; [exact Hi | inversion Hi].
  - simpl in Hrun.
    apply bind_Ok in Hrun as (res & w1 & Hrate & Hrun).
    apply bind_Ok in Hrun as (others & w2 & Hrest & Hrun).
    apply ret_Ok in Hrun as (<- & <-).
    inversion Hok as [|? ? Hres Hothers]; subst.
    destruct res as [| |r u|]; try contradiction.
    assert (Hdec : target req = Some m \/ target req <> Some m).
    { destruct (target req) as [m0|]; [|right; discriminate].
      destruct (Z.eq_dec m0 m) as [->|Hne]; [now left | right; congruence]. }
    destruct Hdec as [Ht|Ht].
    + apply (IH w1 others w2 Hrest Hothers). left.
      now apply (rate_updates _ _ _ _ _ _ Hrate).
    + destruct (rate_preserves _ _ _ _ _ _ Hrate m Ht) as (Hb & He).
      apply (IH w1 others w2 Hrest Hothers).
      destruct Hi as [(mv & Hmv & Hst)|Hi].
      * left. exists mv. now rewrite He, Hb.
      * right. inversion Hi; subst; [contradiction | assumption].
Qed.

(** C4.  One submission is enough to break I1.  Entity 30 holds seventeen
    ratings of 0.5 and two of 1.0, and its record their aggregate.  A third
    rating of 1.0 is answered 201.  The mean of the twenty values is 0.575
    and their aggregate 0.58, but the record holds 0.57: the handler
    divides 11.5 by 20 in binary floating point, which gives a number below
    0.575, and [Math.round] takes its hundredfold, below 57.5, down to 57.
    The record is up to date all the same: it holds what the handler
    computes from exactly the twenty events. *)
Theorem submission_misrounds_the_mean :
  let w' := snd (rate_all [call_F] world_F) in
  I1 (db world_F) 30
  /\ (exists r,
        fst (rate_all [call_F] world_F)
        = Ok [Status201 r (mkUpdated 30 (num (57 # 100)) 20)])
  /\ computeAggregate (values_F ++ [1]%Q) = (num (58 # 100), 20%nat)
  /\ up_to_date (db w') 30
  /\ ~ I1 (db w') 30.
Proof.
  intros w'.
  assert (He : entity (db w') 30
               = Some (Movie.mk 30 "Tie (2001)" (Some 2001%Z) (num (57 # 100)) 20))
    by (vm_compute; reflexivity).
  assert (Hb : map Rating.rating (bound (db w') 30)
               = map Num (values_F ++ [1]%Q))
    by (vm_compute; reflexivity).
  split.
  { eexists. exists values_F. repeat split; vm_compute; reflexivity. }
  split; [eexists; vm_compute; reflexivity|].
  split; [vm_compute; reflexivity|].
  split.
  { eexists. split; [exact He | vm_compute; reflexivity]. }
  intros (mv & values & Hmv & Hv & Hs).
  rewrite Hb in Hv. apply map_Num_inj in Hv. subst values.
  rewrite He in Hmv. injection Hmv as <-.
  revert Hs. vm_compute. discriminate.
Qed.

Lemma outside_rejected (x : number) :
  outside x ->
  isNaN x || (num_lt x (Num (1 # 2)) || num_gt x (Num 5%Q)) = true.
Proof.
  destruct x as [|[]|q]; try reflexivity.
  unfold outside, isNaN, num_gt, num_lt. intros [H|H].
  - assert (C : (q ?= 1 # 2)%Q = Lt) by (now apply Qlt_alt).
    now rewrite C.
  - assert (C : (5 ?= q)%Q = Lt) by (now apply Qlt_alt).
    rewrite C. apply orb_true_r.
Qed.

(** C3, as the handler has it.  A call is answered 400 whenever the rater
    is missing (absent, null, false, 0, empty) or reads as no integer, or
    the value is missing, reads as no number or lies off the closed interval
    from 0.5 to 5.0; the world is then what it was: no operation was sent to
    the store, and no rating event was written. *)
Theorem invalid_input_rejected (now : Z) (req : request) (w : world) :
  truthy (body_userId req) = false
  \/ parseInt (body_userId req) = None
  \/ truthy (body_rating req) = false
  \/ outside (parseFloat (body_rating req)) ->
  exists msg, rate now req w = (Ok (Status400 msg), w).
Proof.
  intros H. unfold rate, bind, try_catch.
  destruct (parseInt_string (params_id req)) as [m|]; [|eexists; reflexivity].
  destruct (truthy (body_userId req)) eqn:Htu; [|eexists; reflexivity].
  destruct (parseInt (body_userId req)) as [uid|] eqn:Hu; [|eexists; reflexivity].
  destruct (truthy (body_rating req)) eqn:Htr; [|eexists; reflexivity].
  destruct H as [H|[H|[H|H]]]; try discriminate.
  apply outside_rejected in H. simpl.
  destruct (isNaN (parseFloat (body_rating req))); [eexists; reflexivity|].
  simpl in H. rewrite H. eexists; reflexivity.
Qed.

(** With no fault injected, a well-formed call against an existing entity
    is answered 201. *)
Lemma rate_accepts (now : Z) (req : request) (w : world) (m uid : Z) (q : Q) :
  fuse w = None ->
  target req = Some m ->
  truthy (body_userId req) = true ->
  parseInt (body_userId req) = Some uid ->
  truthy (body_rating req) = true ->
  parseFloat (body_rating req) = Num q ->
  ((1 # 2) <= q)%Q -> (q <= 5)%Q ->
  entity (db w) m <> None ->
  exists r u w', rate now req w = (Ok (Status201 r u), w').
Proof.
  intros Hf Hm Htu Hu Htr Hq Hlo Hhi He.
  destruct w as [d t f o]. simpl in Hf, He. subst f.
  unfold target in Hm. unfold entity in He.
  unfold rate, bind, try_catch. rewrite Hm, Htu, Hu, Htr, Hq.
  cbn [negb isNaN orb].
  assert (R : num_lt (Num q) (Num (1 # 2)) || num_gt (Num q) (Num 5%Q) = false).
  { unfold num_gt, num_lt. apply orb_false_intro.
    - destruct (q ?= 1 # 2)%Q eqn:C; trivial.
      apply Qlt_alt in C. now apply Qle_not_lt in Hlo.
    - destruct (5 ?= q)%Q eqn:C; trivial.
      apply Qlt_alt in C. now apply Qle_not_lt in Hhi. }
  rewrite R.
  unfold movies_findOne, query, bind, tick. simpl.
  destruct (find (fun mv => (Movie.movieId mv =? m)%Z) (movies d));
    [|contradiction].
  unfold ratings_insertOne, submit, ratings_find, query, bind, tick. simpl.
  do 3 eexists. reflexivity.
Qed.

Lemma entity_after_rate (now : Z) (req : request) w r u w' :
  rate now req w = (Ok (Status201 r u), w') ->
  entity (db w') (u_movieId u)
  = option_map (set_stats (u_averageRating u) (u_ratingCount u))
      (entity (db w) (u_movieId u)).
Proof.
  intros H.
  apply rate_201 in H
    as (m & uid & q & _ & _ & _ & _ & _ & _ & _ & _ & _ & -> & Hmv & _).
  unfold entity. rewrite Hmv. now apply find_update_first_same.
Qed.

(** C8, scenario A.  An entity whose bound rating events carry the values
    4.0, 5.0 and 3.0, in any order, receives the value 4.5 from rater 9: the
    call is answered 201 with count 4 and average 4.13, and the record of
    the entity holds that pair.  The sum 16.5, the mean 4.125 and its
    hundredfold 412.5 are doubles, whatever the order of the values; 4.13
    is the double nearest to 413/100. *)
Theorem scenario_A (now : Z) (id : string) (m : Z) (w : world) :
  fuse w = None ->
  parseInt_string id = Some m ->
  entity (db w) m <> None ->
  Permutation (map Rating.rating (bound (db w) m))
    [Num 4%Q; Num 5%Q; Num 3%Q] ->
  exists r w' mv,
    rate now (mkRequest id (JNumber (Num 9%Q)) (JNumber (Num (9 # 2)))) w
    = (Ok (Status201 r (mkUpdated m (num (413 # 100)) 4)), w')
    /\ entity (db w') m = Some mv
    /\ stats mv = (num (413 # 100), 4%nat).
Proof.
  intros Hf Hid He Hp.
  set (req := mkRequest id (JNumber (Num 9%Q)) (JNumber (Num (9 # 2)))).
  destruct (rate_accepts now req w m 9 (9 # 2)) as (r & u & w' & Hrate);
    trivial; try discriminate.
  destruct (rate_updates _ _ _ _ _ _ Hrate m Hid) as (mv & Hent & Hmv).
  apply rate_201 in Hrate as Hrun.
  destruct Hrun
    as (m0 & uid & q & Hm0 & _ & Hq & _ & _ & _ & Hr & Hrs & Hst & Hu & _).
  change (parseInt_string (params_id req)) with (parseInt_string id) in Hm0.
  rewrite Hid in Hm0. injection Hm0 as <-.
  simpl in Hq. injection Hq as <-.
  assert (Hb : map Rating.rating (bound (db w') m)
               = map Rating.rating
                   (map (fun x => Rating.mk 0 0 0 x 0)
                      (map Rating.rating (bound (db w) m) ++ [Num (9 # 2)]))).
  { unfold bound. rewrite Hrs, filter_app. simpl. rewrite Hr at 1. simpl.
    rewrite Z.eqb_refl, map_app, map_map. simpl. rewrite map_id, Hr.
    reflexivity. }
  assert (Hvalue : recalculate (bound (db w') m) = (num (413 # 100), 4%nat)).
  { rewrite (recalculate_values _ _ Hb).
    destruct (Permutation_three _ _ _ _ Hp) as [E|[E|[E|[E|[E|E]]]]];
      rewrite E; vm_compute; reflexivity. }
  rewrite Hvalue in Hst, Hmv.
  exists r, w', mv. destruct u as [um ua uc]. simpl in *.
  injection Hst as -> ->. subst um.
  split; [exact Hrate|]. split; [exact Hent | exact Hmv].
Qed.

(** The handler has no guard for an empty set, the merge has one. *)
Lemma recalculate_empty :
  recalculate [] = (NaN, 0%nat) /\ merge_recalculate [] = (Num 0%Q, 0%nat).
Proof. split; reflexivity. Qed.

(** Lines 201-206 on their own: whatever follows, the set read back after
    the insert contains the event inserted. *)
Lemma read_after_insert (userId movieId : Z) (value : number) (ts : Z)
  w newRating allRatings w' :
  (r <- ratings_insertOne None userId movieId value ts ;;
   l <- ratings_find None (fun x => Z.eqb (Rating.movieId x) movieId) ;;
   ret (r, l)) w = (Ok (newRating, allRatings), w') ->
  In newRating allRatings.
Proof.
  intros H.
  apply bind_Ok in H as (r & w1 & Hins & H).
  apply insertOne_Ok in Hins as (Hr & D1 & _).
  apply bind_Ok in H as (l & w2 & Hfind & H).
  apply query_Ok in Hfind as (Hl & _).
  apply ret_Ok in H as (E & _). injection E as <- <-.
  rewrite Hl, D1. apply filter_In. split.
  - simpl. apply in_or_app. right. now left.
  - rewrite Hr. simpl. apply Z.eqb_refl.
Qed.

(** A handler that runs alone to its end: in a submission answered 201 the
    set read back after the insert contains the rating event just inserted,
    and the count by which the handler divides is at least 1. *)
Lemma read_back_not_empty (now : Z) (req : request) w r u w' :
  rate now req w = (Ok (Status201 r u), w') ->
  let allRatings := bound (db w') (u_movieId u) in
  In r allRatings
  /\ (u_averageRating u, u_ratingCount u) = recalculate allRatings
  /\ (1 <= List.length allRatings)%nat
  /\ Qzero (inject_Z (Z.of_nat (List.length allRatings))) = false.
Proof.
  intros H allRatings.
  apply rate_201 in H
    as (m & uid & q & _ & _ & _ & _ & _ & _ & Hr & Hrs & Hst & Hu & _).
  subst allRatings. rewrite Hu.
  assert (Hin : In r (bound (db w') m)).
  { unfold bound. apply filter_In. split.
    - rewrite Hrs. apply in_or_app. right. now left.
    - rewrite Hr. simpl. apply Z.eqb_refl. }
  assert (Hlen : (1 <= List.length (bound (db w') m))%nat).
  { destruct (bound (db w') m); [contradiction | simpl; lia]. }
  repeat split; trivial.
  apply Qzero_length. lia.
Qed.

(** ** Merge *)

Lemma withTransaction_Ok {A : Type} (s : session) (c : M A) w a w' :
  withTransaction s c w = (Ok a, w') ->
  exists w1,
    c (mkWorld (db w) (Some []) (fuse w) (next_oid w)) = (Ok a, w1)
    /\ w' = mkWorld
              (apply_writes (match txn w1 with Some l => l | None => [] end)
                 (db w1))
              None (fuse w1) (next_oid w1).
Proof.
  unfold withTransaction.
  destruct (c _) as [[a1|e] w1]; intros H; inversion H; subst.
  now exists w1.
Qed.

Lemma merge_callback_Ok (primary : Movie.t) (dups : list Z) w k a c w' :
  merge_callback primary dups w = (Ok (k, a, c), w') ->
  forall p, p = Movie.movieId primary ->
  k = List.length (to_move (db w) dups)
  /\ (a, c) = merge_recalculate (bound (reassigned (db w) p dups) p)
  /\ db w' = merged (db w) p dups
  /\ txn w' = txn w /\ next_oid w' = next_oid w
  /\ (fuse w = None -> fuse w' = None).
Proof.
  unfold merge_callback. intros H p ->. set (p := Movie.movieId primary) in *.
  apply bind_Ok in H as (ratingsToMove & w1 & Hfind & H).
  apply query_Ok in Hfind as (Hmove & D1 & T1 & O1 & F1).
  fold (to_move (db w) dups) in Hmove.
  apply bind_Ok in H as ([] & w2 & Hbulk & H).
  assert (S2 : db w2 = reassigned (db w) p dups /\ txn w2 = txn w
               /\ next_oid w2 = next_oid w /\ (fuse w = None -> fuse w2 = None)).
  { unfold reassigned. rewrite <- Hmove.
    destruct (0 <? List.length ratingsToMove)%nat.
    - apply submit_Ok in Hbulk as (D2 & T2 & O2 & F2).
      rewrite D2, D1, T2, T1, O2, O1. tauto.
    - apply ret_Ok in Hbulk as (_ & <-). tauto. }
  destruct S2 as (D2 & T2 & O2 & F2).
  apply bind_Ok in H as (allRatings & w3 & Hall & H).
  apply query_Ok in Hall as (Hall & D3 & T3 & O3 & F3).
  rewrite D2 in Hall. fold (bound (reassigned (db w) p dups) p) in Hall.
  unfold merged. rewrite <- Hall.
  destruct (merge_recalculate allRatings) as [avg cnt].
  apply bind_Ok in H as ([] & w4 & Hupd & H).
  apply submit_Ok in Hupd as (D4 & T4 & O4 & F4).
  apply bind_Ok in H as ([] & w5 & Hdel & H).
  apply submit_Ok in Hdel as (D5 & T5 & O5 & F5).
  apply ret_Ok in H as (E & <-). injection E as <- <- <-.
  rewrite Hmove, D5, D4, D3, D2, T5, T4, T3, T2, O5, O4, O3, O2.
  repeat split; trivial. tauto.
Qed.

(** What a committed merge did. *)
Lemma merge_Merged (t y : option string) w p dups k a c w' :
  mergeDuplicates t y w = (Ok (Merged p dups k a c), w') ->
  exists title year primary duplicates,
    t = Some title /\ y = Some year
    /\ title <> ""%string /\ year <> ""%string
    /\ group (db w) title year = primary :: duplicates
    /\ duplicates <> []
    /\ p = Movie.movieId primary
    /\ dups = map Movie.movieId duplicates
    /\ k = List.length (to_move (db w) dups)
    /\ (a, c) = merge_recalculate (bound (reassigned (db w) p dups) p)
    /\ db w' = merged (db w) p dups
    /\ txn w' = None /\ next_oid w' = next_oid w
    /\ (fuse w = None -> fuse w' = None).
Proof.
  unfold mergeDuplicates. intros H.
  destruct t as [title|]; [|other_answer H].
  destruct y as [year|]; [|other_answer H].
  destruct (String.eqb_spec title ""); [other_answer H|].
  destruct (String.eqb_spec year ""); [other_answer H|].
  simpl in H.
  apply bind_Ok in H as (movies & w1 & Hloc & H).
  apply query_Ok in Hloc as (Hgroup & D1 & T1 & O1 & F1).
  fold (group (db w) title year) in Hgroup.
  destruct (List.length movies <? 2)%nat eqn:Hlen;
    [other_answer H|].
  destruct movies as [|primary duplicates];
    [other_answer H|].
  apply bind_Ok in H as (s & w2 & Hs & H). apply ret_Ok in Hs as (_ & <-).
  apply bind_Ok in H as (r & w3 & Htry & H).
  apply try_catch_run in Htry as (r0 & E & Htx). injection E as <-.
  apply bind_Ok in H as ([] & w4 & Hend & H). apply ret_Ok in Hend as (_ & <-).
  destruct r as [[[moved avg] cnt]|e];
    [|other_answer H].
  apply ret_Ok in H as (E & <-). injection E as <- <- <- <- <-.
  apply withTransaction_Ok in Htx as (w4 & Hcb & ->).
  apply (fun H => merge_callback_Ok _ _ _ _ _ _ _ H _ eq_refl) in Hcb
    as (Hk & Hac & D4 & T4 & O4 & F4).
  simpl in *. rewrite T4, D4, D1, O4, O1. simpl.
  exists title, year, primary, duplicates.
  repeat split; trivial.
  - now symmetry.
  - intros ->. discriminate.
  - now rewrite <- D1.
  - now rewrite <- D1.
  - intros Hf. apply F4, F1, Hf.
Qed.

(** *** What no write touches *)

Lemma apply_write_frame (wr : write) (s : store) :
  tags (apply_write wr s) = tags s /\ links (apply_write wr s) = links s.
Proof. now destruct wr. Qed.

Lemma apply_writes_frame (log : list write) (s : store) :
  tags (apply_writes log s) = tags s /\ links (apply_writes log s) = links s.
Proof.
  unfold apply_writes. revert s. induction log as [|wr log IH]; intros s; simpl.
  - now split.
  - destruct (IH (apply_write wr s)) as (-> & ->). apply apply_write_frame.
Qed.

Lemma keeps_ret {A : Type} (a : A) : keeps_tags_links (ret a).
Proof. intros w r w' H. inversion H; subst. now split. Qed.

Lemma keeps_bind {A B : Type} (c : M A) (k : A -> M B) :
  keeps_tags_links c -> (forall a, keeps_tags_links (k a)) ->
  keeps_tags_links (x <- c ;; k x).
Proof.
  intros Hc Hk w r w' H. unfold bind in H.
  destruct (c w) as [[a|e] w1] eqn:E.
  - destruct (Hc _ _ _ E) as (<- & <-). exact (Hk a _ _ _ H).
  - inversion H; subst. exact (Hc _ _ _ E).
Qed.

Lemma keeps_tick : keeps_tags_links tick.
Proof.
  intros [d t [[|n]|] o] r w' H; inversion H; subst; now split.
Qed.

Lemma keeps_query {A : Type} (opts : option session) (f : store -> A) :
  keeps_tags_links (query opts f).
Proof.
  apply keeps_bind; [exact keeps_tick|].
  intros _ w r w' H. inversion H; subst. now split.
Qed.

Lemma keeps_submit (opts : option session) (wrs : list write) :
  keeps_tags_links (submit opts wrs).
Proof.
  apply keeps_bind; [exact keeps_tick|].
  intros _ w r w' H.
  destruct opts as [s|], (txn w) as [log|]; inversion H; subst; simpl;
    try (now split); apply apply_writes_frame.
Qed.

Create HintDb keeps.
#[local] Hint Resolve keeps_ret keeps_tick keeps_query keeps_submit : keeps.

Lemma keeps_try_catch {A : Type} (c : M A) :
  keeps_tags_links c -> keeps_tags_links (try_catch c).
Proof.
  intros Hc w r w' H. apply try_catch_run in H as (r0 & _ & H).
  exact (Hc _ _ _ H).
Qed.

Lemma keeps_withTransaction {A : Type} (s : session) (c : M A) :
  keeps_tags_links c -> keeps_tags_links (withTransaction s c).
Proof.
  intros Hc w r w' H. unfold withTransaction in H.
  destruct (c _) as [[a|e] w1] eqn:E; inversion H; subst; simpl;
    destruct (Hc _ _ _ E) as (Ht & Hl); simpl in Ht, Hl.
  - destruct (apply_writes_frame
                (match txn w1 with Some l => l | None => [] end) (db w1))
      as (-> & ->).
    now split.
  - now split.
Qed.

Lemma keeps_merge_callback (primary : Movie.t) (dups : list Z) :
  keeps_tags_links (merge_callback primary dups).
Proof.
  unfold merge_callback, ratings_find, ratings_bulkWrite, movies_updateOne,
    movies_deleteMany.
  apply keeps_bind; [auto with keeps | intros ratingsToMove].
  apply keeps_bind; [destruct (0 <? _)%nat; auto with keeps | intros _].
  apply keeps_bind; [auto with keeps | intros allRatings].
  destruct (merge_recalculate allRatings) as [avg cnt].
  repeat (apply keeps_bind; [auto with keeps | intros _]).
  auto with keeps.
Qed.

Lemma keeps_mergeDuplicates (t y : option string) :
  keeps_tags_links (mergeDuplicates t y).
Proof.
  unfold mergeDuplicates, locate, movies_find_sorted, startSession, endSession.
  destruct t as [title|]; [|auto with keeps].
  destruct y as [year|]; [|auto with keeps].
  destruct (_ || _); [auto with keeps|].
  apply keeps_bind; [auto with keeps | intros movies].
  destruct (_ <? _)%nat; [auto with keeps|].
  destruct movies as [|primary duplicates]; [auto with keeps|].
  apply keeps_bind; [auto with keeps | intros s].
  apply keeps_bind.
  { apply keeps_try_catch, keeps_withTransaction, keeps_merge_callback. }
  intros r. apply keeps_bind; [auto with keeps | intros _].
  destruct r as [[[moved avg] cnt]|e]; auto with keeps.
Qed.

(** *** The collections after a merge *)

Lemma rebind_movies (p : Z) (rs : list Rating.t) (s : store) :
  movies
    (apply_writes (map (fun r => SetRatingMovieId (Rating._id r) p) rs) s)
  = movies s.
Proof.
  unfold apply_writes. revert s. induction rs as [|r rs IH]; intros s; simpl.
  - reflexivity.
  - now rewrite IH.
Qed.

Lemma reassigned_movies (s : store) (p : Z) (dups : list Z) :
  movies (reassigned s p dups) = movies s.
Proof.
  unfold reassigned. destruct (0 <? _)%nat; [apply rebind_movies | reflexivity].
Qed.

Lemma merged_movies (s : store) (p : Z) (dups : list Z) :
  exists avg cnt,
    movies (merged s p dups)
    = filter (fun mv => negb (is_in dups (Movie.movieId mv)))
        (update_first (fun mv => Z.eqb (Movie.movieId mv) p)
           (set_stats avg cnt) (movies s)).
Proof.
  unfold merged. destruct (merge_recalculate _) as [avg cnt].
  exists avg, cnt. simpl. now rewrite reassigned_movies.
Qed.

Lemma merged_movies_stats (s : store) (p : Z) (dups : list Z) :
  movies (merged s p dups)
  = filter (fun mv => negb (is_in dups (Movie.movieId mv)))
      (update_first (fun mv => Z.eqb (Movie.movieId mv) p)
         (set_stats
            (fst (merge_recalculate (bound (reassigned s p dups) p)))
            (snd (merge_recalculate (bound (reassigned s p dups) p))))
         (movies s)).
Proof.
  unfold merged. destruct (merge_recalculate _) as [avg cnt].
  simpl. now rewrite reassigned_movies.
Qed.

Lemma insert_by_movieId_perm (mv : Movie.t) (l : list Movie.t) :
  Permutation (insert_by_movieId mv l) (mv :: l).
Proof.
  induction l as [|x l IH]; simpl; [reflexivity|].
  destruct (_ <=? _)%Z; [reflexivity|].
  rewrite IH. apply perm_swap.
Qed.

Lemma sort_by_movieId_perm (l : list Movie.t) :
  Permutation (sort_by_movieId l) l.
Proof.
  induction l as [|x l IH]; simpl; [reflexivity|].
  rewrite insert_by_movieId_perm. now constructor.
Qed.

Lemma filter_perm {A : Type} (g : A -> bool) (l l' : list A) :
  Permutation l l' -> Permutation (filter g l) (filter g l').
Proof.
  induction 1; simpl.
  - reflexivity.
  - destruct (g x); [now constructor | assumption].
  - destruct (g x), (g y); try reflexivity. apply perm_swap.
  - now transitivity (filter g l').
Qed.

Lemma filter_update_first_length {A : Type} (g q : A -> bool) (f : A -> A) l :
  (forall x, g (f x) = g x) ->
  List.length (filter g (update_first q f l)) = List.length (filter g l).
Proof.
  intros Hf. induction l as [|x l IH]; simpl; [reflexivity|].
  destruct (q x); simpl.
  - rewrite Hf. now destruct (g x).
  - destruct (g x); simpl; now rewrite IH.
Qed.

Lemma filter_filter_and {A : Type} (g h : A -> bool) (l : list A) :
  filter g (filter h l) = filter (fun x => h x && g x) l.
Proof.
  induction l as [|x l IH]; simpl; [reflexivity|].
  destruct (h x); simpl; [destruct (g x)|]; now rewrite IH.
Qed.

Lemma duplicates_are_in (duplicates : list Movie.t) :
  filter (fun mv => negb (is_in (map Movie.movieId duplicates) (Movie.movieId mv)))
    duplicates = [].
Proof.
  assert (G : forall ids l,
             (forall mv, In mv l -> In (Movie.movieId mv) ids) ->
             filter (fun mv => negb (is_in ids (Movie.movieId mv))) l = []).
  { intros ids l. induction l as [|x l IH]; intros H; simpl; [reflexivity|].
    assert (E : is_in ids (Movie.movieId x) = true).
    { unfold is_in. apply existsb_exists. exists (Movie.movieId x).
      split; [apply H; now left | apply Z.eqb_refl]. }
    rewrite E. simpl. apply IH. intros mv Hmv. apply H. now right. }
  apply G. intros mv Hmv. now apply in_map.
Qed.

(** After a committed merge at most one record of the group is left. *)
Lemma group_after_merge (s : store) (title year : string) primary duplicates :
  group s title year = primary :: duplicates ->
  (List.length
     (group (merged s (Movie.movieId primary) (map Movie.movieId duplicates))
        title year) <= 1)%nat.
Proof.
  intros Hg. unfold group in *.
  set (P := by_title_year (template title year) (parseInt_string year)) in *.
  set (dups := map Movie.movieId duplicates).
  set (N := fun mv => negb (is_in dups (Movie.movieId mv))).
  rewrite (Permutation_length (sort_by_movieId_perm _)).
  destruct (merged_movies s (Movie.movieId primary) dups) as (avg & cnt & ->).
  fold N. rewrite filter_filter_and.
  rewrite filter_update_first_length by reflexivity.
  rewrite <- filter_filter_and.
  assert (Hp : Permutation (filter P (filter N (movies s)))
                 (filter N (primary :: duplicates))).
  { rewrite filter_filter_and.
    rewrite (filter_ext _ (fun x => P x && N x)) by (intros; apply andb_comm).
    rewrite <- filter_filter_and, <- Hg.
    apply filter_perm. symmetry. apply sort_by_movieId_perm. }
  rewrite (Permutation_length Hp). simpl.
  assert (E : filter N duplicates = []) by apply duplicates_are_in.
  rewrite E. destruct (N primary); simpl; lia.
Qed.

(** C6.  With no fault injected, a merge that was committed is followed, on
    the same title and year, by a run that finds no duplicates and leaves
    the world (store, transaction state, generator) exactly as it was. *)
Theorem merge_twice (t y : option string) w p dups k a c w1 :
  fuse w = None ->
  mergeDuplicates t y w = (Ok (Merged p dups k a c), w1) ->
  mergeDuplicates t y w1 = (Ok NoOp, w1).
Proof.
  intros Hf H.
  apply merge_Merged in H
    as (title & year & primary & duplicates & -> & -> & Ht & Hy & Hg & _
        & -> & -> & _ & _ & Hdb & _ & _ & Hf1).
  specialize (Hf1 Hf).
  pose proof (group_after_merge _ _ _ _ _ Hg) as Hlen. rewrite <- Hdb in Hlen.
  unfold mergeDuplicates.
  destruct (String.eqb_spec title ""); [contradiction|].
  destruct (String.eqb_spec year ""); [contradiction|].
  simpl. unfold locate, movies_find_sorted, query, bind.
  rewrite (tick_nofault _ Hf1). unfold view.
  fold (group (db w1) title year).
  destruct (Nat.ltb_spec (List.length (group (db w1) title year)) 2);
    [reflexivity | lia].
Qed.

(** C10.  Whatever its outcome, a run of the merge leaves the [tags] and
    [links] collections as they are.  After a committed merge no record
    carries the identity key of a deleted duplicate any more, while every
    tag and every link that referred to that key is still there, referring
    to it. *)
Theorem merge_leaves_tags_and_links (t y : option string) w res w' :
  mergeDuplicates t y w = (res, w') ->
  tags (db w') = tags (db w)
  /\ links (db w') = links (db w)
  /\ forall p dups k a c d,
       res = Ok (Merged p dups k a c) -> In d dups ->
       entity (db w') d = None
       /\ (forall tag, In tag (tags (db w)) -> Tag.movieId tag = d ->
             In tag (tags (db w')))
       /\ (forall link, In link (links (db w)) -> Link.movieId link = d ->
             In link (links (db w'))).
Proof.
  intros H. destruct (keeps_mergeDuplicates t y _ _ _ H) as (Ht & Hl).
  split; [exact Ht|]. split; [exact Hl|].
  intros p dups k a c d -> Hd. rewrite Ht, Hl.
  split; [|split; trivial].
  apply merge_Merged in H
    as (title & year & primary & duplicates & _ & _ & _ & _ & _ & _
        & _ & _ & _ & _ & Hdb & _).
  unfold entity. rewrite Hdb.
  destruct (merged_movies (db w) p dups) as (avg & cnt & ->).
  destruct (find _ _) as [mv|] eqn:E; [|reflexivity].
  apply find_some in E as (Hin & Hid).
  apply filter_In in Hin as (_ & Hnot). apply Z.eqb_eq in Hid. rewrite Hid in Hnot.
  assert (Hyes : is_in dups d = true).
  { unfold is_in. apply existsb_exists. exists d. split; [exact Hd | apply Z.eqb_refl]. }
  rewrite Hyes in Hnot. discriminate.
Qed.

(** ** Scenarios *)

(** C1.  On the values 5.0, 3.0, 3.0 the handler computes the average 3.67
    and the merge the average 11/3, as doubles 3.67 and
    3.6666666666666665: the merge does not round. *)
Theorem recalculations_differ :
  recalculate union_B = (num (367 # 100), 3%nat)
  /\ merge_recalculate union_B = (num (11 # 3), 3%nat)
  /\ recalculate union_B <> merge_recalculate union_B.
Proof.
  assert (E1 : recalculate union_B = (num (367 # 100), 3%nat))
    by (vm_compute; reflexivity).
  assert (E2 : merge_recalculate union_B = (num (11 # 3), 3%nat))
    by (vm_compute; reflexivity).
  rewrite E1, E2. repeat split. vm_compute. discriminate.
Qed.

(** C2, scenario B.  The merge keeps entity 10, moves the two rating events
    of entity 11 to it and deletes entity 11; the record of entity 10 then
    holds the count 3 and the average 11/3, where the aggregate of the
    specification over the three values is 3.67. *)
Theorem scenario_B :
  mergeDuplicates (Some "Alpha"%string) (Some "1999"%string) world_B
  = (Ok (Merged 10 [11%Z] 2 (num (11 # 3)) 3),
     mkWorld
       (mkStore
          [Movie.mk 10 "Alpha (1999)" (Some 1999%Z) (num (11 # 3)) 3]
          union_B (tags store_B) (links store_B))
       None None 100)
  /\ computeAggregate [5; 3; 3]%Q = (num (367 # 100), 3%nat).
Proof. split; vm_compute; reflexivity. Qed.

(** C5.  In scenario B a store operation of the transaction callback fails
    after the batch that reassigns the rating events.  The run reports an
    abort, and the store is not what it was: the rating events of entity 11
    are bound to entity 10, while both records are there with their old
    statistics (failure of the read or of the update that follow the batch),
    or with the new statistics on entity 10 (failure of the deletion). *)
Theorem abort_keeps_reassignment :
  let run n :=
    mergeDuplicates (Some "Alpha"%string) (Some "1999"%string)
      (mkWorld store_B None (Some n) 100) in
  let rebound_only :=
    mkStore (movies store_B) union_B (tags store_B) (links store_B) in
  let rebound_and_updated :=
    mkStore
      [Movie.mk 11 "Alpha (1999)" (Some 1999%Z) (Num 3%Q) 2;
       Movie.mk 10 "Alpha (1999)" (Some 1999%Z) (num (11 # 3)) 3]
      union_B (tags store_B) (links store_B) in
  run 3%nat = (Ok Aborted, mkWorld rebound_only None None 100)
  /\ run 4%nat = (Ok Aborted, mkWorld rebound_only None None 100)
  /\ run 5%nat = (Ok Aborted, mkWorld rebound_and_updated None None 100)
  /\ rebound_only <> store_B
  /\ rebound_and_updated <> store_B.
Proof.
  repeat split; try (vm_compute; reflexivity); vm_compute; discriminate.
Qed.

(** C7.  Node rejects the script of [findDuplicates], which declares
    [movies] twice: whatever its arguments and the store, a run reports no
    group and prints nothing.  In scenario B the merge locates the two
    records of "Alpha (1999)" for the same title and year. *)
Theorem find_and_merge_disagree :
  findDuplicates (Some "Alpha"%string) (Some "1999"%string) world_B
  = (Ok NotLoaded, world_B)
  /\ locate "Alpha" "1999" world_B
     = (Ok [Movie.mk 10 "Alpha (1999)" (Some 1999%Z) (Num 5%Q) 1;
            Movie.mk 11 "Alpha (1999)" (Some 1999%Z) (Num 3%Q) 2], world_B)
  /\ forall title year w, findDuplicates title year w = (Ok NotLoaded, w).
Proof. repeat split; reflexivity. Qed.

(** With nothing scheduled beside it, the handler of [rate_beside] is the
    handler. *)
Lemma rate_beside_nothing (now : Z) (req : request) (w : world) :
  rate_beside now req (ret tt) w = rate now req w.
Proof. reflexivity. Qed.

(** C9.  A merge scheduled between the insert and the read of a submission
    empties the set that is read back.  In scenario B a rating for entity
    11 arrives; after its insert the merge of "Alpha (1999)" binds every
    rating event of entity 11, the new one included, to entity 10 and
    deletes entity 11.  The handler then reads no event for entity 11,
    divides 0 by 0 and answers 201 with the average [NaN] and the count 0.
    The merge, on an empty set, answers 0 by its guard. *)
Theorem read_back_empty_beside_a_merge :
  let req := mkRequest "11" (JNumber (Num 9%Q)) (JNumber (Num 4%Q)) in
  let run :=
    rate_beside 1700000000123 req
      (mergeDuplicates (Some "Alpha"%string) (Some "1999"%string)) world_B in
  fst run
  = Ok (Status201 (Rating.mk 100 9 11 (Num 4%Q) 1700000000)
          (mkUpdated 11 NaN 0))
  /\ bound (db (snd run)) 11 = []
  /\ In (Rating.mk 100 9 10 (Num 4%Q) 1700000000) (bound (db (snd run)) 10)
  /\ recalculate [] = (NaN, 0%nat)
  /\ num_div (Num 0%Q) (of_length 0) = NaN
  /\ merge_recalculate [] = (Num 0%Q, 0%nat).
Proof.
  intros req run. repeat split; try (vm_compute; reflexivity).
  vm_compute. tauto.
Qed.

(** C3, as stated, fails: rater -5 is accepted, and the rating event is
    written. *)
Lemma negative_rater_accepted :
  let req := mkRequest "1" (JNumber (Num (-5 # 1))) (JNumber (Num 4%Q)) in
  let r := Rating.mk 100 (-5) 1 (Num 4%Q) 1700000000 in
  exists w',
    rate 1700000000123 req world_A
    = (Ok (Status201 r (mkUpdated 1 (Num 4%Q) 4)), w')
    /\ In r (ratings (db w'))
    /\ ~ In r (ratings (db world_A)).
Proof.
  eexists. split; [reflexivity|]. split.
  - simpl. tauto.
  - simpl. intros [H|[H|[H|[]]]]; discriminate.
Qed.

(** *** Conservation of the rating events *)

Lemma update_first_unique (i : N) (f : Rating.t -> Rating.t) (l : list Rating.t) :
  NoDup (map Rating._id l) ->
  update_first (fun r => N.eqb (Rating._id r) i) f l
  = map (fun r => if N.eqb (Rating._id r) i then f r else r) l.
Proof.
  induction l as [|x l IH]; intros Hnd; simpl; [reflexivity|].
  inversion Hnd as [|? ? Hx Hl]; subst.
  destruct (N.eqb_spec (Rating._id x) i) as [E|E].
  - f_equal. rewrite <- (map_id l) at 1. apply map_ext_in.
    intros y Hy. destruct (N.eqb_spec (Rating._id y) i) as [Ey|Ey]; trivial.
    exfalso. apply Hx. rewrite E, <- Ey. now apply in_map.
  - f_equal. now apply IH.
Qed.

Lemma rebind_ratings (p : Z) (moved : list Rating.t) (s : store) :
  NoDup (map Rating._id (ratings s)) ->
  ratings
    (apply_writes (map (fun r => SetRatingMovieId (Rating._id r) p) moved) s)
  = map (fun x =>
           if existsb (N.eqb (Rating._id x)) (map Rating._id moved)
           then set_movieId p x else x) (ratings s).
Proof.
  unfold apply_writes. revert s.
  induction moved as [|r moved IH]; intros s Hnd; simpl.
  - symmetry. apply map_id.
  - rewrite IH; simpl.
    + rewrite update_first_unique by exact Hnd. rewrite map_map.
      apply map_ext. intros x.
      destruct (N.eqb (Rating._id x) (Rating._id r)) eqn:E; simpl; rewrite ?E;
        simpl; trivial.
      now destruct (existsb _ _).
    + rewrite update_first_unique by exact Hnd. rewrite map_map.
      erewrite map_ext; [exact Hnd|].
      intros x. now destruct (N.eqb _ _).
Qed.

Lemma filter_split_length {A : Type} (g h : A -> bool) (l : list A) :
  (forall x, g x && h x = false) ->
  List.length (filter (fun x => g x || h x) l)
  = (List.length (filter g l) + List.length (filter h l))%nat.
Proof.
  intros Hx. induction l as [|x l IH]; simpl; [reflexivity|].
  specialize (Hx x). destruct (g x), (h x); simpl in *; try discriminate; lia.
Qed.

(** The events to move are those of the duplicates, entity by entity. *)
Lemma to_move_sum (s : store) (dups : list Z) :
  NoDup dups ->
  List.length (to_move s dups)
  = list_sum (map (fun d => List.length (bound s d)) dups).
Proof.
  unfold to_move, bound. induction 1 as [|d ds Hd Hnd IH]; simpl.
  - induction (ratings s); simpl; trivial.
  - rewrite <- IH.
    rewrite <- (filter_split_length
                  (fun r => Z.eqb (Rating.movieId r) d)
                  (fun r => is_in ds (Rating.movieId r))); [reflexivity|].
    intros x. destruct (Z.eqb_spec (Rating.movieId x) d) as [->|]; trivial.
    simpl. destruct (is_in ds d) eqn:E; trivial.
    exfalso. apply Hd. unfold is_in in E.
    apply existsb_exists in E as (z & Hz & Ez). apply Z.eqb_eq in Ez. now subst.
Qed.

Lemma same_id_same_event (l : list Rating.t) (x y : Rating.t) :
  NoDup (map Rating._id l) ->
  In x l -> In y l -> Rating._id y = Rating._id x -> y = x.
Proof.
  induction l as [|z l IH]; intros Hnd Hx Hy E; [contradiction|].
  simpl in Hnd. inversion Hnd as [|? ? Hz Hl]; subst.
  destruct Hx as [->|Hx], Hy as [->|Hy]; trivial.
  - exfalso. apply Hz. rewrite <- E. now apply in_map.
  - exfalso. apply Hz. rewrite E. now apply in_map.
  - now apply IH.
Qed.

Lemma rebound_count (p : Z) (dups : list Z) (l : list Rating.t) :
  List.length
    (filter (fun r => Z.eqb (Rating.movieId r) p) (map (rebound p dups) l))
  = List.length
      (filter
         (fun r => is_in dups (Rating.movieId r) || Z.eqb (Rating.movieId r) p)
         l).
Proof.
  induction l as [|x l IH]; simpl; [reflexivity|].
  unfold rebound at 1.
  destruct (is_in dups (Rating.movieId x)) eqn:G; simpl.
  - rewrite Z.eqb_refl. simpl. now rewrite IH.
  - destruct (Z.eqb (Rating.movieId x) p); simpl; now rewrite IH.
Qed.

Section Conservation.

Variables (s : store) (p : Z) (dups : list Z).

(** [_id] is a unique key of [ratings]. *)
Hypothesis ids_unique : NoDup (map Rating._id (ratings s)).

(** The batch of lines 38-49 rebinds the events of the duplicates and no
    other. *)
Lemma reassigned_ratings :
  ratings (reassigned s p dups) = map (rebound p dups) (ratings s).
Proof.
  pose proof ids_unique as Hnd.
  assert (E : reassigned s p dups
              = apply_writes
                  (map (fun r => SetRatingMovieId (Rating._id r) p)
                     (to_move s dups)) s).
  { unfold reassigned. destruct (to_move s dups); reflexivity. }
  rewrite E, rebind_ratings by exact Hnd.
  apply map_ext_in. intros x Hx. unfold rebound, to_move.
  destruct (is_in dups (Rating.movieId x)) eqn:G.
  - assert (Y : existsb (N.eqb (Rating._id x))
                  (map Rating._id
                     (filter (fun r => is_in dups (Rating.movieId r)) (ratings s)))
                = true).
    { apply existsb_exists. exists (Rating._id x). split; [|apply N.eqb_refl].
      apply in_map, filter_In. now split. }
    now rewrite Y.
  - destruct (existsb _ _) eqn:Y; [|reflexivity].
    apply existsb_exists in Y as (i & Hi & Ei). apply N.eqb_eq in Ei. subst i.
    apply in_map_iff in Hi as (y & Ey & Hy). apply filter_In in Hy as (Hy & Gy).
    assert (y = x) by (now apply (same_id_same_event (ratings s))).
    subst y. rewrite G in Gy. discriminate.
Qed.

(** After the batch the survivor owns its own events and those of the
    duplicates, each once; the values and the identities of the events are
    what they were. *)
Lemma reassigned_conserves :
  ~ In p dups ->
  List.length (bound (reassigned s p dups) p)
  = (List.length (bound s p) + List.length (to_move s dups))%nat
  /\ map Rating._id (ratings (reassigned s p dups)) = map Rating._id (ratings s)
  /\ map Rating.rating (ratings (reassigned s p dups))
     = map Rating.rating (ratings s)
  /\ (forall r, In r (ratings s) -> is_in dups (Rating.movieId r) = false ->
        In r (ratings (reassigned s p dups))).
Proof.
  intros Hp.
  assert (Hpd : is_in dups p = false).
  { destruct (is_in dups p) eqn:E; trivial. exfalso. apply Hp.
    apply existsb_exists in E as (z & Hz & Ez). apply Z.eqb_eq in Ez. now subst. }
  pose proof reassigned_ratings as E.
  unfold bound, to_move. rewrite E. repeat split.
  - rewrite Nat.add_comm.
    rewrite <- (filter_split_length
                  (fun r => is_in dups (Rating.movieId r))
                  (fun r => Z.eqb (Rating.movieId r) p)).
    + apply rebound_count.
    + intros x. destruct (Z.eqb_spec (Rating.movieId x) p) as [->|].
      * now rewrite Hpd.
      * apply andb_false_r.
  - rewrite map_map. apply map_ext. intros x. unfold rebound.
    destruct (is_in dups (Rating.movieId x)); reflexivity.
  - rewrite map_map. apply map_ext. intros x. unfold rebound.
    destruct (is_in dups (Rating.movieId x)); reflexivity.
  - intros r Hr G. apply in_map_iff. exists r. split; [|exact Hr].
    unfold rebound. now rewrite G.
Qed.

End Conservation.

Lemma merged_ratings (s : store) (p : Z) (dups : list Z) :
  ratings (merged s p dups) = ratings (reassigned s p dups).
Proof.
  unfold merged. now destruct (merge_recalculate _).
Qed.

Lemma NoDup_map_filter {A B : Type} (f : A -> B) (g : A -> bool) (l : list A) :
  NoDup (map f l) -> NoDup (map f (filter g l)).
Proof.
  induction l as [|x l IH]; simpl; intros H; [constructor|].
  inversion H as [|? ? Hx Hl]; subst.
  destruct (g x); simpl; [|now apply IH].
  constructor; [|now apply IH].
  intros Hin. apply Hx. apply in_map_iff in Hin as (y & Ey & Hy).
  apply filter_In in Hy as (Hy & _). rewrite <- Ey. now apply in_map.
Qed.

Lemma group_NoDup (s : store) (title year : string) :
  NoDup (map Movie.movieId (movies s)) ->
  NoDup (map Movie.movieId (group s title year)).
Proof.
  intros H. unfold group.
  eapply Permutation_NoDup.
  - apply Permutation_map. symmetry. apply sort_by_movieId_perm.
  - now apply NoDup_map_filter.
Qed.

Lemma find_filter_keep {A : Type} (q g : A -> bool) (l : list A) :
  (forall x, q x = true -> g x = true) ->
  find q (filter g l) = find q l.
Proof.
  intros H. induction l as [|x l IH]; simpl; [reflexivity|].
  destruct (q x) eqn:Q.
  - rewrite (H x Q). simpl. now rewrite Q.
  - destruct (g x); simpl; [now rewrite Q | exact IH].
Qed.

(** Conservation, as the merge has it.  The identity keys of [movies] and
    the [_id]s of [ratings] being unique, a committed merge leaves the
    survivor with its own rating events and those of every duplicate, each
    once; no event is lost, added or changed in value, and the events of
    other entities stay where they were.  The record of the survivor holds
    the count of these events and their mean as [merge_recalculate] has it,
    that is, not rounded. *)
Lemma merge_conserves (t y : option string) w p dups k a c w' :
  NoDup (map Rating._id (ratings (db w))) ->
  NoDup (map Movie.movieId (movies (db w))) ->
  mergeDuplicates t y w = (Ok (Merged p dups k a c), w') ->
  List.length (bound (db w') p)
  = (List.length (bound (db w) p)
     + list_sum (map (fun d => List.length (bound (db w) d)) dups))%nat
  /\ map Rating._id (ratings (db w')) = map Rating._id (ratings (db w))
  /\ map Rating.rating (ratings (db w')) = map Rating.rating (ratings (db w))
  /\ (forall r, In r (ratings (db w)) -> is_in dups (Rating.movieId r) = false ->
        In r (ratings (db w')))
  /\ (a, c) = merge_recalculate (bound (db w') p)
  /\ exists mv, entity (db w') p = Some mv /\ stats mv = (a, c).
Proof.
  intros Hr Hm H.
  apply merge_Merged in H
    as (title & year & primary & duplicates & _ & _ & _ & _ & Hg & _
        & -> & -> & _ & Hac & Hdb & _).
  set (p := Movie.movieId primary) in *.
  set (dups := map Movie.movieId duplicates) in *.
  pose proof (group_NoDup (db w) title year Hm) as Hnd.
  rewrite Hg in Hnd. simpl in Hnd. fold p dups in Hnd.
  inversion Hnd as [|? ? Hp Hdups]; subst.
  destruct (reassigned_conserves (db w) p dups Hr Hp) as (Hlen & Hids & Hvals & Hkeep).
  assert (Hb : bound (db w') p = bound (reassigned (db w) p dups) p).
  { unfold bound. now rewrite Hdb, merged_ratings. }
  rewrite Hb, Hdb, merged_ratings, Hlen, (to_move_sum _ _ Hdups).
  repeat split; trivial.
  unfold entity.
  rewrite (merged_movies_stats (db w) p dups), <- Hac.
  cbn [fst snd].
  rewrite find_filter_keep.
  - rewrite find_update_first_same by reflexivity.
    assert (Hin : In primary (movies (db w))).
    { assert (Hin : In primary (group (db w) title year))
        by (rewrite Hg; now left).
      unfold group in Hin.
      apply (Permutation_in _ (sort_by_movieId_perm _)) in Hin.
      now apply filter_In in Hin as (Hin & _). }
    destruct (find _ (movies (db w))) as [mv|] eqn:E.
    + exists (set_stats a c mv). now split.
    + exfalso. pose proof (find_none _ _ E _ Hin) as F. simpl in F.
      fold p in F. now rewrite Z.eqb_refl in F.
  - intros x Hx. apply Z.eqb_eq in Hx. rewrite Hx.
    destruct (is_in dups p) eqn:E; trivial. exfalso. apply Hp.
    apply existsb_exists in E as (z & Hz & Ez). apply Z.eqb_eq in Ez. now subst.
Qed.

(** A value off the 0.5 increment, 3.7, is accepted as well. *)
Lemma off_increment_value_accepted :
  exists r w',
    rate 1700000000123
      (mkRequest "1" (JNumber (Num 9%Q)) (JNumber (num (37 # 10)))) world_A
    = (Ok (Status201 r (mkUpdated 1 (num (393 # 100)) 4)), w')
    /\ Rating.rating r = num (37 # 10).
Proof. do 2 eexists. split; vm_compute; reflexivity. Qed.

(** *** Transactions of the driver *)

(** Writes that are given the session are dropped when the callback
    throws, and reach the store when it returns. *)
Lemma session_writes_follow_the_transaction
  (s : session) (wrs : list write) (d : store) (o : N) :
  withTransaction s
    (submit (Some s) wrs ;; query (Some s) (fun _ => tt))
    (mkWorld d None (Some 1%nat) o)
  = (Throw StoreError, mkWorld d None None o)
  /\ withTransaction s
       (submit (Some s) wrs ;; query (Some s) (fun _ => tt))
       (mkWorld d None None o)
     = (Ok tt, mkWorld (apply_writes wrs d) None None o).
Proof. split; reflexivity. Qed.

(** ** The statements at the scenarios *)

(** Scenario D: the value 5.5 is off the interval. *)
Lemma invalid_input_rejected_at_D :
  let req := mkRequest "1" (JNumber (Num 1%Q)) (JNumber (Num (11 # 2))) in
  outside (parseFloat (body_rating req))
  /\ exists msg, rate 1700000000123 req world_A = (Ok (Status400 msg), world_A).
Proof.
  intros req.
  assert (H : outside (parseFloat (body_rating req))) by (right; reflexivity).
  split; [exact H|].
  apply invalid_input_rejected. right; right; right. exact H.
Defined.

Lemma merge_twice_at_B :
  let w1 :=
    mkWorld
      (mkStore [Movie.mk 10 "Alpha (1999)" (Some 1999%Z) (num (11 # 3)) 3]
         union_B (tags store_B) (links store_B))
      None None 100 in
  fuse world_B = None
  /\ mergeDuplicates (Some "Alpha"%string) (Some "1999"%string) w1
     = (Ok NoOp, w1).
Proof.
  intros w1. split; [reflexivity|].
  apply (merge_twice (Some "Alpha"%string) (Some "1999"%string) world_B
           10 [11%Z] 2 (num (11 # 3)) 3 w1); reflexivity.
Defined.

Lemma scenario_A_at_A :
  fuse world_A = None
  /\ exists r w' mv,
       rate 1700000000123
         (mkRequest "1" (JNumber (Num 9%Q)) (JNumber (Num (9 # 2)))) world_A
       = (Ok (Status201 r (mkUpdated 1 (num (413 # 100)) 4)), w')
       /\ entity (db w') 1 = Some mv
       /\ stats mv = (num (413 # 100), 4%nat).
Proof.
  split; [reflexivity|].
  apply (scenario_A 1700000000123 "1" 1 world_A);
    [reflexivity | reflexivity | discriminate | apply Permutation_refl].
Defined.

Lemma read_back_not_empty_at_A :
  let req := mkRequest "1" (JNumber (Num 9%Q)) (JNumber (Num (9 # 2))) in
  let r := Rating.mk 100 9 1 (Num (9 # 2)) 1700000000 in
  let w' := snd (rate 1700000000123 req world_A) in
  In r (bound (db w') 1) /\ (1 <= List.length (bound (db w') 1))%nat.
Proof.
  intros req r w'.
  destruct (read_back_not_empty 1700000000123 req world_A r
              (mkUpdated 1 (num (413 # 100)) 4) w' eq_refl)
    as (Hin & _ & Hlen & _).
  split; [exact Hin | exact Hlen].
Defined.

Lemma merge_leaves_tags_and_links_at_B :
  let w' := snd (mergeDuplicates (Some "Alpha"%string) (Some "1999"%string)
                   world_B) in
  tags (db w') = tags store_B
  /\ links (db w') = links store_B
  /\ entity (db w') 11 = None
  /\ In (Tag.mk 8 11 "noir" 1700000000) (tags (db w')).
Proof.
  intros w'.
  destruct (merge_leaves_tags_and_links
              (Some "Alpha"%string) (Some "1999"%string) world_B
              (Ok (Merged 10 [11%Z] 2 (num (11 # 3)) 3)) w' eq_refl)
    as (Ht & Hl & Hd).
  destruct (Hd 10%Z [11%Z] 2%nat (num (11 # 3)) 3%nat 11%Z eq_refl
              (or_introl eq_refl)) as (He & Htag & _).
  repeat split; trivial.
  apply Htag; [now left | reflexivity].
Defined.

(** * Further properties of the code *)

(** ** Runs of the driver, whatever their outcome *)

Lemma bind_run {A B : Type} (c : M A) (k : A -> M B) w r w' :
  (x <- c ;; k x) w = (r, w') ->
  (exists a w1, c w = (Ok a, w1) /\ k a w1 = (r, w'))
  \/ (exists e, c w = (Throw e, w') /\ r = Throw e).
Proof.
  unfold bind. destruct (c w) as [[a|e] w1]; intros H.
  - left. now exists a, w1.
  - right. inversion H; subst. now exists e.
Qed.

Lemma tick_run w r w' :
  tick w = (r, w') ->
  db w' = db w /\ txn w' = txn w /\ next_oid w' = next_oid w.
Proof.
  unfold tick. destruct w as [d t [[|n]|] o]; intros H; inversion H; now subst.
Qed.

Lemma query_Throw {A : Type} (f : store -> A) w e w' :
  query None f w = (Throw e, w') ->
  db w' = db w /\ txn w' = txn w /\ next_oid w' = next_oid w.
Proof.
  unfold query. intros H. apply bind_run in H as [(a & w1 & Ht & H)|(e' & Ht & _)].
  - discriminate.
  - exact (tick_run _ _ _ Ht).
Qed.

Lemma submit_Throw (wrs : list write) w e w' :
  submit None wrs w = (Throw e, w') ->
  db w' = db w /\ txn w' = txn w /\ next_oid w' = next_oid w.
Proof.
  unfold submit. intros H. apply bind_run in H as [(a & w1 & Ht & H)|(e' & Ht & _)].
  - destruct (txn w1); discriminate.
  - exact (tick_run _ _ _ Ht).
Qed.

Lemma query_nofault {A : Type} (f : store -> A) w :
  fuse w = None -> query None f w = (Ok (f (db w)), w).
Proof.
  intros Hf. unfold query, bind. now rewrite (tick_nofault _ Hf).
Qed.

Lemma submit_nofault (wrs : list write) w :
  fuse w = None ->
  submit None wrs w
  = (Ok tt, mkWorld (apply_writes wrs (db w)) (txn w) None (next_oid w)).
Proof.
  intros Hf. unfold submit, bind. rewrite (tick_nofault _ Hf).
  rewrite Hf. now destruct (txn w).
Qed.

(** ** Rating submission, whatever the answer *)

(** The handler answers every call. *)
Lemma rate_answers (now : Z) (req : request) w :
  exists res w', rate now req w = (Ok res, w').
Proof.
  unfold rate, bind at 1, try_catch.
  match goal with |- context [let (r, w1) := ?c w in _] =>
    destruct (c w) as [[res|e] w1] end; eexists; eexists; reflexivity.
Qed.

(** What a call did to the store, by its answer. *)
Lemma rate_effect (now : Z) (req : request) w res w' :
  rate now req w = (Ok res, w') ->
  tags (db w') = tags (db w) /\ links (db w') = links (db w)
  /\ (db w' = db w /\ (forall r u, res <> Status201 r u)
      \/ exists m uid q r,
           target req = Some m
           /\ parseInt (body_userId req) = Some uid
           /\ parseFloat (body_rating req) = Num q
           /\ ((1 # 2) <= q)%Q /\ (q <= 5)%Q
           /\ entity (db w) m <> None
           /\ r = Rating.mk (next_oid w) uid m (Num q) (now / 1000)%Z
           /\ ratings (db w') = ratings (db w) ++ [r]
           /\ (movies (db w') = movies (db w) /\ res = Status500
               \/ exists u, res = Status201 r u)).
Proof.
  intros H. unfold rate in H.
  apply bind_Ok in H as (r0 & w1 & Hb & H).
  apply try_catch_run in Hb as (r1 & E & Hb). injection E as <-.
  assert (Hres : res = match r0 with Ok x => x | Throw _ => Status500 end
                 /\ w' = w1).
  { destruct r0; apply ret_Ok in H as (E1 & E2); subst; now split. }
  destruct Hres as (-> & ->). clear H.
  assert (Early : forall x, ret x w = (r0, w1) ->
            (forall r u, x <> Status201 r u) ->
            tags (db w1) = tags (db w) /\ links (db w1) = links (db w)
            /\ (db w1 = db w
                /\ (forall r u,
                      match r0 with Ok x => x | Throw _ => Status500 end
                      <> Status201 r u)
                \/ False)).
  { intros x Hret Hx. unfold ret in Hret. inversion Hret; subst.
    repeat split; trivial. left. now split. }
  assert (Thrown : forall e w6, r0 = Throw e -> db w6 = db w -> w1 = w6 ->
            tags (db w1) = tags (db w) /\ links (db w1) = links (db w)
            /\ (db w1 = db w
                /\ (forall r u,
                      match r0 with Ok x => x | Throw _ => Status500 end
                      <> Status201 r u)
                \/ False)).
  { intros e w6 -> D ->. rewrite D. repeat split; trivial. left.
    split; [reflexivity | discriminate]. }
  destruct (parseInt_string (params_id req)) as [m|] eqn:Hm.
  2: { destruct (Early _ Hb) as (? & ? & [?|[]]); [intros; discriminate | tauto]. }
  destruct (truthy (body_userId req)) eqn:Htu.
  2: { destruct (Early _ Hb) as (? & ? & [?|[]]); [intros; discriminate | tauto]. }
  destruct (parseInt (body_userId req)) as [uid|] eqn:Hu.
  2: { destruct (Early _ Hb) as (? & ? & [?|[]]); [intros; discriminate | tauto]. }
  destruct (negb (truthy (body_rating req)) || isNaN (parseFloat (body_rating req))) eqn:Hv.
  { destruct (Early _ Hb) as (? & ? & [?|[]]); [intros; discriminate | tauto]. }
  destruct (num_lt (parseFloat (body_rating req)) (Num (1 # 2))
            || num_gt (parseFloat (body_rating req)) (Num 5)) eqn:Hr.
  { destruct (Early _ Hb) as (? & ? & [?|[]]); [intros; discriminate | tauto]. }
  apply orb_false_elim in Hv as (_ & Hnan).
  destruct (in_range _ Hnan Hr) as (q & Hq & Hlo & Hhi).
  apply bind_run in Hb as [(movie & w2 & Hfind & Hb)|(e' & Hfind & Ee)].
  2: { apply query_Throw in Hfind as (D & _).
       destruct (Thrown _ _ Ee D eq_refl) as (? & ? & [?|[]]). tauto. }
  apply query_Ok in Hfind as (Hmovie & D2 & T2 & O2 & F2).
  destruct movie as [mv|].
  2: { unfold ret in Hb. inversion Hb; subst. rewrite D2.
       repeat split; trivial. left. split; [reflexivity | discriminate]. }
  apply bind_run in Hb as [(nr & w3 & Hins & Hb)|(e' & Hins & Ee)].
  2: { unfold ratings_insertOne in Hins.
       apply bind_run in Hins as [(a & w3 & Hs & Hins)|(e'' & Hs & _)];
         [discriminate|].
       apply submit_Throw in Hs as (D & _). simpl in D.
       rewrite D2 in D.
       subst r0. rewrite D. repeat split; trivial. left.
       split; [reflexivity | discriminate]. }
  apply insertOne_Ok in Hins as (Hnew & D3 & T3 & O3 & F3).
  rewrite Hq, O2 in Hnew.
  assert (Written : forall w6, db w6 = db w3 ->
            tags (db w6) = tags (db w) /\ links (db w6) = links (db w)
            /\ entity (db w) m <> None
            /\ ratings (db w6) = ratings (db w) ++ [nr]
            /\ movies (db w6) = movies (db w)).
  { intros w6 D6. rewrite D6, D3, D2. simpl. repeat split; trivial.
    unfold entity. rewrite <- Hmovie. discriminate. }
  apply bind_run in Hb as [(all & w4 & Hall & Hb)|(e' & Hall & Ee)].
  2: { apply query_Throw in Hall as (D & _).
       destruct (Written _ D) as (Ht & Hl & He & Hrs & Hmv). subst r0.
       repeat split; trivial. right. exists m, uid, q, nr.
       repeat split; trivial. now left. }
  apply query_Ok in Hall as (Hall & D4 & _).
  destruct (recalculate all) as [avg cnt].
  apply bind_run in Hb as [([] & w5 & Hupd & Hb)|(e' & Hupd & Ee)].
  - apply submit_Ok in Hupd as (D5 & _).
    unfold ret in Hb. inversion Hb; subst r0 w1.
    destruct (Written _ D4) as (Ht & Hl & He & Hrs & Hmv).
    rewrite D5. simpl. repeat split; trivial.
    right. exists m, uid, q, nr. repeat split; trivial.
    right. eexists. reflexivity.
  - apply submit_Throw in Hupd as (D & _). rewrite D4 in D.
    destruct (Written _ D) as (Ht & Hl & He & Hrs & Hmv). subst r0.
    repeat split; trivial. right. exists m, uid, q, nr.
    repeat split; trivial. now left.
Qed.

(** X1.  An answer other than 201 changes no record: [movies], [tags] and
    [links] are as they were.  On 400 and 404 nothing was written at all;
    on 500 the ratings hold at most the one event of the call, appended,
    in which case the statistics of its entity are left as they were. *)
Theorem no_record_changes_without_201 (now : Z) (req : request) w res w' :
  rate now req w = (Ok res, w') ->
  (forall r u, res <> Status201 r u) ->
  movies (db w') = movies (db w)
  /\ tags (db w') = tags (db w)
  /\ links (db w') = links (db w)
  /\ (res <> Status500 -> db w' = db w)
  /\ (ratings (db w') = ratings (db w)
      \/ exists r, ratings (db w') = ratings (db w) ++ [r]
                   /\ target req = Some (Rating.movieId r)
                   /\ entity (db w') (Rating.movieId r)
                      = entity (db w) (Rating.movieId r)).
Proof.
  intros H Hres.
  destruct (rate_effect _ _ _ _ _ H) as (Ht & Hl & [(D & _)|Hw]).
  - rewrite D. repeat split; trivial. now left.
  - destruct Hw as (m & uid & q & r & Hm & _ & _ & _ & _ & _ & Hr & Hrs & [(Hmv & ->)|(u & ->)]).
    + repeat split; trivial; [congruence|].
      right. exists r. split; [exact Hrs|]. rewrite Hr. simpl.
      split; [exact Hm|]. unfold entity. now rewrite Hmv.
    + exfalso. now apply (Hres r u).
Qed.

(** X2.  Whatever the answer, a call keeps every rating event within the
    closed interval from 0.5 to 5.0, if they were within it before. *)
Theorem ratings_stay_in_range (now : Z) (req : request) w res w' :
  values_in_range (db w) ->
  rate now req w = (Ok res, w') ->
  values_in_range (db w').
Proof.
  intros Hin H.
  destruct (rate_effect _ _ _ _ _ H) as (_ & _ & [(D & _)|Hw]).
  - now rewrite D.
  - destruct Hw as (m & uid & q & r & _ & _ & _ & Hlo & Hhi & _ & Hr & Hrs & _).
    unfold values_in_range. rewrite Hrs. apply Forall_app. split; [exact Hin|].
    constructor; [|constructor]. exists q. rewrite Hr. now repeat split.
Qed.

(** X3, scenario C.  With no fault injected, a well-formed call against an
    identity key that no record carries is answered 404, and the world is
    what it was: no rating event was written. *)
Theorem missing_entity_answered_404 (now : Z) (req : request) w (m uid : Z) (q : Q) :
  fuse w = None ->
  target req = Some m ->
  truthy (body_userId req) = true ->
  parseInt (body_userId req) = Some uid ->
  truthy (body_rating req) = true ->
  parseFloat (body_rating req) = Num q ->
  ((1 # 2) <= q)%Q -> (q <= 5)%Q ->
  entity (db w) m = None ->
  rate now req w = (Ok (Status404 "Movie not found"), w).
Proof.
  intros Hf Hm Htu Hu Htr Hq Hlo Hhi He.
  destruct w as [d t f o]. simpl in Hf, He. subst f.
  unfold target in Hm. unfold entity in He.
  unfold rate, bind, try_catch. rewrite Hm, Htu, Hu, Htr, Hq.
  cbn [negb isNaN orb].
  assert (R : num_lt (Num q) (Num (1 # 2)) || num_gt (Num q) (Num 5%Q) = false).
  { unfold num_gt, num_lt. apply orb_false_intro.
    - destruct (q ?= 1 # 2)%Q eqn:C; trivial.
      apply Qlt_alt in C. now apply Qle_not_lt in Hlo.
    - destruct (5 ?= q)%Q eqn:C; trivial.
      apply Qlt_alt in C. now apply Qle_not_lt in Hhi. }
  rewrite R.
  unfold movies_findOne, query, bind, tick. simpl. rewrite He. reflexivity.
Qed.

Lemma map_update_first {A B : Type} (g : A -> B) (p : A -> bool) (f : A -> A) l :
  (forall x, g (f x) = g x) -> map g (update_first p f l) = map g l.
Proof.
  intros Hf. induction l as [|x l IH]; simpl; [reflexivity|].
  destruct (p x); simpl; [now rewrite Hf | now rewrite IH].
Qed.

(** X4.  A submission answered 201 touches one entity: the new event is
    appended to the ratings, which are otherwise as they were; no record
    is added or removed, none changes its identity key, title or year; the
    record and the events of every other entity are what they were; and the
    answer carries the statistics the record now holds. *)
Theorem submission_touches_one_entity (now : Z) (req : request) w r u w' :
  rate now req w = (Ok (Status201 r u), w') ->
  ratings (db w') = ratings (db w) ++ [r]
  /\ Rating.movieId r = u_movieId u
  /\ map identity (movies (db w')) = map identity (movies (db w))
  /\ (forall m, m <> u_movieId u ->
        entity (db w') m = entity (db w) m
        /\ bound (db w') m = bound (db w) m)
  /\ exists mv, entity (db w') (u_movieId u) = Some mv
                /\ stats mv = (u_averageRating u, u_ratingCount u).
Proof.
  intros H.
  pose proof (entity_after_rate _ _ _ _ _ _ H) as Hafter.
  pose proof H as H1.
  apply rate_201 in H1
    as (m & uid & q & Hm & _ & _ & _ & _ & He & Hr & Hrs & _ & Hu & Hmv & _).
  split; [exact Hrs|]. split; [rewrite Hr, Hu; reflexivity|].
  split; [rewrite Hmv; now apply map_update_first|].
  split.
  - intros m' Hm'. destruct (rate_preserves _ _ _ _ _ _ H m') as (Hb & Hent).
    + unfold target. rewrite Hm, <- Hu. congruence.
    + now split.
  - rewrite Hu in Hafter. rewrite Hu.
    destruct (entity (db w) m) as [mv|]; [|contradiction].
    exists (set_stats (u_averageRating u) (u_ratingCount u) mv).
    split; [exact Hafter | reflexivity].
Qed.

(** ** Merge: which record survives, what is removed *)

Lemma insert_by_movieId_ascending (mv : Movie.t) (l : list Movie.t) :
  ascending (map Movie.movieId l) ->
  ascending (map Movie.movieId (insert_by_movieId mv l)).
Proof.
  induction l as [|x l IH]; simpl; intros H.
  - split; [constructor | exact I].
  - destruct H as (Hx & Hl).
    destruct (Z.leb_spec (Movie.movieId mv) (Movie.movieId x)) as [Hle|Hgt]; simpl.
    + split; [|now split]. constructor; [exact Hle|].
      eapply Forall_impl; [|exact Hx]. simpl. intros. lia.
    + split; [|now apply IH].
      apply Forall_forall. intros z Hz.
      apply in_map_iff in Hz as (y & <- & Hy).
      apply (Permutation_in _ (insert_by_movieId_perm mv l)) in Hy.
      destruct Hy as [<-|Hy]; [lia|].
      rewrite Forall_forall in Hx. apply Hx. now apply in_map.
Qed.

Lemma sort_by_movieId_ascending (l : list Movie.t) :
  ascending (map Movie.movieId (sort_by_movieId l)).
Proof.
  induction l as [|x l IH]; simpl; [exact I|].
  now apply insert_by_movieId_ascending.
Qed.

(** X5.  The record a committed merge keeps carries the smallest identity
    key of the records that share the title and the year; the keys it
    reports as duplicates are those of all the others, in ascending
    order. *)
Theorem survivor_is_smallest (t y : option string) w p dups k a c w' :
  mergeDuplicates t y w = (Ok (Merged p dups k a c), w') ->
  exists title year,
    t = Some title /\ y = Some year
    /\ Permutation (p :: dups)
         (map Movie.movieId
            (filter (by_title_year (template title year) (parseInt_string year))
               (movies (db w))))
    /\ Forall (fun d => (p <= d)%Z) dups
    /\ ascending dups.
Proof.
  intros H.
  apply merge_Merged in H
    as (title & year & primary & duplicates & -> & -> & _ & _ & Hg & _
        & -> & -> & _).
  exists title, year. split; [reflexivity|]. split; [reflexivity|].
  pose proof (sort_by_movieId_ascending
                (filter (by_title_year (template title year)
                           (parseInt_string year)) (movies (db w)))) as Hs.
  unfold group in Hg. rewrite Hg in Hs. simpl in Hs. destruct Hs as (Hp & Hd).
  split; [|now split].
  change (Movie.movieId primary :: map Movie.movieId duplicates)
    with (map Movie.movieId (primary :: duplicates)).
  rewrite <- Hg. apply Permutation_map, sort_by_movieId_perm.
Qed.

Lemma is_in_spec (ids : list Z) (z : Z) : is_in ids z = true <-> In z ids.
Proof.
  unfold is_in. rewrite existsb_exists. split.
  - intros (x & Hx & E). apply Z.eqb_eq in E. now subst.
  - intros H. exists z. split; [exact H | apply Z.eqb_refl].
Qed.

(** X6.  Conservation, as the merge has it.  The identity keys of [movies]
    and the [_id]s of [ratings] being unique, a committed merge leaves the
    survivor with its own rating events and those of every duplicate, each
    once.  No event is lost, added or changed in value; the events of other
    entities stay as they were; no event is left bound to a deleted
    duplicate; and the record of the survivor holds the count of its events
    and their mean, not rounded. *)
Theorem merge_conserves_events (t y : option string) w p dups k a c w' :
  NoDup (map Rating._id (ratings (db w))) ->
  NoDup (map Movie.movieId (movies (db w))) ->
  mergeDuplicates t y w = (Ok (Merged p dups k a c), w') ->
  List.length (bound (db w') p)
  = (List.length (bound (db w) p)
     + list_sum (map (fun d => List.length (bound (db w) d)) dups))%nat
  /\ map Rating._id (ratings (db w')) = map Rating._id (ratings (db w))
  /\ map Rating.rating (ratings (db w')) = map Rating.rating (ratings (db w))
  /\ (forall r, In r (ratings (db w)) -> ~ In (Rating.movieId r) dups ->
        In r (ratings (db w')))
  /\ (forall r, In r (ratings (db w')) -> ~ In (Rating.movieId r) dups)
  /\ k = list_sum (map (fun d => List.length (bound (db w) d)) dups)
  /\ (exists mv, entity (db w') p = Some mv
                 /\ stats mv = merge_recalculate (bound (db w') p)).
Proof.
  intros Hr Hm H.
  destruct (merge_conserves _ _ _ _ _ _ _ _ _ Hr Hm H)
    as (Hlen & Hids & Hvals & Hkeep & Hac & (mv & Hent & Hst)).
  apply merge_Merged in H
    as (title & year & primary & duplicates & _ & _ & _ & _ & Hg & _
        & -> & -> & -> & _ & Hdb & _).
  set (p := Movie.movieId primary) in *.
  set (dups := map Movie.movieId duplicates) in *.
  pose proof (group_NoDup (db w) title year Hm) as Hnd.
  rewrite Hg in Hnd. simpl in Hnd. fold p dups in Hnd.
  inversion Hnd as [|? ? Hp Hdups]; subst.
  repeat split; trivial.
  - intros r Hin Hno. apply Hkeep; [exact Hin|].
    destruct (is_in dups (Rating.movieId r)) eqn:E; trivial.
    apply is_in_spec in E. contradiction.
  - intros r Hin Hd. rewrite Hdb, merged_ratings in Hin.
    rewrite (reassigned_ratings _ p dups Hr) in Hin.
    apply in_map_iff in Hin as (x & <- & _). unfold rebound in Hd.
    destruct (is_in dups (Rating.movieId x)) eqn:E; simpl in Hd.
    + contradiction.
    + apply is_in_spec in Hd. congruence.
  - now apply to_move_sum.
  - exists mv. split; [exact Hent|]. now rewrite Hst.
Qed.

Lemma identity_after_update (p : Z) (dups : list Z) avg cnt (l : list Movie.t) :
  map identity
    (filter (fun mv => negb (is_in dups (Movie.movieId mv)))
       (update_first (fun mv => Z.eqb (Movie.movieId mv) p)
          (set_stats avg cnt) l))
  = map identity (filter (fun mv => negb (is_in dups (Movie.movieId mv))) l).
Proof.
  induction l as [|z l IH]; simpl; [reflexivity|].
  destruct (Z.eqb (Movie.movieId z) p); simpl.
  - now destruct (is_in dups (Movie.movieId z)).
  - destruct (is_in dups (Movie.movieId z)); simpl; now rewrite IH.
Qed.

(** X7.  The identity keys of [movies] being unique, a committed merge
    removes the duplicates of the group and no other record: every record
    it removes shares the title and the year, every other record but the
    survivor is still there, untouched, and the survivor differs from what
    it was in its statistics only. *)
Theorem merge_removes_only_duplicates (t y : option string) w p dups k a c w' :
  NoDup (map Movie.movieId (movies (db w))) ->
  mergeDuplicates t y w = (Ok (Merged p dups k a c), w') ->
  exists title year,
    t = Some title /\ y = Some year
    /\ (forall mv, In mv (movies (db w)) -> In (Movie.movieId mv) dups ->
          by_title_year (template title year) (parseInt_string year) mv = true)
    /\ (forall mv, In mv (movies (db w)) ->
          Movie.movieId mv <> p -> ~ In (Movie.movieId mv) dups ->
          In mv (movies (db w')))
    /\ map identity (movies (db w'))
       = map identity
           (filter (fun mv => negb (is_in dups (Movie.movieId mv)))
              (movies (db w)))
    /\ (List.length (movies (db w')) + List.length dups
        = List.length (movies (db w)))%nat.
Proof.
  intros Hm H.
  apply merge_Merged in H
    as (title & year & primary & duplicates & -> & -> & _ & _ & Hg & _
        & -> & -> & _ & _ & Hdb & _).
  set (p := Movie.movieId primary) in *.
  set (dups := map Movie.movieId duplicates) in *.
  set (P := by_title_year (template title year) (parseInt_string year)).
  exists title, year. split; [reflexivity|]. split; [reflexivity|].
  destruct (merged_movies (db w) p dups) as (avg & cnt & Hmv).
  rewrite Hdb, Hmv.
  assert (Hperm : Permutation (primary :: duplicates) (filter P (movies (db w)))).
  { rewrite <- Hg. apply sort_by_movieId_perm. }
  assert (Hgroup : forall mv, In mv (movies (db w)) ->
            In (Movie.movieId mv) dups -> In mv duplicates).
  { intros mv Hin Hd. unfold dups in Hd.
    apply in_map_iff in Hd as (d & Ed & Hd).
    assert (Hdin : In d (movies (db w))).
    { assert (Hd' : In d (filter P (movies (db w))))
        by (apply (Permutation_in _ Hperm); now right).
      now apply filter_In in Hd' as (Hd' & _). }
    assert (d = mv); [|now subst].
    clear - Hm Hin Hdin Ed. induction (movies (db w)) as [|z l IH]; [contradiction|].
    simpl in Hm. inversion Hm as [|? ? Hz Hl]; subst.
    destruct Hin as [->|Hin], Hdin as [->|Hdin]; trivial.
    - exfalso. apply Hz. rewrite <- Ed. now apply in_map.
    - exfalso. apply Hz. rewrite Ed. now apply in_map.
    - now apply IH. }
  split; [|split; [|split]].
  - intros mv Hin Hd.
    assert (Hf : In mv (filter P (movies (db w)))).
    { apply (Permutation_in _ Hperm). right. now apply Hgroup. }
    now apply filter_In in Hf as (_ & Hf).
  - intros mv Hin Hp Hd. apply filter_In. split.
    + clear - Hin Hp. induction (movies (db w)) as [|z l IH]; [contradiction|].
      simpl. destruct Hin as [->|Hin].
      * destruct (Z.eqb_spec (Movie.movieId mv) p); [contradiction | now left].
      * destruct (Z.eqb (Movie.movieId z) p); right; [exact Hin | now apply IH].
    + destruct (is_in dups (Movie.movieId mv)) eqn:E; trivial.
      apply is_in_spec in E. contradiction.
  - apply identity_after_update.
  - rewrite <- (length_map identity), identity_after_update, length_map.
    assert (Hcount : List.length (filter (fun mv => is_in dups (Movie.movieId mv))
                                    (movies (db w))) = List.length dups).
    { unfold dups. rewrite length_map. apply Permutation_length.
      apply NoDup_Permutation.
      - apply NoDup_filter. eapply NoDup_map_inv. exact Hm.
      - pose proof (group_NoDup (db w) title year Hm) as Hnd.
        rewrite Hg in Hnd. simpl in Hnd. inversion Hnd; subst.
        eapply NoDup_map_inv. eassumption.
      - intros mv. rewrite filter_In, is_in_spec. split.
        + intros (Hin & Hd). now apply Hgroup.
        + intros Hd. split.
          * assert (Hf : In mv (filter P (movies (db w))))
              by (apply (Permutation_in _ Hperm); now right).
            now apply filter_In in Hf as (Hf & _).
          * now apply in_map. }
    rewrite <- Hcount.
    clear. induction (movies (db w)) as [|z l IH]; simpl; [reflexivity|].
    destruct (is_in dups (Movie.movieId z)); simpl; lia.
Qed.

Lemma bind_step {A B : Type} (c : M A) (k : A -> M B) w a w1 :
  c w = (Ok a, w1) -> (x <- c ;; k x) w = k a w1.
Proof. unfold bind. now intros ->. Qed.

Lemma merge_callback_nofault (primary : Movie.t) (dups : list Z) w :
  fuse w = None ->
  exists k a c,
    merge_callback primary dups w
    = (Ok (k, a, c),
       mkWorld (merged (db w) (Movie.movieId primary) dups) (txn w) None
         (next_oid w)).
Proof.
  intros Hf. unfold merge_callback, merged, reassigned.
  unfold ratings_find at 1.
  rewrite (bind_step _ _ _ _ _ (query_nofault _ _ Hf)).
  fold (to_move (db w) dups).
  set (p := Movie.movieId primary).
  set (w2 := mkWorld (reassigned (db w) p dups) (txn w) None (next_oid w)).
  assert (H2 : (if (0 <? List.length (to_move (db w) dups))%nat
                then ratings_bulkWrite None
                       (map (fun rating => SetRatingMovieId (Rating._id rating) p)
                          (to_move (db w) dups))
                else ret tt) w = (Ok tt, w2)
               \/ (reassigned (db w) p dups = db w
                   /\ (if (0 <? List.length (to_move (db w) dups))%nat
                       then ratings_bulkWrite None
                              (map (fun rating => SetRatingMovieId (Rating._id rating) p)
                                 (to_move (db w) dups))
                       else ret tt) w = (Ok tt, w))).
  { unfold w2, reassigned. destruct (0 <? _)%nat.
    - left. unfold ratings_bulkWrite. now rewrite (submit_nofault _ _ Hf).
    - right. now split. }
  assert (Rest : forall w3, fuse w3 = None -> db w3 = reassigned (db w) p dups ->
            txn w3 = txn w -> next_oid w3 = next_oid w ->
            exists a c,
              (allRatings <-
                 ratings_find None (fun r => (Rating.movieId r =? p)%Z) ;;
               (let (averageRating, ratingCount) := merge_recalculate allRatings in
                movies_updateOne None p averageRating ratingCount ;;
                movies_deleteMany None dups ;;
                ret (List.length (to_move (db w) dups), averageRating, ratingCount)))
                w3
              = (Ok (List.length (to_move (db w) dups), a, c),
                 mkWorld
                   (let (averageRating, ratingCount) :=
                      merge_recalculate (bound (reassigned (db w) p dups) p) in
                    apply_write (DeleteMovies dups)
                      (apply_write (SetMovieStats p averageRating ratingCount)
                         (reassigned (db w) p dups)))
                   (txn w) None (next_oid w))).
  { intros w3 F3 D3 T3 O3. unfold ratings_find.
    rewrite (bind_step _ _ _ _ _ (query_nofault _ _ F3)).
    rewrite D3. fold (bound (reassigned (db w) p dups) p).
    destruct (merge_recalculate _) as [avg cnt]. exists avg, cnt.
    unfold movies_updateOne, movies_deleteMany.
    rewrite (bind_step _ _ _ _ _ (submit_nofault _ _ F3)).
    erewrite bind_step by (apply submit_nofault; reflexivity).
    unfold ret. simpl. now rewrite D3, T3, O3. }
  destruct H2 as [H2|(E & H2)].
  - rewrite (bind_step _ _ _ _ _ H2).
    destruct (Rest w2) as (a & c & ->); try reflexivity. now do 3 eexists.
  - rewrite (bind_step _ _ _ _ _ H2).
    destruct (Rest w Hf) as (a & c & ->); try reflexivity; [now symmetry|].
    now do 3 eexists.
Qed.

(** X8.  With no fault injected, what a run on a title and a year reports
    is decided by the number of records that carry them: fewer than two,
    and it reports that there are no duplicates and leaves the world as
    it is; two or more, and it reports a merge, never an abort, and the
    store is the one the merge makes. *)
Theorem merge_reports_by_group_size (title year : string) w :
  fuse w = None -> title <> ""%string -> year <> ""%string ->
  ((List.length (group (db w) title year) < 2)%nat
   /\ mergeDuplicates (Some title) (Some year) w = (Ok NoOp, w))
  \/ ((2 <= List.length (group (db w) title year))%nat
      /\ exists primary duplicates k a c,
           group (db w) title year = primary :: duplicates
           /\ mergeDuplicates (Some title) (Some year) w
              = (Ok (Merged (Movie.movieId primary)
                       (map Movie.movieId duplicates) k a c),
                 mkWorld
                   (merged (db w) (Movie.movieId primary)
                      (map Movie.movieId duplicates))
                   None None (next_oid w))).
Proof.
  intros Hf Ht Hy. unfold mergeDuplicates.
  destruct (String.eqb_spec title ""); [contradiction|].
  destruct (String.eqb_spec year ""); [contradiction|].
  simpl. unfold locate, movies_find_sorted.
  rewrite (bind_step _ _ _ _ _ (query_nofault _ _ Hf)).
  fold (group (db w) title year).
  destruct (Nat.ltb_spec (List.length (group (db w) title year)) 2) as [Hlt|Hge].
  - left. now split.
  - right. split; [exact Hge|].
    destruct (group (db w) title year) as [|primary duplicates]; [simpl in Hge; lia|].
    destruct (merge_callback_nofault primary (map Movie.movieId duplicates)
                (mkWorld (db w) (Some []) (fuse w) (next_oid w)) Hf)
      as (k & a & c & Hcb).
    exists primary, duplicates, k, a, c. split; [reflexivity|].
    unfold startSession, endSession, bind, ret, try_catch, withTransaction.
    rewrite Hcb. reflexivity.
Qed.

(** ** The reading handlers *)

Lemma insert_by_timestamp_perm (r : Rating.t) (l : list Rating.t) :
  Permutation (insert_by_timestamp r l) (r :: l).
Proof.
  induction l as [|x l IH]; simpl; [reflexivity|].
  destruct (_ <=? _)%Z; [reflexivity|].
  rewrite IH. apply perm_swap.
Qed.

Lemma sort_by_timestamp_desc_perm (l : list Rating.t) :
  Permutation (sort_by_timestamp_desc l) l.
Proof.
  induction l as [|x l IH]; simpl; [reflexivity|].
  rewrite insert_by_timestamp_perm. now constructor.
Qed.

Lemma insert_by_timestamp_sorted (r : Rating.t) (l : list Rating.t) :
  newest_first l -> newest_first (insert_by_timestamp r l).
Proof.
  induction l as [|x l IH]; simpl; intros H.
  - split; [constructor | exact I].
  - destruct H as (Hx & Hl).
    destruct (Z.leb_spec (Rating.timestamp x) (Rating.timestamp r)) as [Hle|Hgt];
      simpl.
    + split; [|now split]. constructor; [exact Hle|].
      eapply Forall_impl; [|exact Hx]. simpl. intros. lia.
    + split; [|now apply IH].
      apply Forall_forall. intros z Hz.
      apply (Permutation_in _ (insert_by_timestamp_perm r l)) in Hz.
      destruct Hz as [<-|Hz]; [lia|].
      rewrite Forall_forall in Hx. now apply Hx.
Qed.

Lemma sort_by_timestamp_desc_sorted (l : list Rating.t) :
  newest_first (sort_by_timestamp_desc l).
Proof.
  induction l as [|x l IH]; simpl; [exact I|].
  now apply insert_by_timestamp_sorted.
Qed.

Lemma newest_first_app (a b : list Rating.t) :
  newest_first (a ++ b) ->
  newest_first a
  /\ forall x y, In x a -> In y b ->
       (Rating.timestamp y <= Rating.timestamp x)%Z.
Proof.
  induction a as [|z a IH]; simpl; intros H.
  - split; [exact I | contradiction].
  - destruct H as (Hz & Ha). destruct (IH Ha) as (Hs & Hab).
    rewrite Forall_app in Hz. destruct Hz as (Hza & Hzb).
    split; [now split|].
    intros x y [<-|Hx] Hy.
    + rewrite Forall_forall in Hzb. now apply Hzb.
    + now apply Hab.
Qed.

Lemma cursor_limit_split {A : Type} (n : Z) (l : list A) :
  exists rest,
    cursor_limit n l ++ rest = l
    /\ (n <> 0%Z -> (List.length (cursor_limit n l) <= Z.to_nat (Z.abs n))%nat).
Proof.
  unfold cursor_limit. destruct (Z.eqb_spec n 0) as [->|Hn].
  - exists []. split; [apply app_nil_r | contradiction].
  - exists (skipn (Z.to_nat (Z.abs n)) l). split; [apply firstn_skipn|].
    intros _. apply firstn_le_length.
Qed.

Lemma ratingsLimit_bounds (q : option string) :
  (ratingsLimit_of q <= 100)%Z /\ ratingsLimit_of q <> 0%Z
  /\ ratingsLimit_of None = 10%Z.
Proof.
  unfold ratingsLimit_of, or_default. split; [apply Z.le_min_r|].
  split; [|reflexivity].
  destruct (parseInt (query_value q)) as [z|]; [|discriminate].
  destruct (Z.eqb_spec z 0); [discriminate|]. lia.
Qed.

(** What an answer 200 of [GET /api/movies/:id] holds. *)
Lemma movie_details_200 (id : string) (q : option string) w d w' :
  movie_details id q w = (Ok (Details200 d), w') ->
  exists m,
    parseInt_string id = Some m
    /\ entity (db w) m = Some (d_movie d)
    /\ d_recentRatings d
       = cursor_limit (ratingsLimit_of q) (sort_by_timestamp_desc (bound (db w) m))
    /\ d_tags d
       = map Tag.tag
           (cursor_limit 20
              (filter (fun t => Z.eqb (Tag.movieId t) m) (tags (db w))))
    /\ d_links d
       = links_view (find (fun l => Z.eqb (Link.movieId l) m) (links (db w)))
    /\ db w' = db w.
Proof.
  unfold movie_details. intros H.
  apply bind_Ok in H as (r0 & w1 & Hb & H).
  apply try_catch_run in Hb as (r1 & E & Hb). injection E as <-.
  destruct r0 as [res|e]; apply ret_Ok in H as (E & <-); [subst res|discriminate].
  destruct (parseInt_string id) as [m|]; [|other_answer Hb].
  apply bind_Ok in Hb as (movie & w2 & Hfind & Hb).
  apply query_Ok in Hfind as (Hmovie & D2 & _).
  destruct movie as [mv|]; [|other_answer Hb].
  apply bind_Ok in Hb as (recent & w3 & Hrec & Hb).
  apply query_Ok in Hrec as (Hrec & D3 & _).
  apply bind_Ok in Hb as (tgs & w4 & Htags & Hb).
  apply query_Ok in Htags as (Htags & D4 & _).
  apply bind_Ok in Hb as (lnk & w5 & Hlnk & Hb).
  apply query_Ok in Hlnk as (Hlnk & D5 & _).
  apply ret_Ok in Hb as (E & <-). injection E as <-.
  exists m. simpl. rewrite Hrec, Htags, Hlnk, D5, D4, D3, D2.
  unfold entity, bound. now rewrite <- Hmovie.
Qed.

(** X10.  An answer 200 of [GET /api/movies/:id] holds the record of the
    identity key and its most recent rating events: they are bound to the
    key, newest first, and no rating event of the key that is left out is
    newer than one that is listed.  The limit asked for is cut at 100 from
    above only: a positive limit lists at most that many events, so at
    most 100, and 10 by default, while a negative one stands for its
    absolute value, which nothing bounds.  At most 20 tags are listed, and
    the store is as it was. *)
Theorem details_list_the_most_recent (id : string) (q : option string) w d w' :
  movie_details id q w = (Ok (Details200 d), w') ->
  exists m rest,
    parseInt_string id = Some m
    /\ entity (db w) m = Some (d_movie d)
    /\ Permutation (d_recentRatings d ++ rest) (bound (db w) m)
    /\ newest_first (d_recentRatings d)
    /\ (forall x y, In x (d_recentRatings d) -> In y rest ->
          (Rating.timestamp y <= Rating.timestamp x)%Z)
    /\ (List.length (d_recentRatings d)
        <= Z.to_nat (Z.abs (ratingsLimit_of q)))%nat
    /\ (ratingsLimit_of q <= 100)%Z
    /\ ((0 < ratingsLimit_of q)%Z ->
        (List.length (d_recentRatings d) <= 100)%nat)
    /\ (q = None -> (List.length (d_recentRatings d) <= 10)%nat)
    /\ (List.length (d_tags d) <= 20)%nat
    /\ db w' = db w.
Proof.
  intros H.
  apply movie_details_200 in H as (m & Hm & He & Hr & Ht & _ & D).
  destruct (ratingsLimit_bounds q) as (Hle & Hnz & _).
  destruct (cursor_limit_split (ratingsLimit_of q)
              (sort_by_timestamp_desc (bound (db w) m))) as (rest & Hsplit & Hlen).
  rewrite <- Hr in Hsplit, Hlen.
  pose proof (sort_by_timestamp_desc_sorted (bound (db w) m)) as Hs.
  rewrite <- Hsplit in Hs. apply newest_first_app in Hs as (Hs1 & Hs2).
  exists m, rest. repeat split; trivial.
  - rewrite Hsplit. apply sort_by_timestamp_desc_perm.
  - now apply Hlen.
  - intros Hpos. specialize (Hlen Hnz). lia.
  - intros ->. specialize (Hlen Hnz). exact Hlen.
  - rewrite Ht, length_map.
    change (cursor_limit 20 ?l) with (firstn 20 l).
    apply firstn_le_length.
Qed.

Lemma movie_details_nofault (id : string) (q : option string) w m mv :
  fuse w = None ->
  parseInt_string id = Some m ->
  entity (db w) m = Some mv ->
  exists d,
    movie_details id q w = (Ok (Details200 d), w)
    /\ d_movie d = mv
    /\ d_recentRatings d
       = cursor_limit (ratingsLimit_of q) (sort_by_timestamp_desc (bound (db w) m)).
Proof.
  intros Hf Hm He. unfold entity in He. unfold movie_details, try_catch.
  rewrite Hm. unfold movies_findOne.
  eexists. unfold bind at 1.
  rewrite (bind_step _ _ _ _ _ (query_nofault _ _ Hf)), He.
  rewrite (bind_step _ _ _ _ _ (query_nofault _ _ Hf)).
  rewrite (bind_step _ _ _ _ _ (query_nofault _ _ Hf)).
  rewrite (bind_step _ _ _ _ _ (query_nofault _ _ Hf)).
  unfold ret. split; [reflexivity|]. split; reflexivity.
Qed.

Lemma sort_newest_last (l : list Rating.t) (r : Rating.t) :
  (forall x, In x l -> (Rating.timestamp x < Rating.timestamp r)%Z) ->
  sort_by_timestamp_desc (l ++ [r]) = r :: sort_by_timestamp_desc l.
Proof.
  induction l as [|x l IH]; intros H; [reflexivity|].
  change (sort_by_timestamp_desc ((x :: l) ++ [r]))
    with (insert_by_timestamp x (sort_by_timestamp_desc (l ++ [r]))).
  rewrite IH.
  - simpl. destruct (Z.leb_spec (Rating.timestamp r) (Rating.timestamp x)) as [Hle|_];
      [|reflexivity].
    specialize (H x (or_introl eq_refl)). lia.
  - intros y Hy. apply H. now right.
Qed.

(** X11.  A rating that was answered 201 is read back by
    [GET /api/movies/:id] on the same id: the answer is 200, its record
    carries the statistics the submission returned, and, the events already
    bound to the entity being older than the new one, the new event is the
    first of the recent ratings. *)
Theorem submitted_rating_is_read_back (now : Z) (req : request)
  (q : option string) w r u w1 :
  rate now req w = (Ok (Status201 r u), w1) ->
  fuse w1 = None ->
  (forall x, In x (bound (db w) (u_movieId u)) ->
     (Rating.timestamp x < now / 1000)%Z) ->
  exists d,
    movie_details (params_id req) q w1 = (Ok (Details200 d), w1)
    /\ Movie.movieId (d_movie d) = u_movieId u
    /\ stats (d_movie d) = (u_averageRating u, u_ratingCount u)
    /\ hd_error (d_recentRatings d) = Some r.
Proof.
  intros H Hf Hold.
  pose proof (entity_after_rate _ _ _ _ _ _ H) as He.
  apply rate_201 in H
    as (m & uid & v & Hm & _ & _ & _ & _ & Hex & Hr & Hrs & _ & Hu & _).
  rewrite Hu in He, Hold.
  destruct (entity (db w) m) as [mv|] eqn:Hmv; [|contradiction].
  simpl in He.
  destruct (movie_details_nofault _ q _ _ _ Hf Hm He) as (d & Hd & Hdm & Hdr).
  exists d. split; [exact Hd|]. rewrite Hdm, Hu. split.
  - unfold entity in Hmv. apply find_some in Hmv as (_ & E).
    apply Z.eqb_eq in E. exact E.
  - split; [reflexivity|].
    rewrite Hdr. unfold bound. rewrite Hrs, filter_app. simpl.
    replace (Rating.movieId r =? m)%Z with true
      by (rewrite Hr; simpl; symmetry; apply Z.eqb_refl).
    rewrite sort_newest_last.
    + unfold cursor_limit.
      destruct (ratingsLimit_bounds q) as (_ & Hnz & _).
      destruct (Z.eqb_spec (ratingsLimit_of q) 0) as [E|_]; [contradiction|].
      destruct (Z.to_nat (Z.abs (ratingsLimit_of q))) eqn:En; [lia|reflexivity].
    + intros x Hx. rewrite Hr. simpl. now apply Hold.
Qed.

(** ** [GET /api/stats] *)

Lemma database_stats_nofault w :
  fuse w = None ->
  database_stats w
  = (Ok (Stats200
           (mkCounts (List.length (movies (db w))) (List.length (ratings (db w)))
              (List.length (tags (db w)))
              (List.length (distinct_users (ratings (db w)))))), w).
Proof.
  intros Hf. unfold database_stats, try_catch. unfold bind at 1.
  rewrite (bind_step _ _ _ _ _ (query_nofault _ _ Hf)).
  rewrite (bind_step _ _ _ _ _ (query_nofault _ _ Hf)).
  rewrite (bind_step _ _ _ _ _ (query_nofault _ _ Hf)).
  rewrite (bind_step _ _ _ _ _ (query_nofault _ _ Hf)).
  reflexivity.
Qed.

Lemma database_stats_200 w c w' :
  database_stats w = (Ok (Stats200 c), w') ->
  c = mkCounts (List.length (movies (db w))) (List.length (ratings (db w)))
        (List.length (tags (db w)))
        (List.length (distinct_users (ratings (db w))))
  /\ db w' = db w.
Proof.
  unfold database_stats. intros H.
  apply bind_Ok in H as (r0 & w1 & Hb & H).
  apply try_catch_run in Hb as (r1 & E & Hb). injection E as <-.
  destruct r0 as [res|e]; apply ret_Ok in H as (E & <-); [subst res|discriminate].
  apply bind_Ok in Hb as (a1 & w2 & H1 & Hb).
  apply query_Ok in H1 as (H1 & D1 & _).
  apply bind_Ok in Hb as (a2 & w3 & H2 & Hb).
  apply query_Ok in H2 as (H2 & D2 & _).
  apply bind_Ok in Hb as (a3 & w4 & H3 & Hb).
  apply query_Ok in H3 as (H3 & D3 & _).
  apply bind_Ok in Hb as (a4 & w5 & H4 & Hb).
  apply query_Ok in H4 as (H4 & D4 & _).
  apply ret_Ok in Hb as (E & <-). injection E as <-.
  rewrite H1, H2, H3, H4, D4, D3, D2, D1. now split.
Qed.

Lemma nodup_snoc_length (l : list Z) (u : Z) :
  List.length (nodup Z.eq_dec (l ++ [u]))
  = (List.length (nodup Z.eq_dec l) + (if in_dec Z.eq_dec u l then 0 else 1))%nat.
Proof.
  induction l as [|x l IH]; [reflexivity|].
  simpl app. simpl nodup.
  destruct (in_dec Z.eq_dec x (l ++ [u])) as [Hi|Hi];
    destruct (in_dec Z.eq_dec x l) as [Hl|Hl];
    simpl List.length; rewrite IH;
    destruct (in_dec Z.eq_dec u (x :: l)) as [Hu|Hu];
    destruct (in_dec Z.eq_dec u l) as [Hul|Hul];
    try lia; exfalso; rewrite ?in_app_iff in *; simpl in *;
    intuition (subst; auto).
Qed.

(** X12.  What [GET /api/stats] counts: never more users than rating
    events, and no user unless there is a rating event; the store is as it
    was. *)
Theorem stats_users_at_most_ratings w c w' :
  database_stats w = (Ok (Stats200 c), w') ->
  (c_users c <= c_ratings c)%nat
  /\ (c_ratings c = 0%nat -> c_users c = 0%nat)
  /\ (c_ratings c <> 0%nat -> c_users c <> 0%nat)
  /\ db w' = db w.
Proof.
  intros H. apply database_stats_200 in H as (-> & D). simpl.
  unfold distinct_users.
  assert (L : (List.length (nodup Z.eq_dec (map Rating.userId (ratings (db w))))
               <= List.length (ratings (db w)))%nat).
  { rewrite <- (length_map Rating.userId (ratings (db w))).
    apply NoDup_incl_length; [apply NoDup_nodup|].
    intros x Hx. now apply nodup_In in Hx. }
  repeat split; trivial.
  - intros E. lia.
  - destruct (ratings (db w)) as [|x l]; [easy|]. intros _ E.
    apply length_zero_iff_nil in E.
    assert (Hx : In (Rating.userId x) (nodup Z.eq_dec (map Rating.userId (x :: l))))
      by (apply nodup_In; now left).
    rewrite E in Hx. contradiction.
Qed.

(** X13.  The statistics before and after a rating answered 201: one more
    rating event, as many records and tags, and one more user exactly when
    the rater had no rating event before. *)
Theorem stats_after_submission (now : Z) (req : request) w r u w1 c c1 w' w1' :
  database_stats w = (Ok (Stats200 c), w') ->
  rate now req w = (Ok (Status201 r u), w1) ->
  database_stats w1 = (Ok (Stats200 c1), w1') ->
  c_movies c1 = c_movies c
  /\ c_ratings c1 = S (c_ratings c)
  /\ c_tags c1 = c_tags c
  /\ c_users c1
     = (c_users c
        + (if in_dec Z.eq_dec (Rating.userId r) (map Rating.userId (ratings (db w)))
           then 0 else 1))%nat.
Proof.
  intros H0 H H1.
  apply database_stats_200 in H0 as (-> & _).
  apply database_stats_200 in H1 as (-> & _).
  apply rate_201 in H
    as (m & uid & v & _ & _ & _ & _ & _ & _ & Hr & Hrs & _ & _ & Hmv & Ht & _).
  simpl. rewrite Hrs, Ht, Hmv. unfold distinct_users.
  rewrite map_app. simpl map. rewrite nodup_snoc_length, length_app. simpl.
  repeat split; try lia.
  clear. induction (movies (db w)) as [|x l IH]; simpl; [reflexivity|].
  destruct (_ =? _)%Z; simpl; congruence.
Qed.

(** ** [GET /api/movies] *)

Lemma insert_sorted_perm (le : Movie.t -> Movie.t -> bool) (mv : Movie.t)
  (l : list Movie.t) :
  Permutation (insert_sorted le mv l) (mv :: l).
Proof.
  induction l as [|x l IH]; simpl; [reflexivity|].
  destruct (le mv x); [reflexivity|].
  rewrite IH. apply perm_swap.
Qed.

Lemma sort_movies_perm (f : sort_field) (asc : bool) (l : list Movie.t) :
  Permutation (sort_movies f asc l) l.
Proof.
  unfold sort_movies. induction l as [|x l IH]; simpl; [reflexivity|].
  rewrite insert_sorted_perm. now constructor.
Qed.





(** *** The order of a page *)



Lemma ascii_compare_refl (c : ascii) : Ascii.compare c c = Eq.
Proof. unfold Ascii.compare. apply N.compare_refl. Qed.








Section ListingProperties.

Variable regex_i : string -> string -> bool.
Variable has_genre : string -> Movie.t -> bool.

(** What an answer 200 of [GET /api/movies] holds. *)
Lemma list_movies_200 (q : list_query) w found pg w' :
  list_movies regex_i has_genre q w = (Ok (List200 found pg), w') ->
  (0 <= offsetNum_of q)%Z
  /\ found
     = cursor_limit (limitNum_of q)
         (skipn (Z.to_nat (offsetNum_of q))
            (sort_movies (sortField_of (q_sort q)) (ascending_order (q_order q))
               (filter (list_filter regex_i has_genre q) (movies (db w)))))
  /\ p_total pg
     = List.length (filter (list_filter regex_i has_genre q) (movies (db w)))
  /\ p_limit pg = limitNum_of q
  /\ p_offset pg = offsetNum_of q
  /\ p_hasMore pg
     = (offsetNum_of q + limitNum_of q <? Z.of_nat (p_total pg))%Z
  /\ db w' = db w.
Proof.
  unfold list_movies. intros H.
  apply bind_Ok in H as (r0 & w1 & Hb & H).
  apply try_catch_run in Hb as (r1 & E & Hb). injection E as <-.
  destruct r0 as [res|e]; apply ret_Ok in H as (E & <-); [subst res|discriminate].
  apply bind_Ok in Hb as (fd & w2 & Hq & Hb).
  unfold query_or_reject in Hq.
  apply bind_Ok in Hq as (o & w3 & Hq & Hr).
  apply query_Ok in Hq as (Ho & D3 & _).
  destruct o as [x|]; [|discriminate].
  apply ret_Ok in Hr as (-> & <-).
  apply bind_Ok in Hb as (n & w4 & Hn & Hb).
  apply query_Ok in Hn as (Hn & D4 & _).
  apply ret_Ok in Hb as (E & <-). injection E as <- <-.
  simpl. rewrite D3 in Hn. rewrite <- Hn.
  unfold cursor_skip in Ho.
  destruct (Z.ltb_spec (offsetNum_of q) 0) as [|Hoff]; [discriminate|].
  simpl in Ho. injection Ho as ->.
  repeat split; trivial. congruence.
Qed.


(** X15.  With a limit of at least 1, [hasMore] says whether records that
    pass the filter are left after the page: it is true exactly when the
    offset plus the number of records of the page is below the total. *)
Theorem hasMore_tells_what_is_left (q : list_query) w found pg w' :
  list_movies regex_i has_genre q w = (Ok (List200 found pg), w') ->
  (1 <= p_limit pg)%Z ->
  p_hasMore pg = true
  <-> (p_offset pg + Z.of_nat (List.length found) < Z.of_nat (p_total pg))%Z.
Proof.
  intros H Hpos.
  pose proof (list_movies_200 _ _ _ _ _ H) as (Hoff & Hf & Ht & Hl & Ho & Hm & D).
  rewrite Hm, Ho. rewrite Hl in Hpos.
  assert (Hlen : List.length found
                 = Nat.min (Z.to_nat (limitNum_of q))
                     (p_total pg - Z.to_nat (offsetNum_of q))).
  { rewrite Hf. unfold cursor_limit.
    destruct (Z.eqb_spec (limitNum_of q) 0); [lia|].
    rewrite length_firstn, length_skipn, (Permutation_length (sort_movies_perm _ _ _)).
    rewrite <- Ht. now rewrite Z.abs_eq by lia. }
  rewrite Hlen, Z.ltb_lt. lia.
Qed.



End ListingProperties.

(** ** The rating form and the handler *)

(** Why a call was answered 400. *)
Lemma rate_400 (now : Z) (req : request) w msg w' :
  rate now req w = (Ok (Status400 msg), w') ->
  (parseInt_string (params_id req) = None /\ msg = "Invalid movie ID"%string)
  \/ ((truthy (body_userId req) = false \/ parseInt (body_userId req) = None)
      /\ msg = "Valid userId is required"%string)
  \/ ((truthy (body_rating req) = false
       \/ parseFloat (body_rating req) = NaN)
      /\ msg = "Valid rating is required"%string)
  \/ (outside (parseFloat (body_rating req))
      /\ parseFloat (body_rating req) <> NaN
      /\ msg = "Rating must be between 0.5 and 5.0"%string).
Proof.
  unfold rate. intros H.
  apply bind_Ok in H as (r0 & w1 & Hb & H).
  apply try_catch_run in Hb as (r1 & E & Hb). injection E as <-.
  destruct r0 as [res|e]; apply ret_Ok in H as (E & <-); [subst res|discriminate].
  destruct (parseInt_string (params_id req)) as [m|] eqn:Hm.
  2: { apply ret_Ok in Hb as (E & _). injection E as <-. now left. }
  destruct (truthy (body_userId req)) eqn:Htu.
  2: { apply ret_Ok in Hb as (E & _). injection E as <-. right; left. tauto. }
  destruct (parseInt (body_userId req)) as [uid|] eqn:Hu.
  2: { apply ret_Ok in Hb as (E & _). injection E as <-. right; left. tauto. }
  destruct (negb (truthy (body_rating req)) || isNaN (parseFloat (body_rating req)))
    eqn:Hv.
  { apply ret_Ok in Hb as (E & _). injection E as <-. right; right; left.
    split; [|reflexivity].
    apply orb_true_iff in Hv as [Hv|Hv].
    - left. now apply negb_true_iff in Hv.
    - right. now destruct (parseFloat (body_rating req)). }
  destruct (num_lt (parseFloat (body_rating req)) (Num (1 # 2))
            || num_gt (parseFloat (body_rating req)) (Num 5)) eqn:Hr.
  { apply ret_Ok in Hb as (E & _). injection E as <-. right; right; right.
    apply orb_false_elim in Hv as (_ & Hnan).
    split; [|split; [|reflexivity]].
    - unfold outside. destruct (parseFloat (body_rating req)) as [|s|q];
        [exact I | exact I |].
      apply orb_true_iff in Hr as [Hr|Hr]; unfold num_gt, num_lt in Hr.
      + left. destruct (q ?= 1 # 2)%Q eqn:C; try discriminate.
        now apply Qlt_alt.
      + right. destruct (5 ?= q)%Q eqn:C; try discriminate.
        now apply Qlt_alt.
    - now destruct (parseFloat (body_rating req)). }
  exfalso.
  apply bind_Ok in Hb as (movie & w2 & _ & Hb).
  destruct movie as [mv|]; [| other_answer Hb].
  apply bind_Ok in Hb as (nr & w3 & _ & Hb).
  apply bind_Ok in Hb as (all & w4 & _ & Hb).
  destruct (recalculate all) as [avg cnt].
  apply bind_Ok in Hb as ([] & w5 & _ & Hb).
  other_answer Hb.
Qed.

Lemma parseInt_number_finite (q : Q) : parseInt_number (Num q) <> None.
Proof.
  unfold parseInt_number.
  destruct (Qzero q); [discriminate|].
  destruct (Qle_bool _ _); [discriminate|].
  destruct (Qle_bool _ _); discriminate.
Qed.

(** What the form sends. *)
Lemma form_submit_Some (id uv rv : string) (req : request) :
  form_submit id uv rv = Some req ->
  params_id req = id
  /\ ((exists q, body_userId req = JNumber (Num q) /\ Qzero q = false)
      \/ (body_userId req = JNull
          /\ exists s, number_of_int (parseInt_string uv) = Inf s))
  /\ ((exists q, body_rating req = JNumber (Num q) /\ Qzero q = false
                 /\ parseFloat_string rv = Num q)
      \/ (exists s, body_rating req = JNull /\ parseFloat_string rv = Inf s)).
Proof.
  unfold form_submit. cbn [parseInt parseFloat].
  destruct (number_of_int (parseInt_string uv)) as [|s|p] eqn:Hu;
    cbn [truthy negb orb]; [discriminate| |].
  - destruct (parseFloat_string rv) as [|s'|q]; cbn [truthy negb orb];
      [discriminate| |].
    + intros E. injection E as <-. cbn. split; [reflexivity|].
      split; [right; split; [reflexivity | now exists s] | right; now exists s'].
    + destruct (Qzero q) eqn:Hq; cbn; [discriminate|].
      intros E. injection E as <-. cbn. split; [reflexivity|].
      split; [right; split; [reflexivity | now exists s] | left; now exists q].
  - destruct (Qzero p) eqn:Hp; cbn [negb orb]; [discriminate|].
    destruct (parseFloat_string rv) as [|s'|q]; cbn [truthy negb orb];
      [discriminate| |].
    + intros E. injection E as <-. cbn. split; [reflexivity|].
      split; [left; now exists p | right; now exists s'].
    + destruct (Qzero q) eqn:Hq; cbn; [discriminate|].
      intros E. injection E as <-. cbn. split; [reflexivity|].
      split; [left; now exists p | left; now exists q].
Qed.

(** X18.  What the rating form sends is refused for its userId only when
    the integer read from the form is too large for a double: it is then
    [Infinity], which the form takes for a value and sends as [null].  It
    is refused for its rating only when the value read from the form lies
    outside the interval from 0.5 to 5.0, or is infinite, in which case the
    body carries [null] as well. *)
Theorem form_requests_have_a_valid_rater (id uv rv : string) (now : Z)
  (req : request) w msg w' :
  form_submit id uv rv = Some req ->
  rate now req w = (Ok (Status400 msg), w') ->
  (msg = "Valid userId is required"%string ->
     exists s, number_of_int (parseInt (JString uv)) = Inf s)
  /\ (msg = "Valid rating is required"%string ->
        exists s, parseFloat_string rv = Inf s)
  /\ (msg = "Rating must be between 0.5 and 5.0"%string ->
        outside (parseFloat_string rv)).
Proof.
  intros Hf H.
  apply form_submit_Some in Hf as (Hid & Hu & Hr).
  apply rate_400 in H as [(_ & ->)|[(Hchk & ->)|[(Hchk & ->)|(Hout & _ & ->)]]].
  - repeat split; discriminate.
  - split; [|split; discriminate]. intros _.
    destruct Hu as [(q & Hb & Hz)|(_ & Hinf)]; [|exact Hinf].
    exfalso. rewrite Hb in Hchk. destruct Hchk as [Hchk|Hchk].
    + simpl in Hchk. rewrite Hz in Hchk. discriminate.
    + now apply parseInt_number_finite in Hchk.
  - split; [discriminate|]. split; [|discriminate]. intros _.
    destruct Hr as [(q & Hb & Hz & Hq)|(s & Hb & Hq)]; [|now exists s].
    exfalso. rewrite Hb in Hchk. simpl in Hchk. rewrite Hz in Hchk.
    destruct Hchk; discriminate.
  - split; [discriminate|]. split; [discriminate|]. intros _.
    destruct Hr as [(q & Hb & Hz & Hq)|(s & Hb & Hq)].
    + rewrite Hb in Hout. simpl in Hout. now rewrite Hq.
    + rewrite Hq. exact I.
Qed.

(** ** The import: statistics *)

Lemma same_key_eq (a b : option Z) : same_key a b = true <-> a = b.
Proof.
  destruct a as [x|], b as [y|]; simpl; split; intros H;
    try discriminate; try reflexivity.
  - apply Z.eqb_eq in H. now subst.
  - injection H as ->. apply Z.eqb_refl.
Qed.

Lemma stats_get_add (k k' : option Z) (x : number) (m : stats_map) :
  stats_get k (stats_add k' x m)
  = if same_key k' k then
      match stats_get k m with
      | Some (sum, count) => Some (num_add sum x, S count)
      | None => Some (num_add (Num 0%Q) x, 1%nat)
      end
    else stats_get k m.
Proof.
  induction m as [|[k2 [s c]] m IH]; simpl.
  - destruct (same_key k' k); reflexivity.
  - destruct (same_key k2 k') eqn:E2; simpl.
    + apply same_key_eq in E2. subst k2.
      destruct (same_key k' k); reflexivity.
    + destruct (same_key k2 k) eqn:E3; [|exact IH].
      apply same_key_eq in E3. subst k2.
      destruct (same_key k' k) eqn:E4; [|reflexivity].
      apply same_key_eq in E4. subst k'.
      assert (T : same_key k k = true) by now apply same_key_eq.
      congruence.
Qed.

(** The values of the ratings of a key, in the order of the file. *)
Lemma stats_get_fold (k : option Z) (ratings : list ParsedRating.t) (m : stats_map) :
  let values :=
    map ParsedRating.rating
      (filter (fun r => same_key (ParsedRating.movieId r) k) ratings) in
  stats_get k
    (fold_left
       (fun m r => stats_add (ParsedRating.movieId r) (ParsedRating.rating r) m)
       ratings m)
  = match stats_get k m, values with
    | Some (sum, count), _ =>
        Some (fold_left num_add values sum, (count + List.length values)%nat)
    | None, [] => None
    | None, _ =>
        Some (fold_left num_add values (Num 0%Q), List.length values)
    end.
Proof.
  revert m. induction ratings as [|r rs IH]; intros m; simpl.
  - destruct (stats_get k m) as [[s c]|]; [|reflexivity].
    now rewrite Nat.add_0_r.
  - rewrite IH, stats_get_add.
    destruct (same_key (ParsedRating.movieId r) k); simpl.
    + destruct (stats_get k m) as [[s c]|]; simpl; [|reflexivity].
      now rewrite Nat.add_succ_r.
    + reflexivity.
Qed.

(** X19.  The statistics of the import are those of the submission
    handler.  [calculateMovieStats] leaves a movie that no rating of the
    file refers to as it is; to any other it gives the count of the ratings
    that refer to it and the average, rounded to two decimals, that
    [recalculate] gives for rating events of the same values in the same
    order.  Identity key, title, year and genres are left as they are. *)
Theorem import_statistics_are_the_handlers (movies : list ParsedMovie.t)
  (ratings : list ParsedRating.t) :
  Forall2
    (fun movie movie' =>
       let values :=
         map ParsedRating.rating
           (filter
              (fun r => same_key (ParsedRating.movieId r)
                          (ParsedMovie.movieId movie)) ratings) in
       ParsedMovie.movieId movie' = ParsedMovie.movieId movie
       /\ ParsedMovie.title movie' = ParsedMovie.title movie
       /\ ParsedMovie.year movie' = ParsedMovie.year movie
       /\ ParsedMovie.genres movie' = ParsedMovie.genres movie
       /\ (values = [] -> movie' = movie)
       /\ forall events : list Rating.t,
            map Rating.rating events = values -> values <> [] ->
            (ParsedMovie.averageRating movie', ParsedMovie.ratingCount movie')
            = recalculate events)
    movies (calculateMovieStats movies ratings).
Proof.
  unfold calculateMovieStats, statsMap_of.
  induction movies as [|movie movies IH]; simpl; constructor; [|exact IH].
  rewrite stats_get_fold. simpl stats_get.
  destruct (map ParsedRating.rating _) as [|v vs] eqn:Hv.
  - repeat split; trivial. intros events _ Hn. now contradiction Hn.
  - simpl. repeat split; try discriminate.
    intros events He _. unfold recalculate.
    rewrite reduce_ratings_values, He.
    rewrite <- (length_map Rating.rating events), He. reflexivity.
Qed.

(** ** The import: batches *)

Lemma slice_batch {A : Type} (data : list A) (i B : Z) :
  (0 <= i)%Z -> (i < Z.of_nat (List.length data))%Z -> (1 <= B)%Z ->
  slice data i (Some (i + B)%Z)
  = firstn (Z.to_nat B) (skipn (Z.to_nat i) data).
Proof.
  intros Hi Hn HB. unfold slice, relative.
  destruct (Z.ltb_spec i 0) as [|_]; [lia|].
  destruct (Z.ltb_spec (i + B) 0) as [|_]; [lia|].
  rewrite (Nat.min_l (Z.to_nat i)) by lia.
  destruct (Nat.le_gt_cases (Z.to_nat (i + B)) (List.length data)) as [Hle|Hgt].
  - rewrite Nat.min_l by exact Hle. f_equal. lia.
  - rewrite Nat.min_r by lia.
    rewrite !firstn_all2; trivial; rewrite length_skipn; lia.
Qed.

Lemma insert_in_batches_run {A : Type} (B : Z) (data : list A) (fuel : nat) (i : Z) :
  (1 <= B)%Z -> (0 <= i)%Z ->
  (List.length data - Z.to_nat i < fuel)%nat ->
  exists batches,
    insert_in_batches fuel (Some B) data (Some i) = (batches, Completed)
    /\ List.concat batches = skipn (Z.to_nat i) data
    /\ Forall (fun b => (1 <= List.length b <= Z.to_nat B)%nat) batches.
Proof.
  intros HB. revert i. induction fuel as [|f IH]; intros i Hi Hf; [lia|].
  simpl. destruct (Z.ltb_spec i (Z.of_nat (List.length data))) as [Hlt|Hge].
  - rewrite (slice_batch _ _ _ Hi Hlt HB).
    destruct (IH (i + B)%Z) as (rest & Hrun & Hcat & Hsz); [lia | lia |].
    rewrite Hrun.
    assert (Hlen : (1 <= List.length
                           (firstn (Z.to_nat B) (skipn (Z.to_nat i) data))
                    <= Z.to_nat B)%nat).
    { rewrite length_firstn, length_skipn. lia. }
    destruct (firstn (Z.to_nat B) (skipn (Z.to_nat i) data)) as [|x b] eqn:Hb;
      [simpl in Hlen; lia|].
    eexists. split; [reflexivity|]. split.
    + change (List.concat ((x :: b) :: rest))
        with ((x :: b) ++ List.concat rest).
      rewrite Hcat, <- Hb.
      replace (Z.to_nat (i + B)) with (Z.to_nat B + Z.to_nat i)%nat by lia.
      rewrite <- skipn_skipn. apply firstn_skipn.
    + constructor; [exact Hlen | exact Hsz].
  - exists []. split; [reflexivity|]. split; [|constructor].
    simpl. symmetry. apply skipn_all2. lia.
Qed.

(** X20.  With a batch size of at least 1 the loop of inserts runs to its
    end: the batches it hands over are, in their order, the whole data,
    nothing twice and nothing left out, and each holds at least one
    document and at most the batch size. *)
Theorem batches_cover_the_data {A : Type} (B : Z) (data : list A) (fuel : nat) :
  (1 <= B)%Z -> (List.length data < fuel)%nat ->
  exists batches,
    insert_in_batches fuel (Some B) data (Some 0%Z) = (batches, Completed)
    /\ List.concat batches = data
    /\ Forall (fun b => (1 <= List.length b <= Z.to_nat B)%nat) batches.
Proof.
  intros HB Hf.
  destruct (insert_in_batches_run B data fuel 0 HB) as (bs & Hrun & Hcat & Hsz);
    [lia | simpl; lia |].
  exists bs. now repeat split.
Qed.

(** X21.  A batch size that is [NaN], zero or negative makes the import
    fail on data that is not empty: an insert is rejected before the data
    is covered, whatever time the loop is given. *)
Theorem bad_batch_size_is_rejected {A : Type} (B : option Z) (data : list A)
  (fuel : nat) :
  (forall b, B = Some b -> (b <= 0)%Z) ->
  data <> [] -> (2 <= fuel)%nat ->
  exists batches,
    insert_in_batches fuel B data (Some 0%Z) = (batches, Rejected)
    /\ (List.length (List.concat batches) < List.length data)%nat.
Proof.
  intros HB Hd Hf.
  destruct fuel as [|[|f]]; [lia | lia |].
  assert (Hn : (0 < List.length data)%nat) by (destruct data; simpl; [easy | lia]).
  destruct B as [b|].
  - specialize (HB b eq_refl).
    cbn [insert_in_batches].
    destruct (Z.ltb_spec 0 (Z.of_nat (List.length data))) as [_|]; [|lia].
    cbn [add_opt]. rewrite Z.add_0_l.
    destruct (slice data 0 (Some b)) as [|x batch] eqn:Hs.
    + exists []. split; [reflexivity | exact Hn].
    + assert (Hb : (b < 0)%Z /\ (0 < Z.of_nat (List.length data) + b)%Z).
      { assert (L : (0 < List.length (slice data 0 (Some b)))%nat)
          by (rewrite Hs; simpl; lia).
        unfold slice, relative in L. rewrite length_firstn, length_skipn in L.
        destruct (Z.ltb_spec b 0) as [Hneg|Hpos];
          destruct (Z.ltb_spec 0 0) as [|_]; lia. }
      destruct Hb as (Hneg & Hbig).
      destruct (Z.ltb_spec b (Z.of_nat (List.length data))) as [_|]; [|lia].
      assert (Hs2 : slice data b (Some (b + b)%Z) = []).
      { unfold slice, relative.
        destruct (Z.ltb_spec b 0) as [_|]; [|lia].
        destruct (Z.ltb_spec (b + b) 0) as [_|]; [|lia].
        replace (Z.to_nat (Z.max (Z.of_nat (List.length data) + (b + b)) 0)
                 - Z.to_nat (Z.max (Z.of_nat (List.length data) + b) 0))%nat
          with 0%nat by lia.
        reflexivity. }
      rewrite Hs2. exists [x :: batch]. split; [reflexivity|].
      change (List.concat [x :: batch]) with ((x :: batch) ++ []).
      rewrite app_nil_r, <- Hs.
      unfold slice, relative.
      destruct (Z.ltb_spec b 0) as [_|]; [|lia].
      rewrite length_firstn. simpl. lia.
  - cbn [insert_in_batches].
    destruct (Z.ltb_spec 0 (Z.of_nat (List.length data))) as [_|]; [|lia].
    cbn [add_opt]. unfold slice. simpl.
    exists []. split; [reflexivity | exact Hn].
Qed.

(** ** The summaries: batches *)

Lemma update_in_batches_run {A : Type} (rest batch : list A) :
  (List.length batch < BATCH_SIZE)%nat -> rest <> [] ->
  exists full last,
    update_in_batches rest batch = full ++ [last]
    /\ List.concat (update_in_batches rest batch) = batch ++ rest
    /\ Forall (fun b => List.length b = BATCH_SIZE) full
    /\ (1 <= List.length last <= BATCH_SIZE)%nat.
Proof.
  revert batch. induction rest as [|x r IH]; intros batch Hb Hr; [easy|].
  cbn [update_in_batches].
  assert (Hlen : List.length (batch ++ [x]) = S (List.length batch))
    by (rewrite length_app; simpl; lia).
  destruct (Nat.eqb_spec (List.length (batch ++ [x])) BATCH_SIZE) as [Hfull|Hnot];
    cbn [orb].
  - destruct r as [|y r'].
    + exists [], (batch ++ [x]). simpl. rewrite app_nil_r.
      repeat split; trivial; lia.
    + destruct (IH []) as (full & last & Hrun & Hcat & Hsz & Hl);
        [unfold BATCH_SIZE; simpl; lia | discriminate |].
      exists ((batch ++ [x]) :: full), last.
      split; [now rewrite Hrun|].
      split; [|split; [now constructor | exact Hl]].
      change (List.concat ((batch ++ [x]) :: update_in_batches (y :: r') []))
        with ((batch ++ [x]) ++ List.concat (update_in_batches (y :: r') [])).
      rewrite Hcat. now rewrite <- app_assoc.
  - destruct r as [|y r'].
    + exists [], (batch ++ [x]). simpl. rewrite app_nil_r.
      repeat split; trivial; lia.
    + destruct (IH (batch ++ [x])) as (full & last & Hrun & Hcat & Hsz & Hl);
        [lia | discriminate |].
      exists full, last. split; [exact Hrun|].
      split; [rewrite Hcat; now rewrite <- app_assoc|].
      split; [exact Hsz | exact Hl].
Qed.

(** X22.  The updates of the summaries go out in batches of 500, the last
    one holding what is left: every update is sent, once and in its order,
    and no batch is empty. *)
Theorem summaries_go_out_in_full_batches {A : Type} (summaries : list A) :
  List.concat (update_in_batches summaries []) = summaries
  /\ (summaries = [] -> update_in_batches summaries [] = [])
  /\ (summaries <> [] ->
        exists full last,
          update_in_batches summaries [] = full ++ [last]
          /\ Forall (fun b => List.length b = 500%nat) full
          /\ (1 <= List.length last <= 500)%nat).
Proof.
  destruct summaries as [|x r].
  - repeat split; trivial. intros H. now contradiction H.
  - destruct (update_in_batches_run (x :: r) []) as (full & last & Hrun & Hcat & Hsz & Hl);
      [unfold BATCH_SIZE; simpl; lia | discriminate |].
    split; [exact Hcat|]. split; [discriminate|].
    intros _. exists full, last. repeat split; trivial; apply Hl.
Qed.

(** ** The import: titles and years *)

Lemma chars_app (a b : string) : chars (a ++ b) = chars a ++ chars b.
Proof.
  unfold chars. induction a as [|c a IH]; simpl; [reflexivity|].
  now rewrite IH.
Qed.

Lemma parseInt_string_digits (d1 d2 : ascii) (r : string) :
  is_digit d1 = true -> is_digit d2 = true ->
  parseInt_string (String d1 (String d2 r)) <> None.
Proof.
  intros H1 H2. destruct (Ascii.eqb_spec d1 "0") as [->|N0].
  - destruct d2 as [[] [] [] [] [] [] [] []]; vm_compute in H2;
      try discriminate H2;
      unfold parseInt_string; simpl; destruct (take_digits digit r);
      discriminate.
  - remember (String d2 r) as rest eqn:E. clear E H2.
    destruct d1 as [[] [] [] [] [] [] [] []]; vm_compute in H1;
      try discriminate H1; try (now contradiction N0);
      unfold parseInt_string; simpl; destruct (take_digits digit rest);
      discriminate.
Qed.

Lemma parseInt_string_year (year : string) :
  is_year year = true -> parseInt_string year <> None.
Proof.
  unfold is_year.
  destruct year as [|d1 [|d2 [|d3 [|d4 [|d5 r]]]]]; simpl; try discriminate.
  intros H. apply andb_prop in H as (H & H4). apply andb_prop in H as (H & H3).
  apply andb_prop in H as (H1 & H2).
  now apply parseInt_string_digits.
Qed.

Lemma year_of_title_template (title year : string) :
  is_year year = true ->
  year_of_title (template title year) = parseInt_string year.
Proof.
  unfold is_year. intros H.
  destruct year as [|d1 [|d2 [|d3 [|d4 [|d5 r]]]]]; simpl in H; try discriminate.
  unfold year_of_title, template.
  change list_ascii_of_string with chars. rewrite !chars_app.
  change (chars " (") with [" "%char; "("%char].
  change (chars (String d1 (String d2 (String d3 (String d4 "")))))
    with [d1; d2; d3; d4].
  change (chars ")") with [")"%char].
  rewrite !rev_app_distr. simpl rev at 1 2 3. simpl app.
  cbv iota beta. rewrite H. reflexivity.
Qed.

Lemma parseMovies_years (data : list object) (movies : list ParsedMovie.t) :
  parseMovies data = Some movies ->
  Forall (fun movie =>
            ParsedMovie.year movie = year_of_title (ParsedMovie.title movie))
    movies.
Proof.
  revert movies. induction data as [|row data IH]; simpl; intros movies H.
  - injection H as <-. constructor.
  - destruct (obj_get "title" row) as [title|]; [|discriminate].
    destruct (parseMovies data) as [ms|]; [|discriminate].
    injection H as <-. constructor; [reflexivity | now apply IH].
Qed.

(** X23.  The import and the merge agree on a year of four digits: a
    movie that [parseMovies] read from a row titled "title (year)" is, once
    stored, a record that the lookup of the merge for that title and year
    selects.  A movie whose title does not end in four bracketed digits has
    no year, and no lookup of the merge selects its record. *)
Theorem imported_record_is_located (data : list object)
  (movies : list ParsedMovie.t) (movie : ParsedMovie.t) (m : Z) :
  parseMovies data = Some movies ->
  In movie movies ->
  (forall title year,
     ParsedMovie.title movie = template title year -> is_year year = true ->
     by_title_year (template title year) (parseInt_string year)
       (document movie m) = true)
  /\ (year_of_title (ParsedMovie.title movie) = None ->
      forall title year,
        by_title_year (template title year) (parseInt_string year)
          (document movie m) = false).
Proof.
  intros Hp Hin.
  pose proof (parseMovies_years _ _ Hp) as Hy.
  rewrite Forall_forall in Hy. specialize (Hy _ Hin).
  unfold by_title_year, document. simpl. rewrite Hy. split.
  - intros title year Ht Hyear. rewrite Ht, String.eqb_refl. simpl.
    rewrite (year_of_title_template _ _ Hyear).
    pose proof (parseInt_string_year _ Hyear) as Hn.
    destruct (parseInt_string year) as [y|]; [apply Z.eqb_refl | contradiction].
  - intros Hnone title year. rewrite Hnone.
    destruct (parseInt_string year); apply andb_false_r.
Qed.

(** ** The import: [parseCSV] *)



Lemma trim_end_idem (s : string) : trim_end (trim_end s) = trim_end s.
Proof.
  induction s as [|c r IH]; [reflexivity|].
  simpl. destruct (trim_end r) as [|a b] eqn:E.
  - destruct (is_space c) eqn:Hc; simpl; [reflexivity | now rewrite Hc].
  - change (trim_end (String c (String a b)))
      with (match trim_end (String a b) with
            | EmptyString =>
                if is_space c then EmptyString else String c EmptyString
            | r' => String c r'
            end).
    now rewrite IH.
Qed.

Lemma skip_space_head (s : string) :
  match skip_space s with
  | EmptyString => True
  | String c _ => is_space c = false
  end.
Proof.
  induction s as [|c r IH]; simpl; [exact I|].
  destruct (is_space c) eqn:Hc; [exact IH | exact Hc].
Qed.

Lemma skip_space_trim_end (s : string) :
  match s with
  | EmptyString => True
  | String c _ => is_space c = false
  end ->
  skip_space (trim_end s) = trim_end s.
Proof.
  destruct s as [|c r]; [reflexivity|]. intros Hc. simpl.
  destruct (trim_end r); rewrite ?Hc; simpl; now rewrite Hc.
Qed.

Lemma trim_idem (s : string) : trim (trim s) = trim s.
Proof.
  unfold trim.
  rewrite (skip_space_trim_end _ (skip_space_head s)). apply trim_end_idem.
Qed.

Lemma chars_skip_space (s : string) (c : ascii) :
  In c (chars (skip_space s)) -> In c (chars s).
Proof.
  induction s as [|x r IH]; simpl; [easy|].
  destruct (is_space x); [intros H; right; now apply IH | easy].
Qed.

Lemma chars_trim_end (s : string) (c : ascii) :
  In c (chars (trim_end s)) -> In c (chars s).
Proof.
  revert c. induction s as [|x r IH]; intros c; simpl; [easy|].
  destruct (trim_end r) as [|a b].
  - destruct (is_space x); simpl; [easy | intros [H|[]]; now left].
  - intros [H|H]; [now left | right; now apply IH].
Qed.

Lemma chars_trim (s : string) (c : ascii) :
  In c (chars (trim s)) -> In c (chars s).
Proof.
  unfold trim. intros H. now apply chars_skip_space, chars_trim_end.
Qed.

Lemma clean_trim (s : string) :
  ~ In quote_char (chars s) -> clean (trim s).
Proof.
  intros H. split; [|apply trim_idem].
  intros Hin. apply H. now apply chars_trim.
Qed.

Lemma clean_empty : clean EmptyString.
Proof. split; [easy | reflexivity]. Qed.

Lemma scan_clean (line current : string) (inQuotes : bool) (values : list string) :
  ~ In quote_char (chars current) -> Forall clean values ->
  Forall clean (scan line current inQuotes values).
Proof.
  revert current inQuotes values.
  induction line as [|c r IH]; intros current inQuotes values Hc Hv; simpl.
  - apply Forall_app. split; [exact Hv|].
    constructor; [now apply clean_trim | constructor].
  - destruct (Ascii.eqb_spec c quote_char) as [->|Hq]; [now apply IH|].
    destruct (Ascii.eqb c "," && negb inQuotes).
    + apply IH; [easy|]. apply Forall_app. split; [exact Hv|].
      constructor; [now apply clean_trim | constructor].
    + apply IH; [|exact Hv]. rewrite chars_app. intros Hin.
      apply in_app_or in Hin as [Hin|[Hin|[]]]; [now apply Hc | now apply Hq].
Qed.

Lemma obj_set_values (k v : string) (obj : object) (P : string -> Prop) :
  P v -> Forall (fun kv => P (snd kv)) obj ->
  Forall (fun kv => P (snd kv)) (obj_set k v obj).
Proof.
  intros Hv Ho. unfold obj_set. destruct (String.eqb k "__proto__"); [exact Ho|].
  induction obj as [|[k' v'] t IHt]; simpl.
  - constructor; [exact Hv | constructor].
  - inversion Ho; subst. destruct (String.eqb k' k).
    + constructor; [exact Hv | assumption].
    + constructor; [assumption | now apply IHt].
Qed.

Lemma obj_set_keys (k v : string) (obj : object) (P : string -> Prop) :
  P k -> Forall (fun kv => P (fst kv)) obj ->
  Forall (fun kv => P (fst kv)) (obj_set k v obj).
Proof.
  intros Hk Ho. unfold obj_set. destruct (String.eqb k "__proto__"); [exact Ho|].
  induction obj as [|[k' v'] t IHt]; simpl.
  - constructor; [exact Hk | constructor].
  - inversion Ho; subst. destruct (String.eqb k' k).
    + constructor; assumption.
    + constructor; [assumption | now apply IHt].
Qed.

Lemma fill_values (headers : list string) (index : nat) (values : list string)
  (obj : object) (P : string -> Prop) :
  P EmptyString -> Forall P values -> Forall (fun kv => P (snd kv)) obj ->
  Forall (fun kv => P (snd kv)) (fill headers index values obj).
Proof.
  intros He Hv. revert index obj.
  induction headers as [|h r IH]; intros index obj Ho; simpl; [exact Ho|].
  apply IH, obj_set_values; [|exact Ho].
  destruct (nth_in_or_default index values EmptyString) as [Hin| ->];
    [|exact He].
  rewrite Forall_forall in Hv. now apply Hv.
Qed.

Lemma fill_keys (headers : list string) (index : nat) (values : list string)
  (obj : object) (P : string -> Prop) :
  Forall P headers -> Forall (fun kv => P (fst kv)) obj ->
  Forall (fun kv => P (fst kv)) (fill headers index values obj).
Proof.
  intros Hh. revert index obj.
  induction Hh as [|h r Ph Hr IH]; intros index obj Ho; simpl; [exact Ho|].
  now apply IH, obj_set_keys.
Qed.

(** X24.  What [parseCSV] gives, whatever the file: one row for each line
    after the first; in every row, no value holds a double quote, a doubled
    one inside a quoted field included, no value has white space at either
    end, and every key is a trimmed header. *)
Theorem parseCSV_values_are_clean (content : string) :
  List.length (parseCSV content)
  = (List.length (split newline (trim content)) - 1)%nat
  /\ Forall
       (fun row =>
          Forall (fun kv => trim (fst kv) = fst kv /\ clean (snd kv)) row)
       (parseCSV content).
Proof.
  unfold parseCSV. split.
  - rewrite length_map. destruct (split newline (trim content)); simpl; lia.
  - apply Forall_forall. intros row Hin.
    apply in_map_iff in Hin as (line & <- & _).
    apply Forall_forall. intros kv Hkv. split.
    + revert kv Hkv. apply Forall_forall.
      apply (fill_keys _ _ _ _ (fun k => trim k = k)); [|constructor].
      apply Forall_forall. intros h Hh.
      apply in_map_iff in Hh as (h0 & <- & _). apply trim_idem.
    + revert kv Hkv. apply Forall_forall.
      apply (fill_values _ _ _ _ clean); [apply clean_empty | | constructor].
      unfold parse_line. apply scan_clean; [easy | constructor].
Qed.








(** The setter that a row inherits keeps the field of a header named
    [__proto__] out of the row. *)
Lemma proto_header_is_not_stored (values : list string) :
  fill ["__proto__"%string] 0 values [] = [].
Proof. reflexivity. Qed.


(** ** The connection module *)

Lemma connection_step_consistent (e : Connection.environment)
  (st : Connection.state) (c : Connection.call) :
  Connection.consistent st -> Connection.consistent (Connection.step e st c).
Proof.
  unfold Connection.consistent. intros (Hd & Hc).
  destruct st as [cl d n]. simpl in *.
  destruct c as [makes connects| |closes]; simpl.
  - unfold Connection.connect. simpl.
    destruct cl as [c0|], d as [d0|]; simpl; try (now split).
    + destruct (Connection.getUri e) as [uri|]; simpl; [|now split].
      destruct makes; simpl; [|now split].
      destruct connects; simpl; split; trivial; try lia.
      eexists. split; reflexivity.
    + destruct Hd as (c & Hc0 & _). discriminate.
    + destruct (Connection.getUri e) as [uri|]; simpl; [|now split].
      destruct makes; simpl; [|now split].
      destruct connects; simpl; split; trivial; try lia.
      eexists. split; reflexivity.
  - now split.
  - unfold Connection.close. simpl.
    destruct cl as [c0|]; simpl; [|now split].
    destruct closes; simpl; now split.
Qed.

Lemma connection_run_consistent (e : Connection.environment)
  (calls : list Connection.call) (st : Connection.state) :
  Connection.consistent st ->
  Connection.consistent (fold_left (Connection.step e) calls st).
Proof.
  revert st. induction calls as [|c calls IH]; intros st H; simpl; [exact H|].
  apply IH. now apply connection_step_consistent.
Qed.

(** X26.  Whatever calls are made on the connection module and whatever
    happens outside, [getDb] never hands out a database of another client
    than the one the module holds: a database handle is held only together
    with the client it was taken from.  Without a host in the environment
    no client is ever made and [getDb] throws after any calls. *)
Theorem getDb_is_of_the_current_client (e : Connection.environment)
  (calls : list Connection.call) :
  (forall d, Connection.getDb (Connection.run e calls) = Some d ->
     exists c, Connection.client (Connection.run e calls) = Some c
               /\ Connection.d_client d = Connection.c_id c)
  /\ (Connection.getUri e = None ->
      Connection.run e calls = Connection.initial).
Proof.
  split.
  - intros d Hd.
    assert (H : Connection.consistent (Connection.run e calls)).
    { apply connection_run_consistent. split; exact I. }
    destruct H as (H & _). unfold Connection.getDb in Hd.
    now rewrite Hd in H.
  - intros Hu. unfold Connection.run.
    induction calls as [|c calls IH] using rev_ind; [reflexivity|].
    rewrite fold_left_app. simpl. rewrite IH.
    destruct c as [makes connects| |closes]; simpl; trivial.
    unfold Connection.connect. simpl. now rewrite Hu.
Qed.

(** X27.  A connection that was made is kept: after a [connect] that
    succeeded, [getDb] gives the database it returned, any further
    [connect] returns the same client and database and makes no new
    client, whatever happens outside, and after a [close] that succeeded
    [getDb] throws. *)
Theorem connect_is_kept_until_close (e : Connection.environment)
  (makes connects : bool) (st st1 : Connection.state)
  (c : Connection.MongoClient) (d : Connection.Db) :
  Connection.connect e makes connects st = (Some (c, d), st1) ->
  Connection.getDb st1 = Some d
  /\ (forall makes' connects',
        Connection.connect e makes' connects' st1 = (Some (c, d), st1))
  /\ Connection.getDb (snd (Connection.close true st1)) = None.
Proof.
  intros H.
  assert (Held : Connection.client st1 = Some c /\ Connection.db st1 = Some d).
  { unfold Connection.connect in H.
    destruct (Connection.client st) as [c0|] eqn:Ec;
      destruct (Connection.db st) as [d0|] eqn:Ed;
      try (injection H as <- <- <-; now split);
      (destruct (Connection.getUri e); [|discriminate];
       destruct makes; [|discriminate];
       destruct connects; [|discriminate];
       simpl in H; injection H as <- <- <-; now split). }
  destruct Held as (Hc & Hd).
  unfold Connection.getDb, Connection.connect, Connection.close.
  rewrite Hc, Hd. simpl. repeat split.
Qed.

(** ** The further properties at the scenarios *)

Lemma no_record_changes_without_201_at_A :
  let w := mkWorld store_A None (Some 2%nat) 100 in
  let req := mkRequest "1" (JNumber (Num 9%Q)) (JNumber (Num (9 # 2))) in
  let w' := snd (rate 1700000000123 req w) in
  fst (rate 1700000000123 req w) = Ok Status500
  /\ movies (db w') = movies store_A
  /\ ratings (db w') <> ratings store_A.
Proof.
  intros w req w'. split; [reflexivity|].
  destruct (no_record_changes_without_201 1700000000123 req w Status500 w' eq_refl)
    as (Hm & _); [intros; discriminate|].
  split; [exact Hm | discriminate].
Defined.

Lemma ratings_stay_in_range_at_A :
  let req := mkRequest "1" (JNumber (Num 9%Q)) (JNumber (Num (9 # 2))) in
  values_in_range (db world_A)
  /\ values_in_range (db (snd (rate 1700000000123 req world_A))).
Proof.
  intros req.
  assert (H : values_in_range (db world_A)).
  { repeat constructor; eexists; (split; [reflexivity|]); split; discriminate. }
  split; [exact H|].
  eapply (ratings_stay_in_range 1700000000123 req world_A); [exact H | reflexivity].
Defined.

Lemma missing_entity_answered_404_at_A :
  entity (db world_A) 999 = None
  /\ rate 1700000000123
       (mkRequest "999" (JNumber (Num 9%Q)) (JNumber (Num 4%Q))) world_A
     = (Ok (Status404 "Movie not found"), world_A).
Proof.
  split; [reflexivity|].
  apply (missing_entity_answered_404 1700000000123 _ world_A 999 9 4);
    try reflexivity; discriminate.
Defined.

Lemma submission_touches_one_entity_at_B :
  let req := mkRequest "11" (JString "12") (JString "4.5") in
  let w' := snd (rate 1700000060456 req world_B) in
  entity (db w') 10 = entity store_B 10
  /\ bound (db w') 10 = bound store_B 10
  /\ List.length (ratings (db w')) = 4%nat.
Proof.
  intros req w'.
  destruct (submission_touches_one_entity 1700000060456 req world_B
              (Rating.mk 100 12 11 (Num (9 # 2)) 1700000060)
              (mkUpdated 11 (Num (7 # 2)) 3) w' eq_refl)
    as (Hr & _ & _ & Ho & _).
  destruct (Ho 10%Z) as (He & Hb); [discriminate|].
  split; [exact He|]. split; [exact Hb|]. now rewrite Hr.
Defined.

Lemma survivor_is_smallest_at_B :
  let w' := snd (mergeDuplicates (Some "Alpha"%string) (Some "1999"%string)
                   world_B) in
  Forall (fun d => (10 <= d)%Z) [11%Z] /\ ascending [11%Z].
Proof.
  intros w'.
  destruct (survivor_is_smallest (Some "Alpha"%string) (Some "1999"%string)
              world_B 10 [11%Z] 2 (num (11 # 3)) 3 w' eq_refl)
    as (title & year & _ & _ & _ & Hs & Ha).
  split; [exact Hs | exact Ha].
Defined.

Lemma merge_conserves_events_at_B :
  let w' := snd (mergeDuplicates (Some "Alpha"%string) (Some "1999"%string)
                   world_B) in
  NoDup (map Rating._id (ratings store_B))
  /\ NoDup (map Movie.movieId (movies store_B))
  /\ List.length (bound (db w') 10) = 3%nat
  /\ map Rating.rating (ratings (db w')) = map Rating.rating (ratings store_B).
Proof.
  intros w'.
  assert (H1 : NoDup (map Rating._id (ratings store_B))).
  { repeat constructor; simpl; intuition discriminate. }
  assert (H2 : NoDup (map Movie.movieId (movies store_B))).
  { repeat constructor; simpl; intuition discriminate. }
  destruct (merge_conserves_events (Some "Alpha"%string) (Some "1999"%string)
              world_B 10 [11%Z] 2 (num (11 # 3)) 3 w' H1 H2 eq_refl)
    as (Hl & _ & Hv & _).
  repeat split; trivial.
Defined.

Lemma merge_removes_only_duplicates_at_B :
  let w' := snd (mergeDuplicates (Some "Alpha"%string) (Some "1999"%string)
                   world_B) in
  NoDup (map Movie.movieId (movies store_B))
  /\ (List.length (movies (db w')) + 1 = 2)%nat.
Proof.
  intros w'.
  assert (H2 : NoDup (map Movie.movieId (movies store_B))).
  { repeat constructor; simpl; intuition discriminate. }
  destruct (merge_removes_only_duplicates (Some "Alpha"%string)
              (Some "1999"%string) world_B 10 [11%Z] 2 (num (11 # 3)) 3 w' H2
              eq_refl)
    as (title & year & _ & _ & _ & _ & _ & Hn).
  split; [exact H2 | exact Hn].
Defined.

Lemma merge_reports_by_group_size_at_E :
  fuse world_E = None
  /\ (List.length (group (db world_E) "Serial" "2006-2007") < 2)%nat
  /\ mergeDuplicates (Some "Serial"%string) (Some "2006-2007"%string) world_E
     = (Ok NoOp, world_E).
Proof.
  split; [reflexivity|].
  destruct (merge_reports_by_group_size "Serial" "2006-2007" world_E eq_refl)
    as [H|(H & _)]; [discriminate | discriminate | exact H |].
  exfalso. vm_compute in H. lia.
Defined.

Lemma details_list_the_most_recent_at_B :
  let d := mkDetails (Movie.mk 10 "Alpha (1999)" (Some 1999%Z) (Num 5%Q) 1)
             [event 1 7 10 5] []
             (Some (mkExternal
                      (Some "https://www.imdb.com/title/tt0111111/"%string)
                      (Some "https://www.themoviedb.org/movie/111"%string))) in
  movie_details "10" (Some "1"%string) world_B = (Ok (Details200 d), world_B)
  /\ newest_first (d_recentRatings d)
  /\ (List.length (d_recentRatings d) <= 1)%nat.
Proof.
  intros d.
  assert (H : movie_details "10" (Some "1"%string) world_B
              = (Ok (Details200 d), world_B)) by reflexivity.
  split; [exact H|].
  destruct (details_list_the_most_recent "10" (Some "1"%string) world_B d world_B H)
    as (m & rest & _ & _ & _ & Hs & _ & Hl & _).
  split; [exact Hs | exact Hl].
Defined.

Lemma submitted_rating_is_read_back_at_A :
  let req := mkRequest "1" (JNumber (Num 9%Q)) (JNumber (Num (9 # 2))) in
  let r := Rating.mk 100 9 1 (Num (9 # 2)) 1700000060 in
  let w1 := snd (rate 1700000060456 req world_A) in
  exists d,
    movie_details "1" None w1 = (Ok (Details200 d), w1)
    /\ stats (d_movie d) = (num (413 # 100), 4%nat)
    /\ hd_error (d_recentRatings d) = Some r.
Proof.
  intros req r w1.
  destruct (submitted_rating_is_read_back 1700000060456 req None world_A r
              (mkUpdated 1 (num (413 # 100)) 4) w1 eq_refl eq_refl)
    as (d & Hd & _ & Hs & Hh).
  - intros x [<-|[<-|[<-|[]]]]; reflexivity.
  - exists d. repeat split; trivial.
Defined.

Lemma stats_users_at_most_ratings_at_B :
  database_stats world_B = (Ok (Stats200 (mkCounts 2 3 1 3)), world_B)
  /\ (3 <= 3)%nat.
Proof.
  assert (H : database_stats world_B
              = (Ok (Stats200 (mkCounts 2 3 1 3)), world_B)) by reflexivity.
  split; [exact H|].
  destruct (stats_users_at_most_ratings world_B _ world_B H) as (Hle & _).
  exact Hle.
Defined.

Lemma stats_after_submission_at_B :
  let req := mkRequest "11" (JString "7") (JString "4.5") in
  let w1 := snd (rate 1700000060456 req world_B) in
  exists c1,
    database_stats w1 = (Ok (Stats200 c1), w1)
    /\ c_ratings c1 = 4%nat /\ c_users c1 = 3%nat.
Proof.
  intros req w1.
  exists (mkCounts 2 4 1 3).
  destruct (stats_after_submission 1700000060456 req world_B
              (Rating.mk 100 7 11 (Num (9 # 2)) 1700000060)
              (mkUpdated 11 (Num (7 # 2)) 3) w1
              (mkCounts 2 3 1 3) (mkCounts 2 4 1 3) world_B w1
              eq_refl eq_refl eq_refl)
    as (_ & Hr & _ & Hu).
  split; [reflexivity|]. split; [exact Hr | exact Hu].
Defined.


Lemma hasMore_tells_what_is_left_at_B :
  let q := mkListQuery None None None (Some "1"%string) (Some "1"%string)
             None None in
  exists found pg,
    list_movies (fun _ _ => true) (fun _ _ => true) q world_B
    = (Ok (List200 found pg), world_B)
    /\ (p_hasMore pg = true
        <-> (p_offset pg + Z.of_nat (List.length found)
             < Z.of_nat (p_total pg))%Z).
Proof.
  intros q.
  exists [Movie.mk 11 "Alpha (1999)" (Some 1999%Z) (Num 3%Q) 2],
         (mkPagination 2 1 1 false).
  assert (H : list_movies (fun _ _ => true) (fun _ _ => true) q world_B
              = (Ok (List200 [Movie.mk 11 "Alpha (1999)" (Some 1999%Z) (Num 3%Q) 2]
                       (mkPagination 2 1 1 false)), world_B)) by reflexivity.
  split; [exact H|].
  apply (hasMore_tells_what_is_left _ _ q world_B _ _ world_B H).
  simpl. lia.
Defined.



Lemma form_requests_have_a_valid_rater_at_A :
  let userId :=
    "1000000000000000000000000000000000000000000000000000000000000000000000000000000000000000000000000000000000000000000000000000000000000000000000000000000000000000000000000000000000000000000000000000000000000000000000000000000000000000000000000000000000000000000000000000000000000000000000000000000000000000000000"%string in
  let req := mkRequest "1" JNull (JNumber (Num 4%Q)) in
  form_submit "1" userId "4" = Some req
  /\ rate 1700000000123 req world_A
     = (Ok (Status400 "Valid userId is required"), world_A)
  /\ number_of_int (parseInt (JString userId)) = Inf false.
Proof.
  intros userId req.
  assert (Hf : form_submit "1" userId "4" = Some req)
    by (vm_compute; reflexivity).
  assert (Hr : rate 1700000000123 req world_A
               = (Ok (Status400 "Valid userId is required"), world_A))
    by reflexivity.
  split; [exact Hf|]. split; [exact Hr|].
  destruct (form_requests_have_a_valid_rater "1" userId "4" 1700000000123 _
              world_A _ world_A Hf Hr) as (Ho & _).
  destruct (Ho eq_refl) as (s & Hs). rewrite Hs.
  revert Hs. vm_compute. intros Hs. injection Hs as <-. reflexivity.
Defined.

Lemma import_statistics_are_the_handlers_at_A :
  let parsed :=
    [ParsedMovie.mk (Some 1%Z) "Heat (1995)" (Some 1995%Z) ["Action"%string]
       (Num 0%Q) 0;
     ParsedMovie.mk (Some 2%Z) "Solo" None [] (Num 0%Q) 0] in
  let rated :=
    [ParsedRating.mk (Some 2%Z) (Some 1%Z) (Num 4%Q) (Some 1700000000%Z);
     ParsedRating.mk (Some 3%Z) (Some 1%Z) (Num 5%Q) (Some 1700000000%Z);
     ParsedRating.mk (Some 4%Z) (Some 1%Z) (Num 3%Q) (Some 1700000000%Z)] in
  exists m1 m2,
    calculateMovieStats parsed rated = [m1; m2]
    /\ (ParsedMovie.averageRating m1, ParsedMovie.ratingCount m1)
       = recalculate (ratings store_A)
    /\ m2 = ParsedMovie.mk (Some 2%Z) "Solo" None [] (Num 0%Q) 0.
Proof.
  intros parsed rated.
  pose proof (import_statistics_are_the_handlers parsed rated) as H.
  remember (calculateMovieStats parsed rated) as out eqn:E.
  inversion H as [|mv m1 l1 l1' (_ & _ & _ & _ & _ & H1) T1]; subst.
  inversion T1 as [|mv2 m2 l2 l2' (_ & _ & _ & _ & H2 & _) T2]; subst.
  inversion T2; subst.
  exists m1, m2. split; [reflexivity|]. split.
  - apply H1; [reflexivity | discriminate].
  - apply H2. reflexivity.
Defined.

Lemma batches_cover_the_data_at_5 :
  exists batches,
    insert_in_batches 6 (Some 2%Z) [1; 2; 3; 4; 5]%nat (Some 0%Z)
    = (batches, Completed)
    /\ List.concat batches = [1; 2; 3; 4; 5]%nat.
Proof.
  destruct (batches_cover_the_data 2 [1; 2; 3; 4; 5]%nat 6)
    as (bs & Hrun & Hcat & _); [lia | simpl; lia |].
  exists bs. split; [exact Hrun | exact Hcat].
Defined.

Lemma bad_batch_size_is_rejected_at_NaN :
  exists batches,
    insert_in_batches 6 (parseInt_string "ten thousand") [1; 2; 3]%nat (Some 0%Z)
    = (batches, Rejected)
    /\ (List.length (List.concat batches) < 3)%nat.
Proof.
  apply (bad_batch_size_is_rejected (parseInt_string "ten thousand")
           [1; 2; 3]%nat 6); [discriminate | discriminate | lia].
Defined.

Lemma summaries_go_out_in_full_batches_at_3 :
  List.concat (update_in_batches [1; 2; 3]%nat []) = [1; 2; 3]%nat
  /\ exists full last,
       update_in_batches [1; 2; 3]%nat [] = full ++ [last]
       /\ (1 <= List.length last <= 500)%nat.
Proof.
  destruct (summaries_go_out_in_full_batches [1; 2; 3]%nat) as (Hc & _ & Hl).
  split; [exact Hc|].
  destruct Hl as (full & last & Hrun & _ & Hsz); [discriminate|].
  exists full, last. split; [exact Hrun | exact Hsz].
Defined.

Lemma imported_record_is_located_at_B :
  let content :=
    ("movieId,title,genres" ++ String newline "10,Alpha (1999),Drama|Crime"
     ++ String newline "20,Serial (2006-2007),Drama")%string in
  exists alpha serial,
    parseMovies (parseCSV content) = Some [alpha; serial]
    /\ by_title_year (template "Alpha" "1999") (parseInt_string "1999")
         (document alpha 10) = true
    /\ by_title_year (template "Serial" "2006-2007")
         (parseInt_string "2006-2007") (document serial 20) = false.
Proof.
  intros content.
  set (alpha := ParsedMovie.mk (Some 10%Z) "Alpha (1999)" (Some 1999%Z)
                  ["Drama"%string; "Crime"%string] (Num 0%Q) 0).
  set (serial := ParsedMovie.mk (Some 20%Z) "Serial (2006-2007)" None
                   ["Drama"%string] (Num 0%Q) 0).
  assert (H : parseMovies (parseCSV content) = Some [alpha; serial])
    by reflexivity.
  exists alpha, serial. split; [exact H|]. split.
  - destruct (imported_record_is_located _ _ alpha 10 H (or_introl eq_refl))
      as (Hyes & _).
    apply Hyes; reflexivity.
  - destruct (imported_record_is_located _ _ serial 20 H
                (or_intror (or_introl eq_refl))) as (_ & Hno).
    apply Hno. reflexivity.
Defined.


Lemma getDb_is_of_the_current_client_at_restart :
  let e := Connection.mkEnvironment (Some "uid.us-east4.firestore.goog"%string)
             None in
  let calls :=
    [Connection.Connect true false; Connection.Connect true true;
     Connection.GetDb] in
  exists c,
    Connection.client (Connection.run e calls) = Some c
    /\ Connection.c_id c = 1%nat.
Proof.
  intros e calls.
  destruct (getDb_is_of_the_current_client e calls) as (H & _).
  destruct (H (Connection.mkDb 1 "cymbalflix-db") eq_refl) as (c & Hc & Hid).
  exists c. split; [exact Hc | now rewrite <- Hid].
Defined.

Lemma connect_is_kept_until_close_at_start :
  let e := Connection.mkEnvironment (Some "uid.us-east4.firestore.goog"%string)
             (Some "films"%string) in
  let st1 := snd (Connection.connect e true true Connection.initial) in
  Connection.getDb st1 = Some (Connection.mkDb 0 "films")
  /\ Connection.made (snd (Connection.connect e true true st1)) = 1%nat.
Proof.
  intros e st1.
  destruct (connect_is_kept_until_close e true true Connection.initial st1
              (Connection.mkClient 0
                 (match Connection.getUri e with Some u => u | None => EmptyString end))
              (Connection.mkDb 0 "films") eq_refl)
    as (Hg & Hk & _).
  split; [exact Hg|]. now rewrite Hk.
Defined.
